(** * Bridge crossing: the two solvers of [BridgeCrossingSolution.py]

    A shallow embedding of [solve_bridge_problem_bfs], [solve_bridge_problem_dfs]
    and [print_bridge_solution] and of the main block, the properties of the
    design document stated against it, and further properties of the code.

    Modelling choices.
    - A [frozenset] of names is a [gset string], a [dict] is a [gmap]; a
      configuration is the triple [(start_side, end_side, umbrella_pos)].
    - Durations and times are Python integers, modelled as [Z].
    - [float('inf')] only ever appears as the default of a lookup or as the
      initial [min_total_time]; both are an absent value ([None]) here.
    - Exceptions ([KeyError], [ValueError], [IndexError]) are explicit results.
    - The [while] loops run on fuel; every theorem that promises a result
      gives the amount of fuel that suffices.
    - Python does not fix the order in which a [frozenset] is iterated, nor
      which of several entries of equal time [heapq] pops first.  Both are
      parameters of the model ([IterOrder], [Heapq]); theorems hold for every
      choice, and [elements_order] and [list_heapq] are one concrete choice. *)
From Stdlib Require Import ZArith Lia.
From stdpp Require Import base option list sets gmap strings sorting.
Open Scope Z_scope.
Set Warnings "-clear-no-such-hyp".
(** ** Exceptions and results *)
Inductive exn := KeyError | ValueError | IndexError.
Inductive exc (A : Type) :=
  | Ok (a : A)
  | Raise (e : exn).
Arguments Ok {A} a.
Arguments Raise {A} e.
Global Instance exc_ret : MRet exc := λ A a, Ok a.
Global Instance exc_bind : MBind exc := λ A B k m,
  match m with
  | Ok a => k a
  | Raise e => Raise e
  end.
(** [for x in l: s = body x s], stopping at the first exception. *)
Fixpoint for_each {A S : Type} (body : A → S → exc S) (l : list A) (s : S) : exc S :=
  match l with
  | [] => Ok s
  | x :: l' => s' ← body x s; for_each body l' s'
  end.
(** [[f(x) for x in l]], stopping at the first exception. *)
Fixpoint map_exc {A B : Type} (f : A → exc B) (l : list A) : exc (list B) :=
  match l with
  | [] => Ok []
  | x :: l' => y ← f x; ys ← map_exc f l'; Ok (y :: ys)
  end.
(** Outcome of a loop run on fuel. *)
Inductive run (A : Type) :=
  | Returns (a : A)
  | Raises (e : exn)
  | OutOfFuel.
Arguments Returns {A} a.
Arguments Raises {A} e.
Arguments OutOfFuel {A}.
(** [while True: body], where the body either returns from the function
    ([inl]) or goes round again with a new state ([inr]). *)
Fixpoint while_loop {S R : Type} (body : S → exc (R + S)) (fuel : nat) (s : S) : run R :=
  match fuel with
  | O => OutOfFuel
  | Datatypes.S n =>
      match body s with
      | Raise e => Raises e
      | Ok (inl r) => Returns r
      | Ok (inr s') => while_loop body n s'
      end
  end.
(** ** Data model *)
Abbreviation person := string (only parsing).
(** [umbrella_pos]: the strings ['start'] and ['end']. *)
Inductive side := AtStart | AtEnd.
Global Instance side_eq_dec : EqDecision side.
Proof. solve_decision. Defined.
Global Instance side_countable : Countable side.
Proof.
  refine (inj_countable' (λ s, match s with AtStart => true | AtEnd => false end)
            (λ b : bool, if b then AtStart else AtEnd) _).
  by intros [].
Defined.
(** [(start_side, end_side, umbrella_pos)] *)
Abbreviation config := (gset string * gset string * side)%type (only parsing).
Abbreviation path := (list (gset string * gset string * side)) (only parsing).
(** What both solvers return: [(time or None, path or None, visited)]. *)
Abbreviation result :=
  (option Z * option (list (gset string * gset string * side))
   * gmap (gset string * gset string * side) Z)%type (only parsing).
(** [itertools.combinations(l, r)]: the [r]-element subsequences of [l], in
    lexicographic order of positions. *)
Fixpoint combinations {A : Type} (r : nat) (l : list A) : list (list A) :=
  match r, l with
  | O, _ => [[]]
  | Datatypes.S _, [] => []
  | Datatypes.S r', x :: l' => (cons x <$> combinations r' l') ++ combinations r l'
  end.
(** ** Unspecified behaviour of the Python runtime, as parameters *)
(** The order in which [combinations(move_from, _)] reads the frozenset
    [move_from]: some enumeration of its elements, which may depend on how the
    set was built, that is on the path that led to it. *)
Class IterOrder := {
  iter : path → gset string → list string;
  iter_perm : ∀ p s, iter p s ≡ₚ elements s
}.
(** [heapq] on entries [(time, path)]: [heappop] removes an entry of least
    time; which one among entries of equal time depends on the comparison of
    the paths and on the layout of the heap. *)
Class Heapq := {
  heap : Type;
  heap_items : heap → list (Z * path);
  heap_new : Z * path → heap;
  heappush : heap → Z * path → heap;
  heappop : heap → option ((Z * path) * heap);
  heap_items_new : ∀ e, heap_items (heap_new e) = [e];
  heap_items_push : ∀ q e, heap_items (heappush q e) ≡ₚ e :: heap_items q;
  heappop_None : ∀ q, heappop q = None ↔ heap_items q = [];
  heappop_Some : ∀ q e q', heappop q = Some (e, q') →
    heap_items q ≡ₚ e :: heap_items q' ∧ Forall (λ e', e.1 ≤ e'.1) (heap_items q)
}.
(** ** The code shared by both solvers *)
Section moves.
Context {order : IterOrder}.
Variable crossing_times : gmap string Z.
Variable time_limit : Z.
(** [(frozenset(all_people), frozenset(), 'start')] *)
Definition initial_state : config := (dom crossing_times, ∅, AtStart).
(** [max(crossing_times[person] for person in group)] *)
Definition trip_time (group : gset string) : exc Z :=
  ts ← map_exc (λ person,
          match crossing_times !! person with
          | Some t => Ok t
          | None => Raise KeyError
          end) (elements group);
  match ts with
  | [] => Raise ValueError
  | t :: ts' => Ok (foldl Z.max t ts')
  end.
Definition move_from (c : config) : gset string :=
  let '(start_side, end_side, umbrella_pos) := c in
  match umbrella_pos with
  | AtStart => start_side
  | AtEnd => end_side
  end.
Definition move_to_pos (c : config) : side :=
  match c.2 with
  | AtStart => AtEnd
  | AtEnd => AtStart
  end.
(** The configuration after [group] has crossed. *)
Definition new_config (c : config) (group : gset string) : config :=
  let '(start_side, end_side, umbrella_pos) := c in
  match umbrella_pos with
  | AtStart => (start_side ∖ group, end_side ∪ group, move_to_pos c)
  | AtEnd => (start_side ∪ group, end_side ∖ group, move_to_pos c)
  end.
(** [for num_people in [1, 2]: if len(move_from) < num_people: continue;
    for group in combinations(move_from, num_people)]: the tuples the two
    nested loops go through, in order. *)
Definition groups (p : path) (c : config) : list (list string) :=
  flat_map (λ num_people,
    if bool_decide (size (move_from c) < num_people)%nat then []
    else combinations num_people (iter p (move_from c))) [1%nat; 2%nat].
(** [new_config not in visited or new_total_time < visited[new_config]] *)
Definition improves (visited : gmap config Z) (c : config) (t : Z) : bool :=
  match visited !! c with
  | None => true
  | Some v => bool_decide (t < v)
  end.
(** [current_time > visited.get(current_config, float('inf'))] *)
Definition stale (visited : gmap config Z) (c : config) (t : Z) : bool :=
  match visited !! c with
  | None => false
  | Some v => bool_decide (t > v)
  end.
(** The body of the inner loop, lines 51-73 and 130-151.  The two solvers
    differ only in what they do with an accepted child ([emit]): the first
    pushes it on the heap, the second appends it to [possible_moves]. *)
Definition consider {C : Type} (emit : C → Z → path → config → C)
    (current_time : Z) (p : path) (current_config : config)
    (tuple : list string) (s : gmap config Z * C) : exc (gmap config Z * C) :=
  let group : gset string := list_to_set tuple in
  trip ← trip_time group;
  let new_total_time := current_time + trip in
  if bool_decide (new_total_time > time_limit) then Ok s
  else
    let nc := new_config current_config group in
    if improves s.1 nc new_total_time
    then Ok (<[nc := new_total_time]> s.1, emit s.2 new_total_time (p ++ [nc]) nc)
    else Ok s.
(** Lines 46-73 and 125-151. *)
Definition explore {C : Type} (emit : C → Z → path → config → C)
    (current_time : Z) (p : path) (current_config : config)
    (s : gmap config Z * C) : exc (gmap config Z * C) :=
  for_each (consider emit current_time p current_config) (groups p current_config) s.
End moves.
(** [heapq.heappush(pq, (new_total_time, new_path))] *)
Definition push_entry `{Heapq} (q : heap) (t : Z) (p : path) (c : config) : heap :=
  heappush q (t, p).
(** [possible_moves.append((new_total_time, path + [new_config], new_config))] *)
Definition append_move (moves : list (Z * path * config)) (t : Z) (p : path)
    (c : config) : list (Z * path * config) :=
  moves ++ [(t, p, c)].
(** ** [solve_bridge_problem_bfs] *)
Record bfs_state `{Heapq} := {
  pq : heap;
  visited_times : gmap config Z
}.
Section bfs.
Context {order : IterOrder} {hq : Heapq}.
Variable crossing_times : gmap string Z.
Variable time_limit : Z.
(** Lines 10-16. *)
Definition bfs_init : bfs_state :=
  {| pq := heap_new (0, [initial_state crossing_times]);
     visited_times := {[ initial_state crossing_times := 0 ]} |}.
(** One round of [while pq:], lines 18-73, and line 75 when the heap is
    empty. *)
Definition bfs_iteration (st : bfs_state) : exc (result + bfs_state) :=
  match heappop (pq st) with
  | None => Ok (inl (None, None, visited_times st))
  | Some ((current_time, p), pq') =>
      match last p with
      | None => Raise IndexError
      | Some current_config =>
          if decide (current_config.1.1 = ∅) then
            if bool_decide (current_time ≤ time_limit)
            then Ok (inl (Some current_time, Some p, visited_times st))
            else Ok (inr {| pq := pq'; visited_times := visited_times st |})
          else if stale (visited_times st) current_config current_time
          then Ok (inr {| pq := pq'; visited_times := visited_times st |})
          else
            '(visited', pq'') ←
              explore crossing_times time_limit push_entry
                current_time p current_config (visited_times st, pq');
            Ok (inr {| pq := pq''; visited_times := visited' |})
      end
  end.
Definition solve_bridge_problem_bfs (fuel : nat) : run result :=
  while_loop bfs_iteration fuel bfs_init.
End bfs.
(** ** [solve_bridge_problem_dfs] *)
(** [l.pop()] on a Python list: the last element. *)
Definition pop_last {A : Type} (l : list A) : option (list A * A) :=
  match reverse l with
  | [] => None
  | x :: r => Some (reverse r, x)
  end.
(** [sorted(l, key=..., reverse=True)]: decreasing keys, elements of equal
    key in their original order. *)
Fixpoint insert_desc {A : Type} (key : A → Z) (x : A) (l : list A) : list A :=
  match l with
  | [] => [x]
  | y :: l' => if bool_decide (key x < key y) then y :: insert_desc key x l' else x :: l
  end.
Definition sorted_desc {A : Type} (key : A → Z) (l : list A) : list A :=
  foldr (insert_desc key) [] l.
Record dfs_state := {
  stack : list (Z * path * config);
  visited_states : gmap config Z;
  min_total_time : option Z;
  best_path : option path
}.
Section dfs.
Context {order : IterOrder}.
Variable crossing_times : gmap string Z.
Variable time_limit : Z.
(** Lines 83-94. *)
Definition dfs_init : dfs_state :=
  {| stack := [(0, [initial_state crossing_times], initial_state crossing_times)];
     visited_states := {[ initial_state crossing_times := 0 ]};
     min_total_time := None;
     best_path := None |}.
(** [current_time < min_total_time], where [None] is [float('inf')]. *)
Definition below (t : Z) (bound : option Z) : bool :=
  match bound with
  | None => true
  | Some b => bool_decide (t < b)
  end.
(** One round of [while stack:], lines 96-157, and line 159 when the stack
    is empty. *)
Definition dfs_iteration (st : dfs_state) : exc (result + dfs_state) :=
  match pop_last (stack st) with
  | None => Ok (inl (min_total_time st, best_path st, visited_states st))
  | Some (stack', (current_time, p, current_config)) =>
      if decide (current_config.1.1 = ∅) then
        if below current_time (min_total_time st) && bool_decide (current_time ≤ time_limit)
        then Ok (inr {| stack := stack'; visited_states := visited_states st;
                        min_total_time := Some current_time; best_path := Some p |})
        else Ok (inr {| stack := stack'; visited_states := visited_states st;
                        min_total_time := min_total_time st; best_path := best_path st |})
      else if negb (below current_time (min_total_time st))
              || bool_decide (current_time > time_limit)
      then Ok (inr {| stack := stack'; visited_states := visited_states st;
                      min_total_time := min_total_time st; best_path := best_path st |})
      else if stale (visited_states st) current_config current_time
      then Ok (inr {| stack := stack'; visited_states := visited_states st;
                      min_total_time := min_total_time st; best_path := best_path st |})
      else
        '(visited', possible_moves) ←
          explore crossing_times time_limit append_move
            current_time p current_config (visited_states st, []);
        Ok (inr {| stack := stack' ++ sorted_desc (λ x, x.1.1) possible_moves;
                   visited_states := visited';
                   min_total_time := min_total_time st; best_path := best_path st |})
  end.
Definition solve_bridge_problem_dfs (fuel : nat) : run result :=
  while_loop dfs_iteration fuel dfs_init.
End dfs.
(** ** [print_bridge_solution] *)
(** The arrows ["-->"] and ["<--"]. *)
Inductive direction := Forward | Backward.

(** The lines the reporter prints, by their format string. *)
Inductive line :=
  | Banner (algorithm_name : string)
      (** ["\n--- {algorithm_name} Solution ---"] *)
  | Found (total_time : option Z)
      (** ["Solution found! Total time: {total_time} minutes."] *)
  | Rule
      (** ["-" * 30] *)
  | Step (number : nat) (moved : list string) (d : direction) (trip_time : Z)
      (** ["Step {i+1}: {', '.join(sorted(list(moved_people)))} cross
          {direction} ({trip_time} min)"] *)
  | Elapsed (time_at_step : Z)
      (** ["  > Time elapsed: {time_at_step} min"] *)
  | StartSide (people : list string)
      (** ["  > Start side: {sorted(list(end_config[0]))}"] *)
  | EndSide (people : list string)
      (** ["  > End side:   {sorted(list(end_config[1]))}"] *)
  | NoSolution
      (** ["No solution could be found within the time limit."] *).

(** [sorted(list(s))] for a set of names. *)
Definition sorted_names (s : gset string) : list string :=
  merge_sort (λ a b, Is_true (String.leb a b)) (elements s).

(** [m[k]] *)
Definition getitem (m : gmap config Z) (k : config) : exc Z :=
  match m !! k with
  | Some v => Ok v
  | None => Raise KeyError
  end.

(** [l[i]] *)
Definition index (l : path) (i : nat) : exc config :=
  match l !! i with
  | Some x => Ok x
  | None => Raise IndexError
  end.

(** Lines 180-185 of the reporter: the people who crossed between two
    consecutive configurations, read off the start side. *)
Definition moved_people (start_config end_config : config) : gset string :=
  match start_config.2 with
  | AtStart => start_config.1.1 ∖ end_config.1.1
  | AtEnd => end_config.1.1 ∖ start_config.1.1
  end.

(** The body of the loop, lines 171-191: the five lines of step [i]. *)
Definition report_step (p : path) (visited_times_map : gmap config Z) (i : nat)
    : exc (list line) :=
  start_config ← index p i;
  end_config ← index p (i + 1);
  time_at_step ← getitem visited_times_map end_config;
  before ← getitem visited_times_map start_config;
  let trip_time := time_at_step - before in
  let d := match start_config.2 with
           | AtStart => Forward
           | AtEnd => Backward
           end in
  Ok [Step (i + 1) (sorted_names (moved_people start_config end_config)) d trip_time;
      Elapsed time_at_step;
      StartSide (sorted_names end_config.1.1);
      EndSide (sorted_names end_config.1.2);
      Rule].

(** [for i in ...: print(...)]: what has been printed, and the exception that
    stopped the loop, if any. *)
Fixpoint print_each (body : nat → exc (list line)) (indices : list nat)
    : list line * option exn :=
  match indices with
  | [] => ([], None)
  | i :: indices' =>
      match body i with
      | Raise e => ([], Some e)
      | Ok ls => let '(out, e) := print_each body indices' in (ls ++ out, e)
      end
  end.

Definition print_bridge_solution (total_time : option Z) (p : option path)
    (times : gmap string Z) (visited_times_map : gmap config Z)
    (algorithm_name : string) : list line * option exn :=
  match p with
  | Some (c :: rest) =>
      let '(out, e) :=
        print_each (report_step (c :: rest) visited_times_map)
          (seq 0 (length (c :: rest) - 1)) in
      (Banner algorithm_name :: Found total_time :: Rule :: out, e)
  | _ => ([Banner algorithm_name; NoSolution], None)
  end.

(** ** The main block *)
(** Lines 197-203. *)
Definition CROSSING_TIMES : gmap string Z :=
  {[ "Amogh"%string := 5; "Ameya"%string := 10;
     "Grandmother"%string := 20; "Grandfather"%string := 25 ]}.

Definition TIME_LIMIT : Z := 60.

(** Lines 205-214: what the script prints, and how it ends. *)
Definition main {order : IterOrder} {hq : Heapq} (fuel : nat) : list line * run unit :=
  match solve_bridge_problem_bfs CROSSING_TIMES TIME_LIMIT fuel with
  | Raises e => ([], Raises e)
  | OutOfFuel => ([], OutOfFuel)
  | Returns (total_time_bfs, solution_path_bfs, visited_times_bfs_map) =>
      match print_bridge_solution total_time_bfs solution_path_bfs CROSSING_TIMES
              visited_times_bfs_map "BFS (Dijkstra's)" with
      | (out_bfs, Some e) => (out_bfs, Raises e)
      | (out_bfs, None) =>
          match solve_bridge_problem_dfs CROSSING_TIMES TIME_LIMIT fuel with
          | Raises e => (out_bfs, Raises e)
          | OutOfFuel => (out_bfs, OutOfFuel)
          | Returns (total_time_dfs, solution_path_dfs, visited_times_dfs_map) =>
              match print_bridge_solution total_time_dfs solution_path_dfs
                      CROSSING_TIMES visited_times_dfs_map
                      "DFS (with Optimization)" with
              | (out_dfs, Some e) => (out_bfs ++ out_dfs, Raises e)
              | (out_dfs, None) => (out_bfs ++ out_dfs, Returns tt)
              end
          end
      end
  end.

(** ** One concrete runtime *)
(** Iterate a set in the order of [elements]. *)
Definition elements_order : IterOrder :=
  {| iter := λ _ s, elements s; iter_perm := λ _ s, reflexivity (elements s) |}.

(** A heap kept as a list in insertion order; [heappop] takes the leftmost
    entry of least time. *)
Fixpoint pop_min (l : list (Z * path)) : option ((Z * path) * list (Z * path)) :=
  match l with
  | [] => None
  | e :: l' =>
      match pop_min l' with
      | None => Some (e, [])
      | Some (m, r) =>
          if bool_decide (e.1 ≤ m.1) then Some (e, l') else Some (m, e :: r)
      end
  end.

Definition list_heapq : Heapq.
Proof.
  refine {| heap := list (Z * path);
            heap_items := λ q, q;
            heap_new := λ e, [e];
            heappush := λ q e, q ++ [e];
            heappop := pop_min |}.
  - done.
  - intros q e. symmetry. apply Permutation_cons_append.
  - intros [|e l]; [done|]. simpl.
    destruct (pop_min l) as [[m r]|]; [case_bool_decide|]; done.
  - intros l. induction l as [|x l IH]; intros e r; [done|]. simpl.
    destruct (pop_min l) as [[m r']|] eqn:Hl.
    + destruct (IH _ _ eq_refl) as [Hp Hall].
      case_bool_decide; intros [= <- <-].
      * split; [done|]. constructor; [lia|].
        eapply Forall_impl; [exact Hall|]. simpl. intros; lia.
      * split; [by rewrite Hp; apply Permutation_swap|].
        constructor; [lia|done].
    + destruct l as [|y l]; [|simpl in Hl; destruct (pop_min l) as [[? ?]|];
        [case_bool_decide|]; done].
      intros [= <- <-]. split; [done|]. constructor; [lia|constructor].
Defined.
(** ** Another runtime *)
(** Iterate a set in the reverse of the order of [elements]. *)
Definition reversed_order : IterOrder :=
  {| iter := λ _ s, reverse (elements s);
     iter_perm := λ _ s, reverse_Permutation (elements s) |}.

(** * Specification: moves and journeys *)
Section spec.
Variable crossing_times : gmap string Z.
(** [w] is the duration of the slowest member of [group]. *)
Definition slowest (group : gset string) (w : Z) : Prop :=
  (∃ x, x ∈ group ∧ crossing_times !! x = Some w) ∧
  ∀ x, x ∈ group → ∃ t, crossing_times !! x = Some t ∧ t ≤ w.
(** A move: one or two people, all on the side of the umbrella, cross
    together at the pace of the slowest; they and the umbrella change
    side. *)
Inductive move : config → Z → config → Prop :=
  | move_across (s e g : gset string) (w : Z) :
      g ⊆ s → (size g = 1 ∨ size g = 2)%nat → slowest g w →
      move (s, e, AtStart) w (s ∖ g, e ∪ g, AtEnd)
  | move_back (s e g : gset string) (w : Z) :
      g ⊆ e → (size g = 1 ∨ size g = 2)%nat → slowest g w →
      move (s, e, AtEnd) w (s ∪ g, e ∖ g, AtStart).
(** [journey p c t]: [p] is a path from the initial configuration to [c],
    every step a move, of cumulative time [t]. *)
Inductive journey : path → config → Z → Prop :=
  | journey_start :
      journey [initial_state crossing_times] (initial_state crossing_times) 0
  | journey_step p c t w c' :
      journey p c t → move c w c' → journey (p ++ [c']) c' (t + w).
(** The two sides partition the people. *)
Definition partitioned (c : config) : Prop :=
  c.1.1 ## c.1.2 ∧ c.1.1 ∪ c.1.2 = dom crossing_times.
(** Everybody has crossed. *)
Definition complete (c : config) : Prop := c.1.1 = ∅.
(** A complete path within [time_limit], of cumulative time [t]. *)
Definition solution (time_limit : Z) (p : path) (t : Z) : Prop :=
  ∃ c, journey p c t ∧ complete c ∧ t ≤ time_limit.
Definition durations_nonneg : Prop :=
  ∀ x t, crossing_times !! x = Some t → 0 ≤ t.
End spec.

(** ** Checking a path step by step *)
Section check_defs.
Variable crossing_times : gmap string Z.
(** One step of a path is a move: one or two people, all on the side of
    the umbrella, change side together with it. *)
Definition valid_step (a b : config) : Prop :=
  ∃ g : gset string, (size g = 1 ∨ size g = 2)%nat ∧
    match a.2 with
    | AtStart => g ⊆ a.1.1 ∧ b = (a.1.1 ∖ g, a.1.2 ∪ g, AtEnd)
    | AtEnd => g ⊆ a.1.2 ∧ b = (a.1.1 ∪ g, a.1.2 ∖ g, AtStart)
    end.

(** The sum of the costs of the steps of [c :: rest], if every step is a
    move. *)
Fixpoint route_time (c : config) (rest : path) : option Z :=
  match rest with
  | [] => Some 0
  | c' :: rest' =>
      let g := moved_people c c' in
      if bool_decide ((size g = 1 ∨ size g = 2)%nat ∧ g ⊆ move_from c
                      ∧ c' = new_config c g)
      then match trip_time crossing_times g with
           | Ok w => Z.add w <$> route_time c' rest'
           | Raise _ => None
           end
      else None
  end.

(** A path is checked from the initial configuration on. *)
Definition check_path (p : path) : option Z :=
  match p with
  | [] => None
  | c :: rest =>
      if bool_decide (c = initial_state crossing_times) then route_time c rest
      else None
  end.

End check_defs.
(** A boolean check that a path is a solution of a given time. *)
Definition check_solution (crossing_times : gmap string Z) (time_limit : Z)
    (p : path) (t : Z) : bool :=
  bool_decide (check_path crossing_times p = Some t)
  && match last p with
     | Some c => bool_decide (c.1.1 = ∅)
     | None => false
     end
  && bool_decide (t ≤ time_limit).

(** ** What the solvers are expected to return *)
Section expected_defs.
Variable crossing_times : gmap string Z.
Variable time_limit : Z.
(** The time returned is that of the returned path, which is a solution, and
    no solution is faster; [None] is returned only when there is no
    solution. *)
Definition optimal_result (r : result) : Prop :=
  match r.1.1, r.1.2 with
  | Some best_time, Some best_path =>
      solution crossing_times time_limit best_path best_time
      ∧ ∀ p T, solution crossing_times time_limit p T → best_time ≤ T
  | None, None => ∀ p T, ¬ solution crossing_times time_limit p T
  | _, _ => False
  end.

(** Every recorded time is the time of some path to that configuration,
    and the initial configuration is recorded at time 0. *)
Definition visited_ok (vis : gmap config Z) : Prop :=
  vis !! initial_state crossing_times = Some 0
  ∧ ∀ c u, vis !! c = Some u → ∃ p, journey crossing_times p c u.

End expected_defs.
(** [u] is the least time in which [c] can be reached. *)
Definition shortest_time (crossing_times : gmap string Z) (c : config) (u : Z) : Prop :=
  (∃ p, journey crossing_times p c u)
  ∧ ∀ p T, journey crossing_times p c T → u ≤ T.

(** The states a loop goes through. *)
Inductive reachable {S R : Type} (body : S → exc (R + S)) (s0 : S) : S → Prop :=
  | reachable_start : reachable body s0 s0
  | reachable_round s s' :
      reachable body s0 s → body s = Ok (inr s') → reachable body s0 s'.

(** The path of a run that returned one. *)
Definition returned_path (r : run result) : option path :=
  match r with
  | Returns (_, Some p, _) => Some p
  | _ => None
  end.

(** The step of the design document: the trip lasts
    [arrival_time_map[next] - arrival_time_map[prev]]; who moved and in which
    direction is read off the start sides and the umbrella of [prev]. *)
Definition rendered_step (arrival_time_map : gmap config Z) (i : nat)
    (prev next : config) : list line :=
  [Step (i + 1)
     (sorted_names (match prev.2 with
                    | AtStart => prev.1.1 ∖ next.1.1
                    | AtEnd => next.1.1 ∖ prev.1.1
                    end))
     (match prev.2 with AtStart => Forward | AtEnd => Backward end)
     (default 0 (arrival_time_map !! next) - default 0 (arrival_time_map !! prev));
   Elapsed (default 0 (arrival_time_map !! next));
   StartSide (sorted_names next.1.1);
   EndSide (sorted_names next.1.2);
   Rule].

(** * The scenarios of the design document *)
(** [{A: 5, B: 10, G: 20, H: 25}] *)
Definition four_people : gmap string Z :=
  {[ "A"%string := 5; "B"%string := 10; "G"%string := 20; "H"%string := 25 ]}.

(** [{A: 1, B: 2}] *)
Definition two_people : gmap string Z :=
  {[ "A"%string := 1; "B"%string := 2 ]}.

(** The strategy of the design document for four people: A and B cross, A
    returns, G and H cross, B returns, A and B cross. *)
Definition canonical_strategy : path :=
  [({[ "A"; "B"; "G"; "H" ]}, ∅, AtStart);
   ({[ "G"; "H" ]}, {[ "A"; "B" ]}, AtEnd);
   ({[ "A"; "G"; "H" ]}, {[ "B" ]}, AtStart);
   ({[ "A" ]}, {[ "B"; "G"; "H" ]}, AtEnd);
   ({[ "A"; "B" ]}, {[ "G"; "H" ]}, AtStart);
   (∅, {[ "A"; "B"; "G"; "H" ]}, AtEnd)]%string.

(** * Invariants and measures of the two searches *)
(** ** The finite space of configurations, and a potential on visited maps *)
Fixpoint subsets (l : list string) : list (gset string) :=
  match l with
  | [] => [∅]
  | x :: l' => subsets l' ++ ((λ s, {[x]} ∪ s) <$> subsets l')
  end.

(** Every partition of the people into two sides, with the umbrella on
    either side. *)
Definition all_configs (crossing_times : gmap string Z) : list config :=
  remove_dups
    (s ← subsets (elements (dom crossing_times));
     [(s, dom crossing_times ∖ s, AtStart); (s, dom crossing_times ∖ s, AtEnd)]).

(** The potential of a configuration: what remains of the times at which it
    may still be recorded, [cap] being the largest time ever recorded. *)
Definition pot (cap : Z) (o : option Z) : Z :=
  match o with
  | None => cap + 2
  | Some u => u + 1
  end.

Definition potential (cap : Z) (universe : list config) (v : gmap config Z) : Z :=
  foldr (λ c acc, pot cap (v !! c) + acc) 0 universe.

(** Emitting a list of children one after the other. *)
Definition emit_all {C : Type} (emit : C → Z → path → config → C) (a : C)
    (kids : list (Z * path * config)) : C :=
  foldl (λ a k, emit a k.1.1 k.1.2 k.2) a kids.

(** ** What one exploration does *)
Section explore_defs.
Variable crossing_times : gmap string Z.
Variable time_limit : Z.
Variables (t : Z) (p : path) (c : config) (v : gmap config Z) (cap : Z).
(** An accepted child: a move away from [c], within the limit, and recorded
    at that time or better. *)
Definition kid_ok (v' : gmap config Z) (k : Z * path * config) : Prop :=
  ∃ w, k = (t + w, p ++ [k.2], k.2) ∧ move crossing_times c w k.2
       ∧ t + w ≤ time_limit ∧ ∃ u, v' !! k.2 = Some u ∧ u ≤ t + w.

Definition within (v' : gmap config Z) : Prop :=
  ∀ x u, v' !! x = Some u → partitioned crossing_times x ∧ 0 ≤ u ≤ cap.

Definition explored (done : list (list string))
    (s : gmap config Z * list (Z * path * config)) : Prop :=
  Forall (kid_ok s.1) s.2
  ∧ (∀ x u, s.1 !! x = Some u → v !! x = Some u ∨ (u, p ++ [x], x) ∈ s.2)
  ∧ (∀ x u, v !! x = Some u → ∃ u', s.1 !! x = Some u' ∧ u' ≤ u)
  ∧ (∀ tuple w, tuple ∈ done →
       trip_time crossing_times (list_to_set tuple) = Ok w → t + w ≤ time_limit →
       ∃ u, s.1 !! new_config c (list_to_set tuple) = Some u ∧ u ≤ t + w)
  ∧ (durations_nonneg crossing_times → 0 ≤ t → time_limit ≤ cap → within v →
       within s.1
       ∧ potential cap (all_configs crossing_times) s.1 + Z.of_nat (length s.2)
         ≤ potential cap (all_configs crossing_times) v).

End explore_defs.
(** ** The invariant of both searches *)
(** Both loops keep a map [v] of recorded times, a collection of pending
    items [(time, path, configuration)] (the heap, the stack) and, for the
    depth-first search, the best complete time found so far ([None] for the
    priority-queue search, which returns at once). *)
Section search_defs.
Variable crossing_times : gmap string Z.
Variable time_limit : Z.
(** The largest time that is ever recorded. *)
Definition cap : Z := Z.max 0 time_limit.

(** A complete time at most [u] has been found already. *)
Definition bounded (b : option Z) (u : Z) : Prop := ∃ bt, b = Some bt ∧ bt ≤ u.

(** [c] has been expanded at time [u]: every move away from it that stays
    within the limit leads to a configuration recorded at that time or
    better. *)
Definition closed (v : gmap config Z) (c : config) (u : Z) : Prop :=
  ¬ complete c ∧
  ∀ w c', move crossing_times c w c' → u + w ≤ time_limit →
          ∃ u', v !! c' = Some u' ∧ u' ≤ u + w.

Definition search_inv (v : gmap config Z) (items : list (Z * path * config))
    (b : option Z) : Prop :=
  (∀ t p c, (t, p, c) ∈ items →
     journey crossing_times p c t ∧ t ≤ cap ∧ ∃ u, v !! c = Some u ∧ u ≤ t)
  ∧ (∀ c u, v !! c = Some u →
       (∃ p, journey crossing_times p c u)
       ∧ partitioned crossing_times c ∧ 0 ≤ u ≤ cap
       ∧ ((∃ p, (u, p, c) ∈ items) ∨ closed v c u ∨ bounded b u ∨ time_limit < u))
  ∧ (∃ u, v !! initial_state crossing_times = Some u ∧ u ≤ 0).

(** The number of rounds left: every round removes an item, and every item
    added lowers the potential of the map. *)
Definition search_measure (v : gmap config Z) (items : list (Z * path * config)) : nat :=
  (Z.to_nat (potential cap (all_configs crossing_times) v) + length items)%nat.

(** Fuel that suffices for either loop. *)
Definition search_fuel : nat :=
  (Z.to_nat ((cap + 2) * Z.of_nat (length (all_configs crossing_times))) + 2)%nat.

End search_defs.
(** ** The invariants of the two loops *)
Section loops_defs.
Context {hq : Heapq}.
Variable crossing_times : gmap string Z.
Variable time_limit : Z.
Definition dfs_inv (st : dfs_state) : Prop :=
  search_inv crossing_times time_limit (visited_states st) (stack st) (min_total_time st)
  ∧ match min_total_time st, best_path st with
    | Some bt, Some bp => solution crossing_times time_limit bp bt
    | None, None => True
    | _, _ => False
    end.

Definition dfs_measure (st : dfs_state) : nat :=
  search_measure crossing_times time_limit (visited_states st) (stack st).

(** A heap entry [(time, path)] seen as an item: its configuration is the
    last of the path, [path[-1]]. *)
Definition entry_item (e : Z * path) : Z * path * config :=
  (e.1, e.2, default (∅, ∅, AtStart) (last e.2)).

Definition bfs_items (q : heap) : list (Z * path * config) :=
  entry_item <$> heap_items q.

Definition bfs_inv (st : bfs_state) : Prop :=
  search_inv crossing_times time_limit (visited_times st) (bfs_items (pq st)) None.

Definition bfs_measure (st : bfs_state) : nat :=
  search_measure crossing_times time_limit (visited_times st) (bfs_items (pq st)).

(** A pending item carries a path to its configuration, of its time; and
    when the limit is not negative, that time is within the limit. *)
Definition item_ok (k : Z * path * config) : Prop :=
  journey crossing_times k.1.2 k.2 k.1.1 ∧ (0 ≤ time_limit → k.1.1 ≤ time_limit).

(** What is returned with a path: a solution of the time returned. *)
Definition sound_result (r : result) : Prop :=
  match r.1.1, r.1.2 with
  | Some best_time, Some best_path =>
      solution crossing_times time_limit best_path best_time
  | None, None => True
  | _, _ => False
  end.

Definition dfs_paths_inv (st : dfs_state) : Prop :=
  Forall item_ok (stack st)
  ∧ sound_result (min_total_time st, best_path st, visited_states st).

Definition bfs_paths_inv (st : bfs_state) : Prop :=
  Forall item_ok (bfs_items (pq st)).

End loops_defs.
(** The time that the depth-first solver returns when sets are read in the
    order of [elements]. *)
Definition reference_time (crossing_times : gmap string Z) (time_limit : Z)
    : option (option Z) :=
  match @solve_bridge_problem_dfs elements_order crossing_times time_limit
          (search_fuel crossing_times time_limit) with
  | Returns r => Some r.1.1
  | _ => None
  end.

(** ** What the map records of the pending paths *)
Section recorded_defs.
Variable crossing_times : gmap string Z.
Variable time_limit : Z.
(** Every configuration of [p] is recorded, at a time that is at most the
    cumulative time of [p] up to it. *)
Definition path_recorded (v : gmap config Z) (p : path) : Prop :=
  ∀ i c, p !! i = Some c →
    ∃ u t, v !! c = Some u
           ∧ check_path crossing_times (take (Datatypes.S i) p) = Some t ∧ u ≤ t.

(** Every recorded time is the time of a path to that configuration, and is
    within the limit, the time 0 of the initial configuration apart. *)
Definition map_recorded (v : gmap config Z) : Prop :=
  ∀ c u, v !! c = Some u →
    (∃ p, journey crossing_times p c u)
    ∧ (u ≤ time_limit ∨ (c = initial_state crossing_times ∧ u = 0)).

(** The map only improves: no key is lost, no time goes up. *)
Definition improved (v v' : gmap config Z) : Prop :=
  ∀ c u, v !! c = Some u → ∃ u', v' !! c = Some u' ∧ u' ≤ u.

Definition item_recorded (v : gmap config Z) (k : Z * path * config) : Prop :=
  path_recorded v k.1.2.

Definition recorded_inv (v : gmap config Z) (items : list (Z * path * config))
    (best : option path) : Prop :=
  Forall (item_recorded v) items
  ∧ (∀ p, best = Some p → path_recorded v p)
  ∧ map_recorded v.

End recorded_defs.
Section recorded_loops_defs.
Context {hq : Heapq}.
Variable crossing_times : gmap string Z.
Variable time_limit : Z.
Definition dfs_recorded_inv (st : dfs_state) : Prop :=
  dfs_paths_inv crossing_times time_limit st
  ∧ recorded_inv crossing_times time_limit (visited_states st) (stack st) (best_path st).

Definition bfs_recorded_inv (st : bfs_state) : Prop :=
  bfs_paths_inv crossing_times time_limit st
  ∧ recorded_inv crossing_times time_limit (visited_times st) (bfs_items (pq st)) None.

End recorded_loops_defs.
(** What a returned map records, whatever the durations: it has grown from
    [{initial_state: 0}] by improvements only, its times are those of real
    paths within the limit, and it records the returned path. *)
Definition result_recorded (crossing_times : gmap string Z) (time_limit : Z)
    (r : result) : Prop :=
  map_recorded crossing_times time_limit r.2
  ∧ improved {[ initial_state crossing_times := 0 ]} r.2
  ∧ ∀ p, r.1.2 = Some p → path_recorded crossing_times r.2 p.

(** * Proofs *)

(** ** Basic facts *)

Lemma bind_Ok {A B} (m : exc A) (k : A → exc B) (b : B) :
  (m ≫= k) = Ok b ↔ ∃ a, m = Ok a ∧ k a = Ok b.
Proof.
  destruct m as [a|e]; simpl; split.
  - intros Hk. by exists a.
  - by intros (a' & [= <-] & Hk).
  - done.
  - by intros (a & ? & _).
Qed.

(** The rule of the [for] loop: an invariant indexed by the elements already
    processed. *)
Lemma for_each_ind {A S} (body : A → S → exc S) (I : list A → S → Prop) l s0 :
  I [] s0 →
  (∀ done x s, I done s → x ∈ l → ∃ s', body x s = Ok s' ∧ I (done ++ [x]) s') →
  ∃ s', for_each body l s0 = Ok s' ∧ I l s'.
Proof.
  intros H0 Hstep.
  cut (∀ todo done s, done ++ todo = l → I done s →
         ∃ s', for_each body todo s = Ok s' ∧ I l s').
  { intros Hcut. by apply (Hcut l [] s0). }
  induction todo as [|x todo IH]; intros done s Hl Hs; simpl.
  - rewrite app_nil_r in Hl. subst. eauto.
  - destruct (Hstep done x s Hs) as (s' & -> & Hs').
    { subst l. set_solver. }
    simpl. apply (IH (done ++ [x])); [|done].
    by rewrite <- Hl, <- app_assoc.
Qed.

(** The rule of the [while] loop on fuel: an invariant and a measure that
    every round decreases give a result within [measure + 1] rounds. *)
Lemma while_loop_total {S R} (body : S → exc (R + S)) (I : S → Prop)
    (measure : S → nat) (Q : R → Prop) :
  (∀ s, I s →
     match body s with
     | Raise _ => False
     | Ok (inl r) => Q r
     | Ok (inr s') => I s' ∧ (measure s' < measure s)%nat
     end) →
  ∀ fuel s, I s → (measure s < fuel)%nat →
    ∃ r, while_loop body fuel s = Returns r ∧ Q r.
Proof.
  intros Hbody. induction fuel as [|fuel IH]; intros s Hs Hm; [lia|].
  simpl. specialize (Hbody s Hs).
  destruct (body s) as [[r|s']|e]; [eauto|..|done].
  destruct Hbody as [Hs' Hlt]. apply IH; [done|lia].
Qed.

(** A result does not depend on the fuel left over. *)
Lemma while_loop_mono {S R} (body : S → exc (R + S)) fuel fuel' s r :
  while_loop body fuel s = Returns r → (fuel ≤ fuel')%nat →
  while_loop body fuel' s = Returns r.
Proof.
  revert fuel' s. induction fuel as [|fuel IH]; intros fuel' s; [done|].
  destruct fuel' as [|fuel']; [lia|]. simpl.
  destruct (body s) as [[?|s']|?]; try done.
  intros Hr Hle. apply IH; [done|lia].
Qed.

Lemma pop_last_None {A} (l : list A) : pop_last l = None ↔ l = [].
Proof.
  unfold pop_last. destruct (reverse l) as [|x r] eqn:Hr; split; try done.
  - intros _. apply (f_equal reverse) in Hr. by rewrite reverse_involutive in Hr.
  - intros ->. done.
Qed.

Lemma pop_last_Some {A} (l l' : list A) x :
  pop_last l = Some (l', x) ↔ l = l' ++ [x].
Proof.
  unfold pop_last. destruct (reverse l) as [|y r] eqn:Hr.
  - apply (f_equal reverse) in Hr. rewrite reverse_involutive in Hr. subst l.
    split; [done|]. intros H. by destruct l'.
  - apply (f_equal reverse) in Hr. rewrite reverse_involutive, reverse_cons in Hr.
    subst l. split.
    + by intros [= <- <-].
    + intros H. apply app_inj_tail in H as [-> ->]. done.
Qed.

Lemma insert_desc_perm {A} (key : A → Z) x l : insert_desc key x l ≡ₚ x :: l.
Proof.
  induction l as [|y l IH]; simpl; [done|].
  case_bool_decide; [|done]. rewrite IH. apply Permutation_swap.
Qed.

Lemma sorted_desc_perm {A} (key : A → Z) (l : list A) : sorted_desc key l ≡ₚ l.
Proof.
  induction l as [|x l IH]; simpl; [done|].
  unfold sorted_desc in IH. by rewrite insert_desc_perm, IH.
Qed.

(** ** [combinations] enumerates the sublists of a given length *)

Lemma combinations_sublist {A} (r : nat) (l tuple : list A) :
  tuple ∈ combinations r l → tuple `sublist_of` l ∧ length tuple = r.
Proof.
  revert r tuple. induction l as [|x l IH]; intros [|r] tuple; simpl.
  - intros ->%list_elem_of_singleton. split; [constructor|done].
  - by intros ?%elem_of_nil.
  - intros ->%list_elem_of_singleton. split; [apply sublist_nil_l|done].
  - rewrite elem_of_app, list_elem_of_fmap.
    intros [(t & -> & Ht)|Ht].
    + destruct (IH _ _ Ht) as [? ?]. split; [by constructor|simpl; lia].
    + destruct (IH _ _ Ht) as [? ?]. split; [by constructor|done].
Qed.

Lemma sublist_combinations {A} (l tuple : list A) :
  tuple `sublist_of` l → tuple ∈ combinations (length tuple) l.
Proof.
  induction 1 as [|x t l _ IH|x t l _ IH]; simpl.
  - apply list_elem_of_singleton. done.
  - apply elem_of_app. left. by apply list_elem_of_fmap_2.
  - destruct t as [|y t]; simpl in *.
    + apply list_elem_of_singleton. done.
    + apply elem_of_app. by right.
Qed.

(** A set of one or two elements of [s] is the set of some tuple that
    [combinations] yields, whatever the order in which [s] is read. *)
Lemma subset_tuple (s g : gset string) (l : list string) :
  l ≡ₚ elements s → g ⊆ s →
  ∃ tuple, tuple `sublist_of` l ∧ list_to_set tuple = g ∧ length tuple = size g.
Proof.
  intros Hl Hg.
  assert (NoDup l) as Hnd by (rewrite Hl; apply NoDup_elements).
  exists (filter (λ x, x ∈ g) l).
  assert (list_to_set (filter (λ x, x ∈ g) l) = g) as Heq.
  { apply set_eq. intros x.
    rewrite elem_of_list_to_set, list_elem_of_filter, Hl, elem_of_elements.
    split; [by intros [? _]|]. intros Hx. split; [done|by apply Hg]. }
  split; [apply sublist_filter|]. split; [done|].
  rewrite <- (size_list_to_set (C := gset string)) by (by apply NoDup_filter).
  by rewrite Heq.
Qed.

Lemma tuple_subset (s : gset string) (l tuple : list string) :
  l ≡ₚ elements s → tuple `sublist_of` l →
  list_to_set tuple ⊆ s ∧ size (list_to_set (C := gset string) tuple) = length tuple.
Proof.
  intros Hl Hsub.
  assert (NoDup l) as Hnd by (rewrite Hl; apply NoDup_elements).
  split.
  - intros x. rewrite elem_of_list_to_set. intros Hx.
    apply elem_of_elements. rewrite <- Hl. by eapply elem_of_sublist.
  - apply size_list_to_set. by eapply sublist_NoDup.
Qed.

Section groups_facts.
Context {order : IterOrder}.
Lemma iter_length p (s : gset string) : length (iter p s) = size s.
Proof. unfold size, set_size. simpl. by rewrite iter_perm. Qed.

(** The tuples of the two nested loops are exactly the groups a move may
    take: one or two people from the side of the umbrella. *)
Lemma elem_of_groups p c tuple :
  tuple ∈ groups p c ↔
  tuple `sublist_of` iter p (move_from c) ∧ (length tuple = 1 ∨ length tuple = 2)%nat.
Proof.
  unfold groups. simpl. rewrite app_nil_r, elem_of_app. split.
  - intros [H|H]; case_bool_decide; try (by apply elem_of_nil in H);
      apply combinations_sublist in H as [? ?]; eauto.
  - intros [Hsub Hlen].
    pose proof (sublist_length _ _ Hsub) as Hle. rewrite iter_length in Hle.
    apply sublist_combinations in Hsub.
    destruct Hlen as [Hlen|Hlen]; rewrite Hlen in Hsub; [left|right];
      (rewrite bool_decide_false by lia); done.
Qed.

Lemma groups_sound p c tuple :
  tuple ∈ groups p c →
  list_to_set tuple ⊆ move_from c ∧
  (size (list_to_set (C := gset string) tuple) = 1
   ∨ size (list_to_set (C := gset string) tuple) = 2)%nat.
Proof.
  rewrite elem_of_groups. intros [Hsub Hlen].
  destruct (tuple_subset (move_from c) _ _ (iter_perm p _) Hsub) as [? ->].
  done.
Qed.

Lemma groups_complete p c (g : gset string) :
  g ⊆ move_from c → (size g = 1 ∨ size g = 2)%nat →
  ∃ tuple, tuple ∈ groups p c ∧ list_to_set tuple = g.
Proof.
  intros Hg Hsize.
  destruct (subset_tuple (move_from c) g _ (iter_perm p _) Hg)
    as (tuple & Hsub & Heq & Hlen).
  exists tuple. split; [|done]. apply elem_of_groups. split; [done|lia].
Qed.

End groups_facts.

(** ** [trip_time] is the duration of the slowest of the group *)

Lemma foldl_max_spec (t : Z) (ts : list Z) :
  foldl Z.max t ts ∈ t :: ts ∧ Forall (λ x, x ≤ foldl Z.max t ts) (t :: ts).
Proof.
  revert t. induction ts as [|u ts IH]; intros t; simpl.
  - split; [left|]. constructor; [lia|constructor].
  - destruct (IH (Z.max t u)) as [Hin Hall].
    apply Forall_cons in Hall as [Hm Hall]. split.
    + apply elem_of_cons in Hin as [Hin|Hin]; [|by do 2 right].
      rewrite Hin. destruct (Z.max_spec t u) as [[_ ->]|[_ ->]]; [right|]; left.
    + constructor; [lia|]. constructor; [lia|done].
Qed.

Section trip_time_facts.
Variable crossing_times : gmap string Z.
Let duration (x : string) : exc Z :=
  match crossing_times !! x with
  | Some t => Ok t
  | None => Raise KeyError
  end.
Lemma map_exc_durations_Ok l ts :
  map_exc duration l = Ok ts → Forall2 (λ x t, crossing_times !! x = Some t) l ts.
Proof.
  revert ts. induction l as [|x l IH]; intros ts; simpl.
  - intros [= <-]. constructor.
  - rewrite bind_Ok. intros (t & Ht & Hk).
    apply bind_Ok in Hk as (ts' & Hts' & [= <-]).
    constructor; [|by apply IH].
    unfold duration in Ht. by destruct (crossing_times !! x); simplify_eq.
Qed.

Lemma map_exc_durations_total l :
  Forall (λ x, is_Some (crossing_times !! x)) l → ∃ ts, map_exc duration l = Ok ts.
Proof.
  induction 1 as [|x l [t Ht] _ [ts IH]]; simpl; [by eexists|].
  assert (duration x = Ok t) as -> by (unfold duration; by rewrite Ht).
  simpl. rewrite IH. simpl. by eexists.
Qed.

Lemma trip_time_Ok g w : trip_time crossing_times g = Ok w → slowest crossing_times g w.
Proof.
  unfold trip_time. rewrite bind_Ok. intros (ts & Hts & Hw).
  apply map_exc_durations_Ok in Hts.
  destruct ts as [|t ts]; [done|]. injection Hw as <-.
  destruct (foldl_max_spec t ts) as [Hin Hall]. split.
  - apply list_elem_of_lookup in Hin as [i Hi].
    destruct (Forall2_lookup_r _ _ _ _ _ Hts Hi) as (x & Hx & Hxt).
    exists x. split; [|done]. apply elem_of_elements.
    by eapply list_elem_of_lookup_2.
  - intros x Hx. apply elem_of_elements, list_elem_of_lookup in Hx as [i Hi].
    destruct (Forall2_lookup_l _ _ _ _ _ Hts Hi) as (u & Hu & Hxu).
    exists u. split; [done|].
    rewrite Forall_forall in Hall. apply Hall. by eapply list_elem_of_lookup_2.
Qed.

Lemma trip_time_total g :
  g ≠ ∅ → g ⊆ dom crossing_times → ∃ w, trip_time crossing_times g = Ok w.
Proof.
  intros Hne Hdom. unfold trip_time.
  destruct (map_exc_durations_total (elements g)) as [ts Hts].
  { apply Forall_forall. intros x Hx%elem_of_elements.
    by apply elem_of_dom, Hdom. }
  fold duration. rewrite Hts. simpl.
  destruct ts as [|t ts]; [|by eexists].
  apply map_exc_durations_Ok, Forall2_nil_inv_r in Hts.
  by apply elements_empty_inv, leibniz_equiv in Hts.
Qed.

Lemma slowest_fun g w w' :
  slowest crossing_times g w → slowest crossing_times g w' → w = w'.
Proof.
  intros [(x & Hx & Hxw) Hle] [(x' & Hx' & Hxw') Hle'].
  destruct (Hle x' Hx') as (t & Ht & ?).
  destruct (Hle' x Hx) as (t' & Ht' & ?).
  simplify_eq. lia.
Qed.

Lemma slowest_nonneg g w :
  durations_nonneg crossing_times → slowest crossing_times g w → 0 ≤ w.
Proof. intros Hnn [(x & _ & Hx) _]. by eapply Hnn. Qed.

Lemma slowest_trip_time g w :
  slowest crossing_times g w → trip_time crossing_times g = Ok w.
Proof.
  intros Hs. destruct (trip_time_total g) as [w' Hw'].
  - destruct Hs as [(x & Hx & _) _]. set_solver.
  - intros x Hx. destruct Hs as [_ Hs]. destruct (Hs x Hx) as (t & Ht & _).
    by apply elem_of_dom.
  - rewrite Hw'. f_equal. eapply slowest_fun; [|done]. by apply trip_time_Ok.
Qed.

(** The moves of the specification are those of the code: a group taken
    from [move_from], timed by [trip_time], applied by [new_config]. *)
Lemma move_iff c w c' :
  move crossing_times c w c' ↔
  ∃ g, g ⊆ move_from c ∧ (size g = 1 ∨ size g = 2)%nat
       ∧ trip_time crossing_times g = Ok w ∧ c' = new_config c g.
Proof.
  split.
  - intros [s e g w' ? ? ?|s e g w' ? ? ?]; exists g; simpl;
      repeat split; auto using slowest_trip_time.
  - intros (g & Hg & Hsz & Hw & ->). apply trip_time_Ok in Hw.
    destruct c as [[s e] []]; simpl in *; by constructor.
Qed.

Lemma move_nonneg c w c' :
  durations_nonneg crossing_times → move crossing_times c w c' → 0 ≤ w.
Proof. intros Hnn [? ? ? ? _ _ Hs|? ? ? ? _ _ Hs]; by eapply slowest_nonneg. Qed.

Lemma move_partitioned c w c' :
  move crossing_times c w c' →
  partitioned crossing_times c → partitioned crossing_times c'.
Proof.
  unfold partitioned.
  intros [s e g ? Hg _ _|s e g ? Hg _ _]; simpl; intros [Hd <-]; split;
    try set_solver.
  - apply set_eq. intros x. destruct (decide (x ∈ g)); set_solver.
  - apply set_eq. intros x. destruct (decide (x ∈ g)); set_solver.
Qed.

Lemma move_flips c w c' : move crossing_times c w c' → c'.2 = move_to_pos c.
Proof. by intros [|]. Qed.

Lemma initial_partitioned :
  partitioned crossing_times (initial_state crossing_times).
Proof. unfold partitioned, initial_state. simpl. set_solver. Qed.

Lemma journey_partitioned p c t :
  journey crossing_times p c t → partitioned crossing_times c.
Proof.
  induction 1; [apply initial_partitioned|by eapply move_partitioned].
Qed.

Lemma journey_nonneg p c t :
  durations_nonneg crossing_times → journey crossing_times p c t → 0 ≤ t.
Proof.
  intros Hnn. induction 1 as [|p c t w c' _ IH Hm]; [done|].
  pose proof (move_nonneg _ _ _ Hnn Hm). lia.
Qed.

Lemma journey_last p c t : journey crossing_times p c t → last p = Some c.
Proof. induction 1; [done|apply last_snoc]. Qed.

Lemma partitioned_move_from c :
  partitioned crossing_times c → move_from c ⊆ dom crossing_times.
Proof. destruct c as [[s e] []]; intros [_ <-]; simpl; set_solver. Qed.

End trip_time_facts.

(** ** The potential decreases when a recorded time does *)

Lemma elem_of_subsets (l : list string) (s : gset string) :
  s ⊆ list_to_set l → s ∈ subsets l.
Proof.
  revert s. induction l as [|x l IH]; intros s Hs; simpl in *.
  - apply list_elem_of_singleton. set_solver.
  - apply elem_of_app. destruct (decide (x ∈ s)) as [Hx|Hx].
    + right. apply list_elem_of_fmap. exists (s ∖ {[x]}). split.
      * apply set_eq. intros y. destruct (decide (y = x)); set_solver.
      * apply IH. set_solver.
    + left. apply IH. set_solver.
Qed.

Lemma all_configs_NoDup ct : NoDup (all_configs ct).
Proof. apply NoDup_remove_dups. Qed.

Lemma all_configs_complete ct c : partitioned ct c → c ∈ all_configs ct.
Proof.
  destruct c as [[s e] pos]. unfold partitioned. simpl. intros [Hd Hu].
  apply elem_of_remove_dups, list_elem_of_bind. exists s. split.
  - assert (e = dom ct ∖ s) as -> by set_solver.
    destruct pos; set_solver.
  - apply elem_of_subsets. intros x Hx.
    apply elem_of_list_to_set, elem_of_elements. set_solver.
Qed.

Lemma potential_insert_notin (cap : Z) (universe : list config) (v : gmap config Z) c u :
  c ∉ universe → potential cap universe (<[c := u]> v) = potential cap universe v.
Proof.
  induction universe as [|x l IH]; simpl; [done|].
  rewrite not_elem_of_cons. intros [Hne Hnotin].
  rewrite lookup_insert_ne by done. by rewrite IH.
Qed.

Lemma potential_insert (cap : Z) (universe : list config) (v : gmap config Z) c u :
  NoDup universe → c ∈ universe →
  potential cap universe (<[c := u]> v)
  = potential cap universe v - pot cap (v !! c) + (u + 1).
Proof.
  induction 1 as [|x l Hx Hnd IH]; simpl; [by intros ?%elem_of_nil|].
  intros [->|Hc]%elem_of_cons.
  - rewrite lookup_insert_eq, potential_insert_notin by done. simpl. lia.
  - rewrite lookup_insert_ne by (intros ->; done). rewrite IH by done. lia.
Qed.

Lemma potential_bounds (cap : Z) (universe : list config) (v : gmap config Z) :
  0 ≤ cap → (∀ c u, v !! c = Some u → 0 ≤ u ≤ cap) →
  0 ≤ potential cap universe v ≤ (cap + 2) * Z.of_nat (length universe).
Proof.
  intros Hcap Hv. induction universe as [|x l IH]; simpl; [lia|].
  assert (0 ≤ pot cap (v !! x) ≤ cap + 2).
  { destruct (v !! x) as [u|] eqn:Hx; simpl; [|lia].
    specialize (Hv _ _ Hx). lia. }
  lia.
Qed.

(** ** One exploration meets its specification *)

Section explore_facts.
Context {order : IterOrder}.
Variable crossing_times : gmap string Z.
Variable time_limit : Z.
(** Whatever is done with the accepted children, they are those that
    [append_move] collects, emitted in the same order. *)
Lemma consider_emit {C} (emit : C → Z → path → config → C) t p c tuple v kids0 a :
  consider crossing_times time_limit emit t p c tuple (v, emit_all emit a kids0) =
  match consider crossing_times time_limit append_move t p c tuple (v, kids0) with
  | Ok (v', kids) => Ok (v', emit_all emit a kids)
  | Raise e => Raise e
  end.
Proof.
  unfold consider.
  destruct (trip_time crossing_times (list_to_set tuple)) as [w|e]; simpl; [|done].
  case_bool_decide; simpl; [done|].
  destruct (improves v _ _); simpl; [|done].
  unfold emit_all, append_move. by rewrite foldl_app.
Qed.

Lemma for_each_consider_emit {C} (emit : C → Z → path → config → C) t p c l v kids0 a :
  for_each (consider crossing_times time_limit emit t p c) l (v, emit_all emit a kids0) =
  match for_each (consider crossing_times time_limit append_move t p c) l (v, kids0) with
  | Ok (v', kids) => Ok (v', emit_all emit a kids)
  | Raise e => Raise e
  end.
Proof.
  revert v kids0. induction l as [|tuple l IH]; intros v kids0; [done|].
  cbn [for_each]. rewrite consider_emit.
  destruct (consider crossing_times time_limit append_move t p c tuple (v, kids0))
    as [[v' kids]|e]; simpl; [apply IH|done].
Qed.

Lemma explore_emit {C} (emit : C → Z → path → config → C) t p c v a :
  explore crossing_times time_limit emit t p c (v, a) =
  match explore crossing_times time_limit append_move t p c (v, []) with
  | Ok (v', kids) => Ok (v', emit_all emit a kids)
  | Raise e => Raise e
  end.
Proof. apply (for_each_consider_emit emit t p c _ v [] a). Qed.

Variables (t : Z) (p : path) (c : config) (v : gmap config Z) (cap : Z).
Hypothesis Hpart : partitioned crossing_times c.
Lemma explored_start : explored crossing_times time_limit t p c v cap [] (v, []).
Proof.
  unfold explored. split_and!; simpl.
  - constructor.
  - intros x u Hx. by left.
  - intros x u Hx. exists u. split; [done|lia].
  - intros ? ? ?%elem_of_nil. done.
  - intros _ _ _ Hv. split; [done|lia].
Qed.

Section one_group.
Variables (done : list (list string)) (tuple : list string) (w : Z).
Variables (v' : gmap config Z) (kids : list (Z * path * config)).
Let g : gset string := list_to_set tuple.
Hypothesis Hbefore : explored crossing_times time_limit t p c v cap done (v', kids).
Hypothesis Hw : trip_time crossing_times g = Ok w.
Lemma done_snoc tuple' w' :
  tuple' ∈ done ++ [tuple] →
  trip_time crossing_times (list_to_set tuple') = Ok w' →
  tuple' ∈ done ∨ (list_to_set tuple' = g ∧ w' = w).
Proof.
  intros [?| ->%list_elem_of_singleton]%elem_of_app Hw'; [by left|].
  right. split; [done|]. fold g in Hw'. congruence.
Qed.

(** The child is over the limit, or no better than what is recorded. *)
Lemma explored_skip :
  (t + w ≤ time_limit → ∃ u, v' !! new_config c g = Some u ∧ u ≤ t + w) →
  explored crossing_times time_limit t p c v cap (done ++ [tuple]) (v', kids).
Proof.
  destruct Hbefore as (HK & H2 & H3 & H4 & H5). intros Hrec.
  unfold explored. split_and!; try done. simpl.
  intros tuple' w' Hin Hw' Hle.
  destruct (done_snoc _ _ Hin Hw') as [?|[-> ->]]; eauto.
Qed.

(** The child is new, or better than what is recorded. *)
Lemma explored_accept :
  tuple ∈ groups p c → t + w ≤ time_limit →
  (∀ old, v' !! new_config c g = Some old → t + w < old) →
  explored crossing_times time_limit t p c v cap (done ++ [tuple])
    (<[new_config c g := t + w]> v',
     append_move kids (t + w) (p ++ [new_config c g]) (new_config c g)).
Proof.
  destruct Hbefore as (HK & H2 & H3 & H4 & H5). intros Htuple Hlim Hold.
  destruct (groups_sound _ _ _ Htuple) as [Hsub Hsize]. fold g in Hsub, Hsize.
  assert (move crossing_times c w (new_config c g)) as Hmove.
  { apply move_iff. by exists g. }
  assert (∀ x u, v' !! x = Some u →
    ∃ u', <[new_config c g := t + w]> v' !! x = Some u' ∧ u' ≤ u) as Hmono.
  { intros x u Hx. destruct (decide (x = new_config c g)) as [->|Hne].
    - rewrite lookup_insert_eq. exists (t + w). split; [done|].
      specialize (Hold _ Hx). lia.
    - rewrite lookup_insert_ne by done. exists u. split; [done|lia]. }
  unfold explored, append_move. simpl in *. split_and!.
  - apply Forall_app. split.
    + eapply Forall_impl; [exact HK|].
      intros k (wk & Hk & Hmk & Hlk & u & Hu & Hle).
      exists wk. split_and!; try done.
      destruct (Hmono _ _ Hu) as (u' & Hu' & ?). exists u'. split; [done|lia].
    + apply Forall_singleton. exists w. simpl. split_and!; try done.
      exists (t + w). rewrite lookup_insert_eq. split; [done|lia].
  - intros x u. destruct (decide (x = new_config c g)) as [->|Hne].
    + rewrite lookup_insert_eq. intros [= <-]. right.
      apply elem_of_app. right. by apply list_elem_of_singleton.
    + rewrite lookup_insert_ne by done. intros Hx.
      destruct (H2 _ _ Hx) as [?|?]; [by left|right].
      apply elem_of_app. by left.
  - intros x u Hx. destruct (H3 _ _ Hx) as (u' & Hu' & ?).
    destruct (Hmono _ _ Hu') as (u'' & Hu'' & ?). exists u''. split; [done|lia].
  - intros tuple' w' Hin Hw' Hle.
    destruct (done_snoc _ _ Hin Hw') as [Hin'|[-> ->]].
    + destruct (H4 _ _ Hin' Hw' Hle) as (u & Hu & ?).
      destruct (Hmono _ _ Hu) as (u' & Hu' & ?). exists u'. split; [done|lia].
    + exists (t + w). rewrite lookup_insert_eq. split; [done|lia].
  - intros Hnn Ht Hcap Hv. destruct (H5 Hnn Ht Hcap Hv) as [Hwithin Hpot].
    pose proof (move_nonneg _ _ _ _ Hnn Hmove).
    assert (partitioned crossing_times (new_config c g))
      by (by eapply move_partitioned).
    split.
    + intros x u. destruct (decide (x = new_config c g)) as [->|Hne].
      * rewrite lookup_insert_eq. intros [= <-]. split; [done|lia].
      * rewrite lookup_insert_ne by done. apply Hwithin.
    + rewrite potential_insert, length_app;
        [|apply all_configs_NoDup|by apply all_configs_complete].
      simpl. destruct (v' !! new_config c g) as [old|] eqn:Hrec; simpl.
      * specialize (Hold _ eq_refl). lia.
      * lia.
Qed.

End one_group.

Lemma explored_step done tuple s :
  explored crossing_times time_limit t p c v cap done s → tuple ∈ groups p c →
  ∃ s', consider crossing_times time_limit append_move t p c tuple s = Ok s'
        ∧ explored crossing_times time_limit t p c v cap (done ++ [tuple]) s'.
Proof.
  destruct s as [v' kids]. intros Hbefore Htuple.
  destruct (groups_sound _ _ _ Htuple) as [Hsub Hsize].
  destruct (trip_time_total crossing_times (list_to_set tuple)) as [w Hw].
  { intros Hg. rewrite Hg, size_empty in Hsize. lia. }
  { etrans; [done|]. by apply partitioned_move_from. }
  unfold consider. rewrite Hw. simpl.
  case_bool_decide as Hlim.
  { eexists. split; [done|]. eapply explored_skip; [done..|]. lia. }
  unfold improves.
  destruct (v' !! new_config c (list_to_set tuple)) as [old|] eqn:Hold.
  - case_bool_decide as Hlt.
    + eexists. split; [done|]. eapply explored_accept; [done..|lia|].
      intros old' Hold'. rewrite Hold in Hold'. by simplify_eq.
    + eexists. split; [done|]. eapply explored_skip; [done..|].
      intros _. exists old. split; [done|lia].
  - eexists. split; [done|]. eapply explored_accept; [done..|lia|].
    intros old' Hold'. by rewrite Hold in Hold'.
Qed.

(** What [explore] leaves behind, in terms of moves. *)
Lemma explore_spec :
  ∃ v' kids,
    explore crossing_times time_limit append_move t p c (v, []) = Ok (v', kids)
    ∧ Forall (kid_ok crossing_times time_limit t p c v') kids
    ∧ (∀ x u, v' !! x = Some u → v !! x = Some u ∨ (u, p ++ [x], x) ∈ kids)
    ∧ (∀ x u, v !! x = Some u → ∃ u', v' !! x = Some u' ∧ u' ≤ u)
    ∧ (∀ w c', move crossing_times c w c' → t + w ≤ time_limit →
         ∃ u, v' !! c' = Some u ∧ u ≤ t + w)
    ∧ (durations_nonneg crossing_times → 0 ≤ t → time_limit ≤ cap →
       within crossing_times cap v →
         within crossing_times cap v'
         ∧ potential cap (all_configs crossing_times) v' + Z.of_nat (length kids)
           ≤ potential cap (all_configs crossing_times) v).
Proof.
  destruct (for_each_ind
    (consider crossing_times time_limit append_move t p c)
    (explored crossing_times time_limit t p c v cap)
    (groups p c) (v, [])) as ([v' kids] & Hrun & HK & H2 & H3 & H4 & H5).
  { apply explored_start. }
  { intros done tuple s Hs Hin. by apply explored_step. }
  exists v', kids. split_and!; try done.
  intros w c' (g & Hg & Hsize & Hw & ->)%move_iff Hle.
  destruct (groups_complete p c g Hg Hsize) as (tuple & Hin & <-).
  by eapply H4.
Qed.

End explore_facts.

Section search.
Variable crossing_times : gmap string Z.
Variable time_limit : Z.
Hypothesis Hnonneg : durations_nonneg crossing_times.
Lemma search_inv_within v items b :
  search_inv crossing_times time_limit v items b → within crossing_times (cap time_limit) v.
Proof. intros (_ & H2 & _) x u Hx. destruct (H2 x u Hx) as (_ & ? & ? & _). done. Qed.

Lemma search_inv_init :
  search_inv crossing_times time_limit {[ initial_state crossing_times := 0 ]}
    [(0, [initial_state crossing_times], initial_state crossing_times)] None.
Proof.
  unfold search_inv, cap. split_and!.
  - intros t p c [= -> -> ->]%list_elem_of_singleton. split_and!.
    + constructor.
    + lia.
    + exists 0. by rewrite lookup_singleton_eq.
  - intros c u [<- <-]%lookup_singleton_Some. split_and!.
    + eexists. constructor.
    + apply initial_partitioned.
    + lia.
    + lia.
    + left. eexists. by apply list_elem_of_singleton.
  - exists 0. by rewrite lookup_singleton_eq.
Qed.

Lemma search_measure_init :
  (search_measure crossing_times time_limit {[ initial_state crossing_times := 0%Z ]}
     [(0%Z, [initial_state crossing_times], initial_state crossing_times)]
   < search_fuel crossing_times time_limit)%nat.
Proof.
  unfold search_measure, search_fuel. simpl.
  pose proof (potential_bounds (cap time_limit) (all_configs crossing_times)
    {[ initial_state crossing_times := 0 ]}) as Hb.
  destruct Hb as [? ?]; [unfold cap; lia| |lia].
  intros c u [<- <-]%lookup_singleton_Some. unfold cap. lia.
Qed.

(** Removing an item that is of no further use. *)
Lemma search_inv_drop v items rest b b' t p c :
  search_inv crossing_times time_limit v items b → items ≡ₚ (t, p, c) :: rest →
  (v !! c = Some t →
   closed crossing_times time_limit v c t ∨ bounded b' t ∨ time_limit < t) →
  (∀ u, bounded b u → bounded b' u) →
  search_inv crossing_times time_limit v rest b'
  ∧ (search_measure crossing_times time_limit v rest
     < search_measure crossing_times time_limit v items)%nat.
Proof.
  intros (H1 & H2 & H3) Hperm Hc Hb. split.
  - unfold search_inv. split_and!; [| |done].
    + intros t' p' c' Hin. apply H1. rewrite Hperm. by right.
    + intros x u Hx. destruct (H2 x u Hx) as (Hjx & Hp & Hu & Hst).
      split_and!; [done|done|lia|lia|].
      destruct Hst as [[p' Hin]|[Hcl|[Hbd|Hov]]].
      * rewrite Hperm in Hin. apply elem_of_cons in Hin as [Heq|Hin].
        -- simplify_eq. right. by apply Hc.
        -- left. by exists p'.
      * right. by left.
      * right. right. left. by apply Hb.
      * by do 3 right.
  - unfold search_measure. rewrite (Permutation_length Hperm). simpl. lia.
Qed.

End search.

Section search_steps.
Context {order : IterOrder}.
Variable crossing_times : gmap string Z.
Variable time_limit : Z.
Hypothesis Hnonneg : durations_nonneg crossing_times.
Lemma cap_ge : time_limit ≤ cap time_limit ∧ 0 ≤ cap time_limit.
Proof. unfold cap. lia. Qed.

(** Expanding an item whose time is the recorded one. *)
Lemma search_inv_expand v items rest b t p c :
  search_inv crossing_times time_limit v items b →
  items ≡ₚ (t, p, c) :: rest → v !! c = Some t → ¬ complete c →
  ∃ v' kids,
    explore crossing_times time_limit append_move t p c (v, []) = Ok (v', kids)
    ∧ search_inv crossing_times time_limit v' (kids ++ rest) b
    ∧ (search_measure crossing_times time_limit v' (kids ++ rest)
       < search_measure crossing_times time_limit v items)%nat
    ∧ Forall (λ k, k.1.2 = p ++ [k.2] ∧ k.1.1 ≤ time_limit) kids.
Proof.
  intros Hinv Hperm Hvc Hgoal.
  pose proof (search_inv_within _ _ _ _ _ Hinv) as Hwithin.
  destruct Hinv as (H1 & H2 & H3).
  destruct (H1 t p c) as (Hj & Htcap & _); [rewrite Hperm; by left|].
  pose proof (journey_partitioned _ _ _ _ Hj) as Hpart.
  pose proof (journey_nonneg _ _ _ _ Hnonneg Hj) as Ht0.
  destruct (explore_spec crossing_times time_limit t p c v (cap time_limit) Hpart)
    as (v' & kids & Hrun & HK & M2 & M3 & M4 & M5).
  destruct (M5 Hnonneg Ht0 (proj1 cap_ge) Hwithin) as [Hwithin' Hpot].
  exists v', kids. split; [done|]. split_and!.
  - unfold search_inv. split_and!.
    + intros t' p' c' [Hin|Hin]%elem_of_app.
      * rewrite Forall_forall in HK.
        destruct (HK _ Hin) as (w & [= -> ->] & Hm & Hle & Hrec). simpl in *.
        split_and!; [by eapply journey_step|pose proof cap_ge; lia|done].
      * destruct (H1 t' p' c') as (? & ? & u & Hu & ?); [rewrite Hperm; by right|].
        split_and!; [done..|].
        destruct (M3 _ _ Hu) as (u' & ? & ?). exists u'. split; [done|lia].
    + intros x u Hx. destruct (Hwithin' x u Hx) as [? ?].
      destruct (M2 _ _ Hx) as [Hold|Hnew]; cycle 1.
      { split_and!; [|done|lia|lia|].
        - rewrite Forall_forall in HK.
          destruct (HK _ Hnew) as (w & [= ->] & Hm & _). simpl in *.
          eexists. by eapply journey_step.
        - left. exists (p ++ [x]). apply elem_of_app. by left. }
      destruct (H2 _ _ Hold) as (Hjx & _ & _ & Hst).
      split_and!; [done|done|lia|lia|].
      destruct Hst as [[p' Hin]|[[Hng Hcl]|[Hbd|Hov]]].
      * rewrite Hperm in Hin. apply elem_of_cons in Hin as [Heq|Hin].
        -- simplify_eq. right. left. split; [done|]. apply M4.
        -- left. exists p'. apply elem_of_app. by right.
      * right. left. split; [done|]. intros w c' Hm Hle.
        destruct (Hcl w c' Hm Hle) as (u' & Hu' & ?).
        destruct (M3 _ _ Hu') as (u'' & ? & ?). exists u''. split; [done|lia].
      * right. right. by left.
      * by do 3 right.
    + destruct H3 as (u & Hu & ?). destruct (M3 _ _ Hu) as (u' & ? & ?).
      exists u'. split; [done|lia].
  - unfold search_measure. rewrite (Permutation_length Hperm), length_app. simpl.
    pose proof (potential_bounds (cap time_limit) (all_configs crossing_times) v'
      (proj2 cap_ge)) as Hb'.
    destruct Hb' as [? _]; [intros x u Hx; by destruct (Hwithin' x u Hx)|].
    lia.
  - eapply Forall_impl; [exact HK|]. intros [[t' p'] c'] (w & [= -> ->] & _ & ? & _).
    simpl. done.
Qed.

(** If a solution exists, the search has not lost it: something at least as
    good is pending, or has been found. *)
Lemma search_complete v items b p T :
  search_inv crossing_times time_limit v items b →
  solution crossing_times time_limit p T →
  (∃ t' p' c', (t', p', c') ∈ items ∧ t' ≤ T) ∨ bounded b T.
Proof.
  intros (H1 & H2 & H3) (c & Hj & Hgoal & HT).
  assert ((∃ t' p' c', (t', p', c') ∈ items ∧ t' ≤ T) ∨ bounded b T
          ∨ ∃ u, v !! c = Some u ∧ u ≤ T) as [?|[?|(u & Hu & Hle)]]; [|by auto..|].
  { clear Hgoal. induction Hj as [|p c t w c' Hj IH Hm].
    - right. right. destruct H3 as (u & ? & ?). exists u. split; [done|lia].
    - pose proof (move_nonneg _ _ _ _ Hnonneg Hm) as Hw.
      destruct IH as [(t' & p' & c'' & Hin & ?)|[(bt & -> & ?)|(u & Hu & Hle)]]; [lia|..].
      + left. exists t', p', c''. split; [done|lia].
      + right. left. exists bt. split; [done|lia].
      + destruct (H2 _ _ Hu) as (_ & _ & _ & [[p' Hin]|[[_ Hcl]|[(bt & -> & ?)|Hov]]]).
        * left. exists u, p', c. split; [done|lia].
        * right. right. destruct (Hcl w c' Hm) as (u' & ? & ?); [lia|].
          exists u'. split; [done|lia].
        * right. left. exists bt. split; [done|lia].
        * lia. }
  destruct (H2 _ _ Hu) as (_ & _ & _ & [[p' Hin]|[[Hng _]|[(bt & -> & ?)|Hov]]]).
  - left. exists u, p', c. done.
  - done.
  - right. exists bt. split; [done|lia].
  - lia.
Qed.

End search_steps.

Section expected.
Variable crossing_times : gmap string Z.
Variable time_limit : Z.
Lemma search_inv_perm v items items' b :
  items ≡ₚ items' →
  search_inv crossing_times time_limit v items b →
  search_inv crossing_times time_limit v items' b.
Proof.
  intros Hperm (H1 & H2 & H3). unfold search_inv. split_and!; [| |done].
  - intros t p c Hin. apply H1. by rewrite Hperm.
  - intros c u Hc. destruct (H2 c u Hc) as (? & ? & ? & Hst).
    split_and!; [done|done|lia|lia|]. destruct Hst as [[p Hin]|?]; [|by right].
    left. exists p. by rewrite <- Hperm.
Qed.

Lemma search_measure_perm v items items' :
  items ≡ₚ items' →
  search_measure crossing_times time_limit v items
  = search_measure crossing_times time_limit v items'.
Proof. intros Hperm. unfold search_measure. by rewrite (Permutation_length Hperm). Qed.

Lemma search_inv_visited_ok v items b :
  durations_nonneg crossing_times →
  search_inv crossing_times time_limit v items b → visited_ok crossing_times v.
Proof.
  intros Hnn (_ & H2 & u & Hu & Hle). split.
  - destruct (H2 _ _ Hu) as (_ & _ & ? & _). rewrite Hu. f_equal. lia.
  - intros c u' Hc. by destruct (H2 _ _ Hc) as (? & _).
Qed.

End expected.

(** * The depth-first solver *)

Section dfs_correct.
Context {order : IterOrder}.
Variable crossing_times : gmap string Z.
Variable time_limit : Z.
Hypothesis Hnonneg : durations_nonneg crossing_times.
Lemma below_false t b : below t b = false → bounded b t.
Proof.
  destruct b as [bt|]; simpl; [|done]. intros ?%bool_decide_eq_false.
  exists bt. split; [done|lia].
Qed.

Lemma dfs_iteration_spec st :
  dfs_inv crossing_times time_limit st →
  match dfs_iteration crossing_times time_limit st with
  | Raise _ => False
  | Ok (inl r) =>
      optimal_result crossing_times time_limit r ∧ visited_ok crossing_times r.2
      ∧ stack st = [] ∧ r = (min_total_time st, best_path st, visited_states st)
  | Ok (inr st') =>
      dfs_inv crossing_times time_limit st'
      ∧ (dfs_measure crossing_times time_limit st'
         < dfs_measure crossing_times time_limit st)%nat
  end.
Proof.
  intros [Hinv Hbest]. unfold dfs_iteration.
  destruct (pop_last (stack st)) as [[stack' [[t p] c]]|] eqn:Hpop.
  - apply pop_last_Some in Hpop.
    assert (stack st ≡ₚ (t, p, c) :: stack') as Hperm.
    { rewrite Hpop. symmetry. apply Permutation_cons_append. }
    destruct (proj1 Hinv t p c) as (Hj & _ & u & Hu & Hut); [rewrite Hperm; by left|].
    unfold dfs_inv, dfs_measure.
    destruct (decide (c.1.1 = ∅)) as [Hgoal|Hgoal].
    { destruct (below t (min_total_time st) && bool_decide (t ≤ time_limit)) eqn:Hb; simpl.
      - apply andb_true_iff in Hb as [Hlt Hle%bool_decide_eq_true].
        destruct (search_inv_drop _ _ _ _ _ _ (Some t) _ _ _ Hinv Hperm) as [? ?].
        + intros _. right. left. exists t. split; [done|lia].
        + intros u' (bt & Hbt & ?). exists t. split; [done|].
          rewrite Hbt in Hlt. simpl in Hlt. apply bool_decide_eq_true in Hlt. lia.
        + split_and!; [done| |done]. by exists c.
      - destruct (search_inv_drop _ _ _ _ _ _ (min_total_time st) _ _ _ Hinv Hperm)
          as [? ?]; [|done|done].
        intros _. right. apply andb_false_iff in Hb as [Hb|Hb%bool_decide_eq_false].
        + left. by apply below_false.
        + right. lia. }
    destruct (negb (below t (min_total_time st)) || bool_decide (t > time_limit)) eqn:Hb; simpl.
    { destruct (search_inv_drop _ _ _ _ _ _ (min_total_time st) _ _ _ Hinv Hperm)
        as [? ?]; [|done|done].
      intros _. right. apply orb_true_iff in Hb as [Hb%negb_true_iff|Hb%bool_decide_eq_true].
      - left. by apply below_false.
      - right. lia. }
    apply orb_false_iff in Hb as [_ Hlim%bool_decide_eq_false].
    unfold stale. rewrite Hu. case_bool_decide as Hst; simpl.
    { destruct (search_inv_drop _ _ _ _ _ _ (min_total_time st) _ _ _ Hinv Hperm)
        as [? ?]; [|done|done].
      intros Hc. rewrite Hu in Hc. injection Hc as ->. lia. }
    assert (u = t) as -> by lia.
    destruct (search_inv_expand crossing_times time_limit Hnonneg _ _ _ _ _ _ _
      Hinv Hperm Hu Hgoal) as (v' & kids & -> & Hinv' & Hm & _).
    simpl. split_and!; [|done|].
    + eapply search_inv_perm; [|exact Hinv'].
      rewrite (sorted_desc_perm _ kids). apply Permutation_app_comm.
    + erewrite search_measure_perm; [exact Hm|].
      rewrite (sorted_desc_perm _ kids). apply Permutation_app_comm.
  - apply pop_last_None in Hpop.
    split_and!; [|by eapply search_inv_visited_ok|done..].
    unfold optimal_result. simpl. rewrite Hpop in Hinv.
    destruct (min_total_time st) as [bt|], (best_path st) as [bp|]; try done.
    + split; [done|]. intros p T Hsol.
      destruct (search_complete _ _ Hnonneg _ _ _ _ _ Hinv Hsol)
        as [(? & ? & ? & []%elem_of_nil & _)|(? & [= <-] & ?)]. done.
    + intros p T Hsol.
      destruct (search_complete _ _ Hnonneg _ _ _ _ _ Hinv Hsol)
        as [(? & ? & ? & []%elem_of_nil & _)|(? & [=] & ?)].
Qed.

Lemma dfs_init_inv : dfs_inv crossing_times time_limit (dfs_init crossing_times).
Proof. split; [apply search_inv_init|done]. Qed.

(** The depth-first solver returns, and what it returns is optimal. *)
Lemma dfs_total_correct fuel :
  (search_fuel crossing_times time_limit ≤ fuel)%nat →
  ∃ r, solve_bridge_problem_dfs crossing_times time_limit fuel = Returns r
       ∧ optimal_result crossing_times time_limit r
       ∧ visited_ok crossing_times r.2.
Proof.
  intros Hfuel.
  destruct (while_loop_total (dfs_iteration crossing_times time_limit)
    (dfs_inv crossing_times time_limit) (dfs_measure crossing_times time_limit)
    (λ r, optimal_result crossing_times time_limit r ∧ visited_ok crossing_times r.2))
    with (fuel := fuel) (s := dfs_init crossing_times) as (r & Hr & ?).
  - intros st Hst. pose proof (dfs_iteration_spec st Hst) as Hspec.
    destruct (dfs_iteration crossing_times time_limit st) as [[r|st']|e]; [|done..].
    destruct Hspec as (? & ? & _). done.
  - apply dfs_init_inv.
  - pose proof (search_measure_init crossing_times time_limit).
    unfold dfs_measure, dfs_init. simpl. lia.
  - by exists r.
Qed.

End dfs_correct.

(** * The priority-queue solver *)

Section bfs_correct.
Context {order : IterOrder} {hq : Heapq}.
Variable crossing_times : gmap string Z.
Variable time_limit : Z.
Lemma heap_items_emit_all q (kids : list (Z * path * config)) :
  heap_items (emit_all push_entry q kids)
  ≡ₚ ((λ k, (k.1.1, k.1.2)) <$> kids) ++ heap_items q.
Proof.
  revert q. induction kids as [|k kids IH]; intros q; [done|].
  unfold emit_all in *. simpl. rewrite IH. unfold push_entry.
  rewrite heap_items_push. by rewrite Permutation_middle.
Qed.

Lemma bfs_items_emit_all q p (kids : list (Z * path * config)) :
  Forall (λ k, k.1.2 = p ++ [k.2] ∧ k.1.1 ≤ time_limit) kids →
  bfs_items (emit_all push_entry q kids) ≡ₚ kids ++ bfs_items q.
Proof.
  intros Hkids. unfold bfs_items.
  rewrite heap_items_emit_all, fmap_app.
  assert (entry_item <$> ((λ k : Z * path * config, (k.1.1, k.1.2)) <$> kids) = kids)
    as ->; [|done].
  rewrite <- list_fmap_compose.
  rewrite <- (list_fmap_id kids) at 2.
  apply Forall_fmap_ext_1. eapply Forall_impl; [exact Hkids|].
  intros [[t p'] c] [Hp _]. simpl in *. unfold entry_item. simpl.
  by rewrite Hp, last_snoc.
Qed.

Hypothesis Hnonneg : durations_nonneg crossing_times.
Lemma bfs_iteration_spec st :
  bfs_inv crossing_times time_limit st →
  match bfs_iteration crossing_times time_limit st with
  | Raise _ => False
  | Ok (inl r) =>
      optimal_result crossing_times time_limit r ∧ visited_ok crossing_times r.2
      ∧ r.2 = visited_times st ∧ (r.1.1 = None → heap_items (pq st) = [])
  | Ok (inr st') =>
      bfs_inv crossing_times time_limit st'
      ∧ (bfs_measure crossing_times time_limit st'
         < bfs_measure crossing_times time_limit st)%nat
  end.
Proof.
  intros Hinv. unfold bfs_iteration.
  pose proof (search_inv_visited_ok _ _ _ _ _ Hnonneg Hinv) as Hvis.
  destruct (heappop (pq st)) as [[[t p] pq']|] eqn:Hpop.
  - apply heappop_Some in Hpop as [Hperm Hmin].
    assert (bfs_items (pq st) ≡ₚ entry_item (t, p) :: bfs_items pq') as Hperm'.
    { unfold bfs_items. by rewrite Hperm. }
    destruct (proj1 Hinv t p (entry_item (t, p)).2) as (Hj & _ & u & Hu & Hut).
    { rewrite Hperm'. by left. }
    pose proof (journey_last _ _ _ _ Hj) as Hlast.
    unfold entry_item in *. simpl in *.
    destruct (last p) as [c|] eqn:Hp; [clear Hlast|done]. simpl in *.
    unfold bfs_inv, bfs_measure.
    destruct (decide (c.1.1 = ∅)) as [Hgoal|Hgoal].
    { case_bool_decide as Hlim; simpl.
      - split_and!; [|done..]. unfold optimal_result. simpl. split.
        + by exists c.
        + intros p' T Hsol.
          destruct (search_complete _ _ Hnonneg _ _ _ _ _ Hinv Hsol)
            as [(t' & p'' & c'' & Hin & ?)|(? & [=] & _)].
          apply list_elem_of_fmap in Hin as ([t'' p3] & [= -> -> ->] & Hin).
          rewrite Forall_forall in Hmin. specialize (Hmin _ Hin). simpl in *. lia.
      - destruct (search_inv_drop _ _ _ _ _ _ None _ _ _ Hinv Hperm') as [? ?];
          [|done|done].
        intros _. do 2 right. lia. }
    unfold stale. rewrite Hu. case_bool_decide as Hst; simpl.
    { destruct (search_inv_drop _ _ _ _ _ _ None _ _ _ Hinv Hperm') as [? ?];
        [|done|done].
      intros Hc. rewrite Hu in Hc. injection Hc as ->. lia. }
    assert (u = t) as -> by lia.
    destruct (search_inv_expand crossing_times time_limit Hnonneg _ _ _ _ _ _ _
      Hinv Hperm' Hu Hgoal) as (v' & kids & Hrun & Hinv' & Hm & Hkids).
    rewrite explore_emit, Hrun. simpl. split.
    + eapply search_inv_perm; [|exact Hinv']. symmetry.
      by eapply bfs_items_emit_all.
    + erewrite search_measure_perm; [exact Hm|]. by eapply bfs_items_emit_all.
  - apply heappop_None in Hpop. split_and!; [|done..].
    unfold optimal_result. simpl. intros p T Hsol.
    unfold bfs_inv, bfs_items in Hinv. rewrite Hpop in Hinv.
    destruct (search_complete _ _ Hnonneg _ _ _ _ _ Hinv Hsol)
      as [(? & ? & ? & []%elem_of_nil & _)|(? & [=] & _)].
Qed.

Lemma bfs_init_inv : bfs_inv crossing_times time_limit (bfs_init crossing_times).
Proof.
  unfold bfs_inv, bfs_init, bfs_items. simpl. rewrite heap_items_new.
  apply search_inv_init.
Qed.

(** The priority-queue solver returns, and what it returns is optimal. *)
Lemma bfs_total_correct fuel :
  (search_fuel crossing_times time_limit ≤ fuel)%nat →
  ∃ r, solve_bridge_problem_bfs crossing_times time_limit fuel = Returns r
       ∧ optimal_result crossing_times time_limit r
       ∧ visited_ok crossing_times r.2.
Proof.
  intros Hfuel.
  destruct (while_loop_total (bfs_iteration crossing_times time_limit)
    (bfs_inv crossing_times time_limit) (bfs_measure crossing_times time_limit)
    (λ r, optimal_result crossing_times time_limit r ∧ visited_ok crossing_times r.2))
    with (fuel := fuel) (s := bfs_init crossing_times) as (r & Hr & ?).
  - intros st Hst. pose proof (bfs_iteration_spec st Hst) as Hspec.
    destruct (bfs_iteration crossing_times time_limit st) as [[r|st']|e]; [|done..].
    destruct Hspec as (? & ? & _). done.
  - apply bfs_init_inv.
  - unfold bfs_measure, bfs_init, bfs_items. simpl. rewrite heap_items_new.
    eapply Nat.lt_le_trans; [apply search_measure_init|done].
  - by exists r.
Qed.

End bfs_correct.

(** * Facts that need no assumption on the durations *)

Lemma reachable_inv {S R} (body : S → exc (R + S)) (I : S → Prop) s0 s :
  I s0 →
  (∀ s s', I s → body s = Ok (inr s') → I s') →
  reachable body s0 s → I s.
Proof. intros H0 Hstep. induction 1; eauto. Qed.

(** A loop that returns does so from a state it has reached. *)
Lemma while_loop_exit {S R} (body : S → exc (R + S)) fuel s0 r :
  while_loop body fuel s0 = Returns r →
  ∃ s, reachable body s0 s ∧ body s = Ok (inl r).
Proof.
  cut (∀ s, reachable body s0 s → while_loop body fuel s = Returns r →
            ∃ s', reachable body s0 s' ∧ body s' = Ok (inl r)).
  { intros Hcut. apply Hcut. constructor. }
  induction fuel as [|fuel IH]; intros s Hs; simpl; [done|].
  destruct (body s) as [[r'|s']|e] eqn:Hbody; [|..|done].
  - intros [= ->]. eauto.
  - apply IH. by econstructor.
Qed.

(** A loop whose rounds never raise from a reachable state never raises. *)
Lemma while_loop_no_raise {S R} (body : S → exc (R + S)) (I : S → Prop) :
  (∀ s, I s → match body s with
              | Raise _ => False
              | Ok (inl _) => True
              | Ok (inr s') => I s'
              end) →
  ∀ fuel s e, I s → while_loop body fuel s ≠ Raises e.
Proof.
  intros Hbody. induction fuel as [|fuel IH]; intros s e Hs; simpl; [done|].
  specialize (Hbody s Hs). destruct (body s) as [[r|s']|e']; [done| |done].
  by apply IH.
Qed.

Section partial.
Context {order : IterOrder}.
Variable crossing_times : gmap string Z.
Variable time_limit : Z.
Lemma explore_items_ok t p c v :
  journey crossing_times p c t →
  ∃ v' kids,
    explore crossing_times time_limit append_move t p c (v, []) = Ok (v', kids)
    ∧ Forall (item_ok crossing_times time_limit) kids
    ∧ Forall (λ k, k.1.2 = p ++ [k.2] ∧ k.1.1 ≤ time_limit) kids.
Proof.
  intros Hj. pose proof (journey_partitioned _ _ _ _ Hj) as Hpart.
  destruct (explore_spec crossing_times time_limit t p c v 0 Hpart)
    as (v' & kids & Hrun & HK & _).
  exists v', kids. split; [done|]. split.
  - eapply Forall_impl; [exact HK|].
    intros [[t' p'] c'] (w & [= -> ->] & Hm & Hle & _). split; simpl; [|done].
    by eapply journey_step.
  - eapply Forall_impl; [exact HK|].
    intros [[t' p'] c'] (w & [= -> ->] & _ & Hle & _). done.
Qed.

Lemma item_ok_initial :
  item_ok crossing_times time_limit
    (0, [initial_state crossing_times], initial_state crossing_times).
Proof. split; simpl; [constructor|done]. Qed.

(** ** Depth-first *)

Lemma dfs_iteration_partial st :
  dfs_paths_inv crossing_times time_limit st →
  match dfs_iteration crossing_times time_limit st with
  | Raise _ => False
  | Ok (inl r) =>
      sound_result crossing_times time_limit r ∧ stack st = []
      ∧ r = (min_total_time st, best_path st, visited_states st)
  | Ok (inr st') => dfs_paths_inv crossing_times time_limit st'
  end.
Proof.
  intros [Hitems Hbest]. unfold dfs_iteration.
  destruct (pop_last (stack st)) as [[stack' [[t p] c]]|] eqn:Hpop.
  - apply pop_last_Some in Hpop. rewrite Hpop in Hitems.
    apply Forall_app in Hitems as [Hrest [[Hj Hle] _]%Forall_cons]. simpl in *.
    unfold dfs_paths_inv.
    destruct (decide (c.1.1 = ∅)) as [Hgoal|Hgoal].
    { destruct (below t (min_total_time st) && bool_decide (t ≤ time_limit)) eqn:Hb;
        simpl; [|done].
      apply andb_true_iff in Hb as [_ Hlim%bool_decide_eq_true].
      split; [done|]. unfold sound_result. simpl. by exists c. }
    destruct (negb (below t (min_total_time st)) || bool_decide (t > time_limit));
      simpl; [done|].
    destruct (stale (visited_states st) c t); simpl; [done|].
    destruct (explore_items_ok t p c (visited_states st) Hj)
      as (v' & kids & -> & Hkids & _).
    simpl. split; [|done]. apply Forall_app. split; [done|].
    by rewrite (sorted_desc_perm _ kids).
  - apply pop_last_None in Hpop. done.
Qed.

Lemma dfs_init_paths_inv : dfs_paths_inv crossing_times time_limit (dfs_init crossing_times).
Proof.
  split; [|done]. apply Forall_singleton, item_ok_initial.
Qed.

(** ** Priority queue *)

Section with_heap.
Context {hq : Heapq}.
Lemma bfs_iteration_partial st :
  bfs_paths_inv crossing_times time_limit st →
  match bfs_iteration crossing_times time_limit st with
  | Raise _ => False
  | Ok (inl r) =>
      sound_result crossing_times time_limit r ∧ r.2 = visited_times st
      ∧ (r.1.1 = None → heap_items (pq st) = [])
  | Ok (inr st') => bfs_paths_inv crossing_times time_limit st'
  end.
Proof.
  intros Hitems. unfold bfs_iteration.
  destruct (heappop (pq st)) as [[[t p] pq']|] eqn:Hpop.
  - apply heappop_Some in Hpop as [Hperm _].
    unfold bfs_paths_inv, bfs_items in *. rewrite Hperm in Hitems.
    rewrite fmap_cons in Hitems.
    apply Forall_cons in Hitems as [[Hj Hle] Hrest].
    unfold entry_item in Hj, Hle. simpl in *.
    pose proof (journey_last _ _ _ _ Hj) as Hlast.
    destruct (last p) as [c|] eqn:Hp; [clear Hlast|done]. simpl in *.
    destruct (decide (c.1.1 = ∅)) as [Hgoal|Hgoal].
    { case_bool_decide as Hlim; simpl; [|done].
      split_and!; [|done..]. unfold sound_result. simpl. by exists c. }
    destruct (stale (visited_times st) c t); simpl; [done|].
    destruct (explore_items_ok t p c (visited_times st) Hj)
      as (v' & kids & Hrun & Hkids & Hshape).
    rewrite explore_emit, Hrun. simpl.
    change (Forall (item_ok crossing_times time_limit)
              (bfs_items (emit_all push_entry pq' kids))).
    rewrite (bfs_items_emit_all time_limit pq' p kids Hshape).
    apply Forall_app. done.
  - apply heappop_None in Hpop. done.
Qed.

Lemma bfs_init_paths_inv : bfs_paths_inv crossing_times time_limit (bfs_init crossing_times).
Proof.
  unfold bfs_paths_inv, bfs_init, bfs_items. simpl. rewrite heap_items_new.
  apply Forall_singleton, item_ok_initial.
Qed.

End with_heap.

End partial.

Section check.
Variable crossing_times : gmap string Z.
Lemma move_moved_people c w c' :
  partitioned crossing_times c → move crossing_times c w c' →
  ∃ g, moved_people c c' = g ∧ (size g = 1 ∨ size g = 2)%nat ∧ g ⊆ move_from c
       ∧ c' = new_config c g ∧ trip_time crossing_times g = Ok w.
Proof.
  intros Hpart Hm. revert Hpart.
  destruct Hm as [s e g w' Hg Hsz Hs|s e g w' Hg Hsz Hs]; intros [Hd _]; exists g;
    unfold moved_people; simpl in *.
  - split_and!; [|done|done|done|by apply slowest_trip_time].
    clear Hsz Hs. apply set_eq. intros x. destruct (decide (x ∈ g)); set_solver.
  - split_and!; [|done|done|done|by apply slowest_trip_time].
    clear Hsz Hs. apply set_eq. intros x.
    rewrite elem_of_difference, elem_of_union. split.
    + by intros [[?|?] ?].
    + intros Hx. split; [by right|]. intros Hxs.
      rewrite elem_of_disjoint in Hd. eapply Hd; [done|by apply Hg].
Qed.

Lemma default_last_cons (c x : config) (rest : path) :
  default c (last (x :: rest)) = default x (last rest).
Proof. rewrite last_cons. by destruct (last rest). Qed.

Lemma route_time_snoc c rest t c' w :
  route_time crossing_times c rest = Some t →
  partitioned crossing_times (default c (last rest)) →
  move crossing_times (default c (last rest)) w c' →
  route_time crossing_times c (rest ++ [c']) = Some (t + w).
Proof.
  revert c t. induction rest as [|x rest IH]; intros c t; simpl.
  - intros [= <-] Hpart Hm.
    destruct (move_moved_people _ _ _ Hpart Hm) as (g & -> & ? & ? & ? & ->).
    rewrite bool_decide_true by done. simpl. f_equal. lia.
  - case_bool_decide; [|done].
    destruct (trip_time crossing_times _) as [w'|]; [|done]. simpl.
    destruct (route_time crossing_times x rest) as [t'|] eqn:Ht'; [|done]. simpl.
    rewrite default_last_cons. intros [= <-] Hpart Hm.
    rewrite (IH x t' Ht'); simpl; [|done..]. f_equal. lia.
Qed.

(** A journey passes the check, with its time. *)
Lemma journey_check p c t :
  journey crossing_times p c t → check_path crossing_times p = Some t.
Proof.
  induction 1 as [|p c t w c' Hj IH Hm]; simpl.
  - by rewrite bool_decide_true.
  - destruct p as [|c0 rest]; [done|]. simpl in *.
    case_bool_decide; [|done].
    pose proof (journey_last _ _ _ _ Hj) as Hlast.
    pose proof (journey_partitioned _ _ _ _ Hj) as Hpart.
    apply route_time_snoc; [done|..].
    + destruct rest; simpl in *; [by simplify_eq|]. by rewrite Hlast.
    + destruct rest; simpl in *; [by simplify_eq|]. by rewrite Hlast.
Qed.

Lemma route_time_journey p c t rest t' :
  journey crossing_times p c t → route_time crossing_times c rest = Some t' →
  journey crossing_times (p ++ rest) (default c (last rest)) (t + t').
Proof.
  revert p c t t'. induction rest as [|x rest IH]; intros p c t t' Hj; simpl.
  - intros [= <-]. rewrite app_nil_r, Z.add_0_r. done.
  - case_bool_decide as Hstep; [|done]. destruct Hstep as (Hsz & Hsub & Hx).
    destruct (trip_time crossing_times _) as [w|] eqn:Hw; [|done]. simpl.
    destruct (route_time crossing_times x rest) as [t''|] eqn:Ht''; [|done]. simpl.
    intros [= <-].
    assert (journey crossing_times (p ++ [x]) x (t + w)) as Hj'.
    { eapply journey_step; [done|]. apply move_iff. eauto 10. }
    specialize (IH _ _ _ _ Hj' Ht'').
    rewrite <- app_assoc in IH. simpl in IH.
    by rewrite Z.add_assoc, default_last_cons.
Qed.

(** A path that passes the check is a journey. *)
Lemma check_journey p t :
  check_path crossing_times p = Some t → ∃ c, journey crossing_times p c t.
Proof.
  destruct p as [|c rest]; simpl; [done|]. case_bool_decide as Hc; [|done].
  subst c. intros Ht.
  exists (default (initial_state crossing_times) (last rest)).
  apply (route_time_journey [initial_state crossing_times]
           (initial_state crossing_times) 0 rest t); [constructor|done].
Qed.

(** The shape of a journey, index by index. *)
Lemma journey_shape p c t :
  journey crossing_times p c t →
  p !! 0%nat = Some (initial_state crossing_times)
  ∧ Forall (partitioned crossing_times) p
  ∧ ∀ i a b, p !! i = Some a → p !! Datatypes.S i = Some b → valid_step a b.
Proof.
  induction 1 as [|p c t w c' Hj (H0 & Hall & Hsteps) Hm].
  - split_and!; [done| |by intros [|?]].
    apply Forall_singleton, initial_partitioned.
  - pose proof (journey_last _ _ _ _ Hj) as Hlast.
    pose proof (journey_partitioned _ _ _ _ Hj) as Hpart.
    split_and!.
    + by apply lookup_app_l_Some.
    + apply Forall_app. split; [done|].
      apply Forall_singleton. by eapply move_partitioned.
    + intros i a b Ha Hb.
      destruct (decide (Datatypes.S i < length p)%nat) as [Hlt|Hge].
      { rewrite lookup_app_l in Ha, Hb by lia. eauto. }
      assert (length p = Datatypes.S i) as Hlen.
      { apply lookup_lt_Some in Hb. rewrite length_app in Hb. simpl in Hb. lia. }
      rewrite lookup_app_l in Ha by lia.
      rewrite lookup_app_r, Hlen, Nat.sub_diag in Hb by lia. simpl in Hb.
      injection Hb as <-.
      rewrite last_lookup, Hlen in Hlast. simpl in Hlast.
      rewrite Hlast in Ha. injection Ha as <-.
      destruct Hm as [s e g ? ? ? ?|s e g ? ? ? ?]; exists g; simpl; done.
Qed.

End check.

(** * Properties of the solvers *)

Section solvers_facts.
Context {order : IterOrder} {hq : Heapq}.
Variable crossing_times : gmap string Z.
Variable time_limit : Z.
Lemma bfs_reachable_paths_inv st :
  reachable (bfs_iteration crossing_times time_limit) (bfs_init crossing_times) st →
  bfs_paths_inv crossing_times time_limit st.
Proof.
  apply reachable_inv; [apply bfs_init_paths_inv|].
  intros s s' Hs Hbody.
  pose proof (bfs_iteration_partial crossing_times time_limit s Hs) as Hp.
  by rewrite Hbody in Hp.
Qed.

Lemma dfs_reachable_paths_inv st :
  reachable (dfs_iteration crossing_times time_limit) (dfs_init crossing_times) st →
  dfs_paths_inv crossing_times time_limit st.
Proof.
  apply reachable_inv; [apply dfs_init_paths_inv|].
  intros s s' Hs Hbody.
  pose proof (dfs_iteration_partial crossing_times time_limit s Hs) as Hp.
  by rewrite Hbody in Hp.
Qed.

(** Whatever the durations and the fuel: what the priority-queue solver
    returns is sound, and comes with the map of the state it exits from. *)
Lemma bfs_returns_sound fuel r :
  solve_bridge_problem_bfs crossing_times time_limit fuel = Returns r →
  sound_result crossing_times time_limit r
  ∧ ∃ st, reachable (bfs_iteration crossing_times time_limit)
            (bfs_init crossing_times) st
          ∧ r.2 = visited_times st
          ∧ (r.1.1 = None → heap_items (pq st) = []).
Proof.
  intros (st & Hst & Hbody)%while_loop_exit.
  pose proof (bfs_iteration_partial crossing_times time_limit st
    (bfs_reachable_paths_inv st Hst)) as Hp.
  rewrite Hbody in Hp. destruct Hp as (? & ? & ?). eauto.
Qed.

Lemma dfs_returns_sound fuel r :
  solve_bridge_problem_dfs crossing_times time_limit fuel = Returns r →
  sound_result crossing_times time_limit r
  ∧ ∃ st, reachable (dfs_iteration crossing_times time_limit)
            (dfs_init crossing_times) st
          ∧ stack st = []
          ∧ r = (min_total_time st, best_path st, visited_states st).
Proof.
  intros (st & Hst & Hbody)%while_loop_exit.
  pose proof (dfs_iteration_partial crossing_times time_limit st
    (dfs_reachable_paths_inv st Hst)) as Hp.
  rewrite Hbody in Hp. destruct Hp as (? & ? & ?). eauto.
Qed.

Lemma bfs_never_raises fuel e :
  solve_bridge_problem_bfs crossing_times time_limit fuel ≠ Raises e.
Proof.
  apply (while_loop_no_raise _ (bfs_paths_inv crossing_times time_limit));
    [|apply bfs_init_paths_inv].
  intros s Hs. pose proof (bfs_iteration_partial crossing_times time_limit s Hs).
  by destruct (bfs_iteration crossing_times time_limit s) as [[?|?]|?].
Qed.

Lemma dfs_never_raises fuel e :
  solve_bridge_problem_dfs crossing_times time_limit fuel ≠ Raises e.
Proof.
  apply (while_loop_no_raise _ (dfs_paths_inv crossing_times time_limit));
    [|apply dfs_init_paths_inv].
  intros s Hs. pose proof (dfs_iteration_partial crossing_times time_limit s Hs).
  by destruct (dfs_iteration crossing_times time_limit s) as [[?|?]|?].
Qed.

(** Two optimal results carry the same time. *)
Lemma optimal_result_time (r r' : result) :
  optimal_result crossing_times time_limit r →
  optimal_result crossing_times time_limit r' →
  r.1.1 = r'.1.1.
Proof.
  unfold optimal_result.
  destruct r as [[[t|] [p|]] vis], r' as [[[t'|] [p'|]] vis']; simpl; try done.
  - intros [Hs Hmin] [Hs' Hmin']. f_equal.
    pose proof (Hmin _ _ Hs'). pose proof (Hmin' _ _ Hs). lia.
  - intros [Hs _] Hno. by destruct (Hno _ _ Hs).
  - intros Hno [Hs _]. by destruct (Hno _ _ Hs).
Qed.

End solvers_facts.

(** * The shortest journeys *)

Section short_journeys.
Variable crossing_times : gmap string Z.
Lemma journey_min_time m p c t :
  (∀ x d, crossing_times !! x = Some d → m ≤ d) →
  journey crossing_times p c t →
  (1 ≤ length p)%nat ∧ m * Z.of_nat (length p - 1) ≤ t.
Proof.
  intros Hm. induction 1 as [|p c t w c' Hj [Hlen IH] Hmove]; simpl; [lia|].
  rewrite length_app. simpl. split; [lia|].
  assert (m ≤ w).
  { destruct Hmove as [? ? ? ? _ _ [(x & _ & Hx) _]|? ? ? ? _ _ [(x & _ & Hx) _]];
      by eapply Hm. }
  replace (length p + 1 - 1)%nat with (Datatypes.S (length p - 1)) by lia.
  lia.
Qed.

Lemma journey_side p c t :
  journey crossing_times p c t →
  c.2 = if Nat.even (length p) then AtEnd else AtStart.
Proof.
  induction 1 as [|p c t w c' Hj IH Hmove]; [done|].
  rewrite (move_flips _ _ _ _ Hmove). unfold move_to_pos. rewrite IH.
  rewrite length_app. simpl. rewrite Nat.add_1_r, Nat.even_succ, <- Nat.negb_even.
  by destruct (Nat.even (length p)).
Qed.

Lemma journey_complete_side p c t :
  dom crossing_times ≠ ∅ →
  journey crossing_times p c t → complete c → c.2 = AtEnd.
Proof.
  intros Hne. destruct 1 as [|p c t w c' Hj Hmove]; unfold complete; simpl.
  - done.
  - destruct Hmove as [s e g ? _ _ _|s e g ? _ Hsz _]; simpl; [done|].
    intros Hempty. assert (g = ∅) as -> by set_solver.
    rewrite size_empty in Hsz. lia.
Qed.

(** With everybody taking at least [m > 0], a complete path of time less
    than [3 * m] is the direct crossing of everybody at once. *)
Lemma direct_crossing m p c t :
  dom crossing_times ≠ ∅ → 0 < m →
  (∀ x d, crossing_times !! x = Some d → m ≤ d) →
  journey crossing_times p c t → complete c → t < 3 * m →
  p = [initial_state crossing_times; (∅, dom crossing_times, AtEnd)]
  ∧ m ≤ t.
Proof.
  intros Hne Hm Hall Hj Hgoal Ht.
  destruct (journey_min_time m _ _ _ Hall Hj) as [Hlen Hmin].
  pose proof (journey_side _ _ _ Hj) as Hside.
  pose proof (journey_complete_side _ _ _ Hne Hj Hgoal) as Hend.
  rewrite Hend in Hside.
  destruct (journey_shape _ _ _ _ Hj) as (H0 & _ & _).
  pose proof (journey_last _ _ _ _ Hj) as Hlast.
  pose proof (journey_partitioned _ _ _ _ Hj) as [Hd Hu].
  destruct p as [|a [|b [|? p]]]; simpl in *; try done.
  - simplify_eq. split; [|lia]. do 2 f_equal.
    destruct c as [[s e] pos]. unfold complete in Hgoal. simpl in *. subst.
    do 2 f_equal. set_solver.
  - destruct p; simpl in *; [done|]. nia.
Qed.

End short_journeys.

(** * The runtime chosen does not matter for the time returned *)

Lemma reference_time_spec {order : IterOrder} {hq : Heapq}
    (crossing_times : gmap string Z) (time_limit : Z) (fuel : nat) (best : option Z) :
  durations_nonneg crossing_times →
  (search_fuel crossing_times time_limit ≤ fuel)%nat →
  reference_time crossing_times time_limit = Some best →
  (∃ r, solve_bridge_problem_bfs crossing_times time_limit fuel = Returns r
        ∧ r.1.1 = best ∧ optimal_result crossing_times time_limit r)
  ∧ (∃ r, solve_bridge_problem_dfs crossing_times time_limit fuel = Returns r
          ∧ r.1.1 = best ∧ optimal_result crossing_times time_limit r).
Proof.
  intros Hnn Hfuel. unfold reference_time.
  destruct (dfs_total_correct (order := elements_order) crossing_times time_limit Hnn
    (search_fuel crossing_times time_limit)) as (r0 & -> & Hopt0 & _); [done|].
  intros [= <-].
  destruct (bfs_total_correct crossing_times time_limit Hnn fuel Hfuel)
    as (r1 & Hrun1 & Hopt1 & _).
  destruct (dfs_total_correct crossing_times time_limit Hnn fuel Hfuel)
    as (r2 & Hrun2 & Hopt2 & _).
  split; eexists; (split; [done|]); (split; [|done]);
    by eapply optimal_result_time.
Qed.

Lemma optimal_result_Some (crossing_times : gmap string Z) (time_limit : Z)
    (r : result) (best : Z) :
  optimal_result crossing_times time_limit r → r.1.1 = Some best →
  ∃ p vis, r = (Some best, Some p, vis)
           ∧ solution crossing_times time_limit p best.
Proof.
  destruct r as [[[t|] [p|]] vis]; unfold optimal_result; simpl; try done.
  intros [Hsol _] [= ->]. eauto.
Qed.

Lemma optimal_result_None (crossing_times : gmap string Z) (time_limit : Z)
    (r : result) :
  optimal_result crossing_times time_limit r → r.1.1 = None →
  ∃ vis, r = (None, None, vis).
Proof.
  destruct r as [[[t|] [p|]] vis]; unfold optimal_result; simpl; try done.
  eauto.
Qed.

Lemma durations_nonneg_decide (crossing_times : gmap string Z) :
  bool_decide (map_Forall (λ _ d, 0 ≤ d) crossing_times) = true →
  durations_nonneg crossing_times.
Proof. intros H%bool_decide_eq_true. exact H. Qed.

Lemma four_people_nonneg : durations_nonneg four_people.
Proof. apply durations_nonneg_decide. vm_compute. reflexivity. Qed.

Lemma two_people_nonneg : durations_nonneg two_people.
Proof. apply durations_nonneg_decide. vm_compute. reflexivity. Qed.

Lemma four_people_reference_60 : reference_time four_people 60 = Some (Some 60).
Proof. vm_compute. reflexivity. Qed.

Lemma four_people_reference_15 : reference_time four_people 15 = Some None.
Proof. vm_compute. reflexivity. Qed.

Lemma two_people_reference_2 : reference_time two_people 2 = Some (Some 2).
Proof. vm_compute. reflexivity. Qed.

Lemma four_people_fuel :
  (search_fuel four_people 15 ≤ search_fuel four_people 60)%nat.
Proof. apply Nat.leb_le. vm_compute. reflexivity. Qed.

Lemma two_people_dom : dom two_people = {[ "A"%string; "B"%string ]}.
Proof. unfold two_people. rewrite dom_insert_L, dom_singleton_L. done. Qed.

Lemma two_people_min x d : two_people !! x = Some d → 1 ≤ d.
Proof.
  unfold two_people. intros [[_ <-]|[_ [_ <-]%lookup_singleton_Some]]%lookup_insert_Some; lia.
Qed.

(** * One person, and nobody *)

Section single_person.
Variables (x : string) (d : Z).
Hypothesis Hd : 0 < d.
Let alone : gmap string Z := {[ x := d ]}.
Lemma alone_dom : dom alone = {[ x ]}.
Proof. apply dom_singleton_L. Qed.

Lemma alone_min y e : alone !! y = Some e → d ≤ e.
Proof. intros [_ <-]%lookup_singleton_Some. lia. Qed.

Lemma alone_nonneg : durations_nonneg alone.
Proof. intros y e He%alone_min. lia. Qed.

Lemma alone_direct :
  journey alone [initial_state alone; (∅, {[ x ]}, AtEnd)] (∅, {[ x ]}, AtEnd) d.
Proof.
  assert (move alone (initial_state alone) d (∅, {[ x ]}, AtEnd)) as Hm.
  { unfold initial_state. rewrite alone_dom.
    replace (∅ : gset string) with ({[ x ]} ∖ {[ x ]} : gset string) at 2 by set_solver.
    replace ({[ x ]} : gset string) with (∅ ∪ {[ x ]} : gset string) at 4 by set_solver.
    constructor; [done|left; apply size_singleton|].
    split.
    - exists x. split; [set_solver|apply lookup_singleton_eq].
    - intros y ->%elem_of_singleton. exists d. split; [apply lookup_singleton_eq|lia]. }
  apply (journey_step alone [initial_state alone] _ 0 d _ (journey_start alone) Hm).
Qed.

(** Every solution for one person is the direct crossing. *)
Lemma alone_solution time_limit p t :
  solution alone time_limit p t →
  d ≤ time_limit ∧ (t ≤ d → t = d ∧ p = [initial_state alone; (∅, {[ x ]}, AtEnd)]).
Proof.
  intros (c & Hj & Hgoal & Hle).
  assert (dom alone ≠ ∅) as Hne by (rewrite alone_dom; set_solver).
  destruct (journey_min_time alone d _ _ _ alone_min Hj) as [Hlen Hmin].
  assert (2 ≤ length p)%nat.
  { destruct (decide (length p = 1)%nat) as [H1|]; [|lia].
    pose proof (journey_side _ _ _ _ Hj) as Hside. rewrite H1 in Hside.
    rewrite (journey_complete_side _ _ _ _ Hne Hj Hgoal) in Hside.
    simpl in Hside. discriminate. }
  split; [nia|]. intros Htd.
  destruct (direct_crossing alone d _ _ _ Hne Hd alone_min Hj Hgoal) as [-> ?]; [lia|].
  rewrite alone_dom. split; [lia|done].
Qed.

End single_person.

(** With nobody to move, the initial configuration is already complete. *)

Lemma heappop_new {hq : Heapq} (e : Z * path) :
  ∃ q', heappop (heap_new e) = Some (e, q').
Proof.
  destruct (heappop (heap_new e)) as [[e' q']|] eqn:Hpop.
  - apply heappop_Some in Hpop as [Hperm _]. rewrite heap_items_new in Hperm.
    apply Permutation_singleton_l in Hperm. injection Hperm as <- _. eauto.
  - apply heappop_None in Hpop. by rewrite heap_items_new in Hpop.
Qed.

Lemma bfs_nobody {order : IterOrder} {hq : Heapq} (time_limit : Z) (fuel : nat) :
  0 ≤ time_limit → (1 ≤ fuel)%nat →
  solve_bridge_problem_bfs ∅ time_limit fuel
  = Returns (Some 0, Some [(∅, ∅, AtStart)], {[ (∅, ∅, AtStart) := 0 ]}).
Proof.
  intros Hlim Hfuel. destruct fuel as [|fuel]; [lia|].
  unfold solve_bridge_problem_bfs, bfs_init, initial_state. rewrite dom_empty_L.
  simpl. unfold bfs_iteration. simpl.
  destruct (heappop_new (0, [(∅, ∅, AtStart)])) as [q' ->]. simpl.
  rewrite decide_True by done. by rewrite bool_decide_true.
Qed.

Lemma dfs_nobody {order : IterOrder} (time_limit : Z) (fuel : nat) :
  0 ≤ time_limit → (2 ≤ fuel)%nat →
  solve_bridge_problem_dfs ∅ time_limit fuel
  = Returns (Some 0, Some [(∅, ∅, AtStart)], {[ (∅, ∅, AtStart) := 0 ]}).
Proof.
  intros Hlim Hfuel. destruct fuel as [|[|fuel]]; [lia..|].
  unfold solve_bridge_problem_dfs, dfs_init, initial_state. rewrite dom_empty_L.
  simpl. unfold dfs_iteration at 1. simpl.
  rewrite decide_True by done. rewrite bool_decide_true by done. simpl.
  done.
Qed.

Lemma print_each_all (body : nat → exc (list line))
    (f : nat → config * config → list line)
    (pairs : list (config * config)) (k : nat) :
  (∀ j ab, pairs !! j = Some ab → body (k + j)%nat = Ok (f (k + j)%nat ab)) →
  print_each body (seq k (length pairs))
  = (concat (imap (λ j, f (k + j)%nat) pairs), None).
Proof.
  revert k. induction pairs as [|ab pairs IH]; intros k Hbody; [done|].
  pose proof (Hbody 0%nat ab eq_refl) as H0. rewrite Nat.add_0_r in H0.
  rewrite imap_cons, Nat.add_0_r. cbn [length seq print_each concat].
  rewrite H0, (IH (Datatypes.S k)).
  - do 3 f_equal. apply imap_ext. intros j ? _. simpl. f_equal. lia.
  - intros j ab' Hj.
    replace (Datatypes.S k + j)%nat with (k + Datatypes.S j)%nat by lia.
    by apply Hbody.
Qed.

Lemma report_step_rendered (p : path) (vis : gmap config Z) (i : nat) (prev next : config) :
  Forall (λ c, is_Some (vis !! c)) p →
  zip p (tail p) !! i = Some (prev, next) →
  report_step p vis i = Ok (rendered_step vis i prev next).
Proof.
  intros Hall Hi.
  assert (p !! i = Some prev ∧ p !! (i + 1)%nat = Some next) as [Hprev Hnext].
  { apply lookup_zip_with_Some in Hi as (a & b & [= -> ->] & Ha & Hb).
    split; [done|]. rewrite lookup_tail in Hb. by rewrite Nat.add_1_r. }
  rewrite Forall_forall in Hall.
  destruct (Hall prev) as [tp Htp]; [by eapply list_elem_of_lookup_2|].
  destruct (Hall next) as [tn Htn]; [by eapply list_elem_of_lookup_2|].
  unfold report_step, index, getitem, rendered_step, moved_people.
  rewrite Hprev. simpl. rewrite Hnext. simpl. rewrite Htn. simpl. rewrite Htp.
  simpl. done.
Qed.

(** * The theorems at concrete inputs *)

Lemma check_path_journey_last (crossing_times : gmap string Z) (p : path)
    (c : config) (t : Z) :
  check_path crossing_times p = Some t → last p = Some c →
  journey crossing_times p c t.
Proof.
  intros [c' Hj]%check_journey Hlast.
  rewrite (journey_last _ _ _ _ Hj) in Hlast. by injection Hlast as <-.
Qed.

Lemma check_solution_sound (crossing_times : gmap string Z) (time_limit : Z)
    (p : path) (t : Z) :
  check_solution crossing_times time_limit p t = true →
  solution crossing_times time_limit p t.
Proof.
  unfold check_solution.
  intros [[Hc%bool_decide_eq_true Hl]%andb_true_iff Ht%bool_decide_eq_true]%andb_true_iff.
  destruct (last p) as [c|] eqn:Hlast; [|done]. apply bool_decide_eq_true in Hl.
  exists c. split_and!; [by apply check_path_journey_last|done|done].
Qed.

Lemma canonical_strategy_solution : solution four_people 60 canonical_strategy 60.
Proof. apply check_solution_sound. vm_compute. reflexivity. Qed.

Lemma four_people_15_unsolvable p t : ¬ solution four_people 15 p t.
Proof.
  destruct (reference_time_spec (order := elements_order) (hq := list_heapq)
    four_people 15 _ _ four_people_nonneg (Nat.le_refl _) four_people_reference_15)
    as [(r & _ & Ht & Ho) _].
  unfold optimal_result in Ho. rewrite Ht in Ho.
  destruct (r.1.2); [done|]. apply Ho.
Qed.

Lemma returned_path_Some (r : run result) (p : path) :
  returned_path r = Some p → ∃ t vis, r = Returns (t, Some p, vis).
Proof.
  destruct r as [[[t [p'|]] vis]| |]; simpl; try done. intros [= ->]. eauto.
Qed.

Lemma four_people_returns_path :
  is_Some (returned_path
    (@solve_bridge_problem_bfs elements_order list_heapq four_people 60 2000)).
Proof. apply (bool_decide_unpack _). vm_compute. exact I. Qed.

(** * Further facts about the searches and the reporter *)

Lemma improved_refl (v : gmap config Z) : improved v v.
Proof. intros c u Hc. exists u. split; [done|lia]. Qed.

Section recorded.
Context {order : IterOrder}.
Variable crossing_times : gmap string Z.
Variable time_limit : Z.

Lemma path_recorded_improved (v v' : gmap config Z) (p : path) :
  improved v v' → path_recorded crossing_times v p → path_recorded crossing_times v' p.
Proof.
  intros Himp Hp i c Hi. destruct (Hp i c Hi) as (u & t & Hu & Ht & Hle).
  destruct (Himp c u Hu) as (u' & Hu' & Hle'). exists u', t. split_and!; [done..|lia].
Qed.

Lemma path_recorded_initial :
  path_recorded crossing_times {[ initial_state crossing_times := 0 ]}
    [initial_state crossing_times].
Proof.
  intros [|i] c Hi; [|done]. injection Hi as <-. exists 0, 0.
  rewrite lookup_singleton_eq. simpl. rewrite bool_decide_true by done. done.
Qed.

Lemma map_recorded_initial :
  map_recorded crossing_times time_limit {[ initial_state crossing_times := 0 ]}.
Proof.
  intros c u [<- <-]%lookup_singleton_Some. split; [|by right].
  eexists. constructor.
Qed.

Lemma path_recorded_snoc (v : gmap config Z) (p : path) (c c' : config) (t w u : Z) :
  journey crossing_times p c t → move crossing_times c w c' →
  path_recorded crossing_times v p → v !! c' = Some u → u ≤ t + w →
  path_recorded crossing_times v (p ++ [c']).
Proof.
  intros Hj Hm Hp Hu Hle i x Hi.
  destruct (decide (i < length p)%nat) as [Hlt|Hge].
  - rewrite lookup_app_l in Hi by done.
    rewrite take_app_le by lia. by apply Hp.
  - assert (i = length p) as ->.
    { apply lookup_lt_Some in Hi. rewrite length_app in Hi. simpl in Hi. lia. }
    rewrite lookup_app_r, Nat.sub_diag in Hi by lia. injection Hi as <-.
    exists u, (t + w). split_and!; [done| |done].
    rewrite take_ge by (rewrite length_app; simpl; lia).
    apply (journey_check _ _ c'). by eapply journey_step.
Qed.

(** What an exploration leaves: children whose paths are recorded, and a
    map that has only improved. *)
Lemma explore_recorded (t : Z) (p : path) (c : config) (v : gmap config Z) :
  journey crossing_times p c t →
  path_recorded crossing_times v p → map_recorded crossing_times time_limit v →
  ∃ v' kids,
    explore crossing_times time_limit append_move t p c (v, []) = Ok (v', kids)
    ∧ Forall (item_ok crossing_times time_limit) kids
    ∧ Forall (λ k, k.1.2 = p ++ [k.2] ∧ k.1.1 ≤ time_limit) kids
    ∧ Forall (item_recorded crossing_times v') kids
    ∧ map_recorded crossing_times time_limit v'
    ∧ improved v v'.
Proof.
  intros Hj Hp Hv. pose proof (journey_partitioned _ _ _ _ Hj) as Hpart.
  destruct (explore_spec crossing_times time_limit t p c v 0 Hpart)
    as (v' & kids & Hrun & HK & Hnew & Himp & _).
  exists v', kids. split; [done|].
  assert (improved v v') as Himp' by exact Himp.
  split_and!; [| | | |done].
  - eapply Forall_impl; [exact HK|].
    intros [[t' p'] c'] (w & [= -> ->] & Hm & Hle & _). split; simpl; [|done].
    by eapply journey_step.
  - eapply Forall_impl; [exact HK|].
    intros [[t' p'] c'] (w & [= -> ->] & _ & Hle & _). done.
  - eapply Forall_impl; [exact HK|].
    intros [[t' p'] c'] (w & [= -> ->] & Hm & _ & u & Hu & Hle).
    unfold item_recorded. simpl.
    eapply path_recorded_snoc; [done..| |done|done].
    by eapply path_recorded_improved.
  - intros x u Hx. destruct (Hnew x u Hx) as [Hold|Hin]; [by apply Hv|].
    rewrite Forall_forall in HK.
    destruct (HK _ Hin) as (w & Heq & Hm & Hle & _). simpl in *.
    assert (u = t + w) as -> by congruence.
    split; [|by left]. eexists. by eapply journey_step.
Qed.

Lemma dfs_iteration_recorded (st : dfs_state) :
  dfs_recorded_inv crossing_times time_limit st →
  match dfs_iteration crossing_times time_limit st with
  | Raise _ => False
  | Ok (inl r) => stack st = [] ∧ r = (min_total_time st, best_path st, visited_states st)
  | Ok (inr st') =>
      dfs_recorded_inv crossing_times time_limit st'
      ∧ improved (visited_states st) (visited_states st')
  end.
Proof.
  intros [Hpaths (Hitems & Hbest & Hmap)].
  pose proof (dfs_iteration_partial crossing_times time_limit st Hpaths) as Hpart.
  destruct Hpaths as [Hok _].
  unfold dfs_iteration in *.
  destruct (pop_last (stack st)) as [[stack' [[t p] c]]|] eqn:Hpop.
  - apply pop_last_Some in Hpop. rewrite Hpop in Hitems, Hok.
    apply Forall_app in Hitems as [Hrest [Hp _]%Forall_cons].
    apply Forall_app in Hok as [_ [[Hj _] _]%Forall_cons]. simpl in *.
    unfold dfs_recorded_inv, recorded_inv.
    destruct (decide (c.1.1 = ∅)) as [Hgoal|Hgoal].
    { destruct (below t (min_total_time st) && bool_decide (t ≤ time_limit));
        simpl in *; (split; [|apply improved_refl]); (split; [done|]);
        split_and!; try done.
      by intros ? [= <-]. }
    destruct (negb (below t (min_total_time st)) || bool_decide (t > time_limit));
      simpl in *; [by split; [|apply improved_refl]|].
    destruct (stale (visited_states st) c t); simpl in *;
      [by split; [|apply improved_refl]|].
    destruct (explore_recorded t p c (visited_states st) Hj Hp Hmap)
      as (v' & kids & Hrun & _ & _ & Hkids & Hmap' & Himp).
    rewrite Hrun in *. simpl in *. split; [|done]. split; [done|].
    split_and!; [|by eauto using path_recorded_improved|done].
    apply Forall_app. split.
    + eapply Forall_impl; [exact Hrest|]. intros k. by apply path_recorded_improved.
    + by rewrite (sorted_desc_perm _ kids).
  - apply pop_last_None in Hpop. done.
Qed.

Lemma dfs_init_recorded_inv :
  dfs_recorded_inv crossing_times time_limit (dfs_init crossing_times).
Proof.
  split; [apply dfs_init_paths_inv|]. split_and!; [|done|apply map_recorded_initial].
  apply Forall_singleton, path_recorded_initial.
Qed.

Section with_heap.
Context {hq : Heapq}.
Lemma bfs_iteration_recorded (st : bfs_state) :
  bfs_recorded_inv crossing_times time_limit st →
  match bfs_iteration crossing_times time_limit st with
  | Raise _ => False
  | Ok (inl r) =>
      r.2 = visited_times st
      ∧ ∀ p, r.1.2 = Some p → path_recorded crossing_times (visited_times st) p
  | Ok (inr st') =>
      bfs_recorded_inv crossing_times time_limit st'
      ∧ improved (visited_times st) (visited_times st')
  end.
Proof.
  intros [Hpaths (Hitems & _ & Hmap)]. unfold bfs_iteration.
  destruct (heappop (pq st)) as [[[t p] pq']|] eqn:Hpop.
  - apply heappop_Some in Hpop as [Hperm _].
    unfold bfs_paths_inv, bfs_items in Hpaths, Hitems.
    rewrite Hperm, fmap_cons in Hpaths. rewrite Hperm, fmap_cons in Hitems.
    apply Forall_cons in Hpaths as [[Hj _] Hokrest].
    apply Forall_cons in Hitems as [Hp Hrest].
    unfold item_recorded, entry_item in Hj, Hp. simpl in *.
    pose proof (journey_last _ _ _ _ Hj) as Hlast.
    destruct (last p) as [c|] eqn:Hlp; [clear Hlast|done]. simpl in *.
    unfold bfs_recorded_inv, recorded_inv, bfs_paths_inv.
    destruct (decide (c.1.1 = ∅)) as [Hgoal|Hgoal].
    { case_bool_decide as Hlim; simpl in *.
      - split; [done|]. by intros ? [= <-].
      - split; [done|apply improved_refl]. }
    destruct (stale (visited_times st) c t); simpl in *;
      [by split; [|apply improved_refl]|].
    destruct (explore_recorded t p c (visited_times st) Hj Hp Hmap)
      as (v' & kids & Hrun & Hok & Hshape & Hkids & Hmap' & Himp).
    rewrite explore_emit, Hrun. simpl. split; [|done].
    rewrite (bfs_items_emit_all time_limit pq' p kids Hshape).
    split_and!; [by apply Forall_app| |done|done].
    apply Forall_app. split; [done|].
    eapply Forall_impl; [exact Hrest|]. intros k. by apply path_recorded_improved.
  - simpl. split; [done|]. done.
Qed.

Lemma bfs_init_recorded_inv :
  bfs_recorded_inv crossing_times time_limit (bfs_init crossing_times).
Proof.
  split; [apply bfs_init_paths_inv|]. split_and!; [|done|apply map_recorded_initial].
  unfold bfs_init, bfs_items. simpl. rewrite heap_items_new.
  apply Forall_singleton, path_recorded_initial.
Qed.

End with_heap.

End recorded.

Lemma improved_trans (v1 v2 v3 : gmap config Z) :
  improved v1 v2 → improved v2 v3 → improved v1 v3.
Proof.
  intros H12 H23 c u Hc. destruct (H12 c u Hc) as (u' & Hc' & Hle).
  destruct (H23 c u' Hc') as (u'' & Hc'' & Hle'). exists u''. split; [done|lia].
Qed.

Section recorded_results.
Context {order : IterOrder} {hq : Heapq}.
Variable crossing_times : gmap string Z.
Variable time_limit : Z.

Lemma bfs_reachable_recorded (st : bfs_state) :
  reachable (bfs_iteration crossing_times time_limit) (bfs_init crossing_times) st →
  bfs_recorded_inv crossing_times time_limit st
  ∧ improved {[ initial_state crossing_times := 0 ]} (visited_times st).
Proof.
  apply (reachable_inv _ (λ st, bfs_recorded_inv crossing_times time_limit st
    ∧ improved {[ initial_state crossing_times := 0 ]} (visited_times st))).
  - split; [apply bfs_init_recorded_inv|apply improved_refl].
  - intros s s' [Hs Himp] Hbody.
    pose proof (bfs_iteration_recorded crossing_times time_limit s Hs) as Hp.
    rewrite Hbody in Hp. destruct Hp as [Hs' Himp']. split; [done|].
    by eapply improved_trans.
Qed.

Lemma dfs_reachable_recorded (st : dfs_state) :
  reachable (dfs_iteration crossing_times time_limit) (dfs_init crossing_times) st →
  dfs_recorded_inv crossing_times time_limit st
  ∧ improved {[ initial_state crossing_times := 0 ]} (visited_states st).
Proof.
  apply (reachable_inv _ (λ st, dfs_recorded_inv crossing_times time_limit st
    ∧ improved {[ initial_state crossing_times := 0 ]} (visited_states st))).
  - split; [apply dfs_init_recorded_inv|apply improved_refl].
  - intros s s' [Hs Himp] Hbody.
    pose proof (dfs_iteration_recorded crossing_times time_limit s Hs) as Hp.
    rewrite Hbody in Hp. destruct Hp as [Hs' Himp']. split; [done|].
    by eapply improved_trans.
Qed.

Lemma bfs_returns_recorded (fuel : nat) (r : result) :
  solve_bridge_problem_bfs crossing_times time_limit fuel = Returns r →
  result_recorded crossing_times time_limit r.
Proof.
  intros (st & Hst & Hbody)%while_loop_exit.
  destruct (bfs_reachable_recorded st Hst) as [Hinv Himp].
  pose proof (bfs_iteration_recorded crossing_times time_limit st Hinv) as Hp.
  rewrite Hbody in Hp. destruct Hp as [Hvis Hpath].
  destruct Hinv as (_ & _ & _ & Hmap). unfold result_recorded. rewrite Hvis. done.
Qed.

Lemma dfs_returns_recorded (fuel : nat) (r : result) :
  solve_bridge_problem_dfs crossing_times time_limit fuel = Returns r →
  result_recorded crossing_times time_limit r.
Proof.
  intros (st & Hst & Hbody)%while_loop_exit.
  destruct (dfs_reachable_recorded st Hst) as [Hinv Himp].
  pose proof (dfs_iteration_recorded crossing_times time_limit st Hinv) as Hp.
  rewrite Hbody in Hp. destruct Hp as [_ ->].
  destruct Hinv as (_ & _ & Hbest & Hmap). done.
Qed.

End recorded_results.

(** ** The reporter on a path that the map records *)

Lemma path_recorded_is_Some (crossing_times : gmap string Z) (v : gmap config Z)
    (p : path) :
  path_recorded crossing_times v p → Forall (λ c, is_Some (v !! c)) p.
Proof.
  intros Hp. apply Forall_lookup. intros i c Hi.
  destruct (Hp i c Hi) as (u & _ & -> & _). done.
Qed.

Lemma print_bridge_solution_rendered (total_time : option Z) (times : gmap string Z)
    (arrival_time_map : gmap config Z) (algorithm_name : string) (p : path) :
  Forall (λ c, is_Some (arrival_time_map !! c)) p → p ≠ [] →
  print_bridge_solution total_time (Some p) times arrival_time_map algorithm_name
  = (Banner algorithm_name :: Found total_time :: Rule
       :: concat (imap (λ i pair, rendered_step arrival_time_map i pair.1 pair.2)
                    (zip p (tail p))),
     None).
Proof.
  intros Hall Hne.
  destruct p as [|c rest]; [done|]. unfold print_bridge_solution.
  assert (length (c :: rest) - 1 = length (zip (c :: rest) (tail (c :: rest))))%nat
    as ->.
  { rewrite length_zip_with. cbn [tail length]. lia. }
  rewrite (print_each_all _ (λ i pair, rendered_step arrival_time_map i pair.1 pair.2)).
  - done.
  - intros j [prev next] Hj. simpl. by apply report_step_rendered.
Qed.

Lemma print_bridge_solution_recorded (crossing_times : gmap string Z)
    (total_time : option Z) (times : gmap string Z) (vis : gmap config Z)
    (algorithm_name : string) (p : option path) :
  (∀ q, p = Some q → path_recorded crossing_times vis q) →
  (print_bridge_solution total_time p times vis algorithm_name).2 = None.
Proof.
  intros Hp. destruct p as [[|c rest]|]; [done| |done].
  rewrite (print_bridge_solution_rendered _ _ _ _ (c :: rest)); [done| |done].
  eapply path_recorded_is_Some. by apply Hp.
Qed.

(** ** Cutting a checked path in two *)
Section cut.
Variable crossing_times : gmap string Z.

Lemma route_time_app (c : config) (l1 l2 : path) (T : Z) :
  route_time crossing_times c (l1 ++ l2) = Some T →
  ∃ t s, route_time crossing_times c l1 = Some t
         ∧ route_time crossing_times (default c (last l1)) l2 = Some s
         ∧ T = t + s.
Proof.
  revert c T. induction l1 as [|x l1 IH]; intros c T; simpl.
  - intros HT. exists 0, T. split_and!; [done..|lia].
  - case_bool_decide; [|done].
    destruct (trip_time crossing_times _) as [w|]; [|done]. simpl.
    destruct (route_time crossing_times x (l1 ++ l2)) as [T'|] eqn:HT'; [|done].
    simpl. intros [= <-].
    destruct (IH x T' HT') as (t & s & -> & Hs & ->).
    exists (w + t), s. rewrite default_last_cons. simpl. split_and!; [done..|lia].
Qed.

Lemma check_path_cut (p : path) (T : Z) (i : nat) (c : config) :
  check_path crossing_times p = Some T → p !! i = Some c →
  ∃ t s, check_path crossing_times (take (Datatypes.S i) p) = Some t
         ∧ route_time crossing_times c (drop (Datatypes.S i) p) = Some s
         ∧ T = t + s.
Proof.
  intros HT Hi. rewrite <- (take_drop (Datatypes.S i) p) in HT.
  destruct p as [|c0 rest]; [done|]. simpl in *.
  case_bool_decide; [|done].
  destruct (route_time_app _ _ _ _ HT) as (t & s & Ht & Hs & ->).
  exists t, s. split_and!; [done| |done].
  replace (default c0 (last (take i rest))) with c in Hs; [done|].
  destruct i as [|i]; simpl in *; [by simplify_eq|].
  rewrite last_lookup, length_take, Nat.min_l by (apply lookup_lt_Some in Hi; lia).
  simpl. rewrite lookup_take_lt by lia. by rewrite Hi.
Qed.

(** The cost of one step of a checked path is the trip time of the people
    who crossed. *)
Lemma check_path_step (p : path) (i : nat) (a b : config) (t1 t2 : Z) :
  p !! i = Some a → p !! Datatypes.S i = Some b →
  check_path crossing_times (take (Datatypes.S i) p) = Some t1 →
  check_path crossing_times (take (Datatypes.S (Datatypes.S i)) p) = Some t2 →
  trip_time crossing_times (moved_people a b) = Ok (t2 - t1).
Proof.
  intros Ha Hb H1 H2.
  assert (take (Datatypes.S i) (take (Datatypes.S (Datatypes.S i)) p)
          = take (Datatypes.S i) p) as Htake.
  { rewrite take_take. f_equal. lia. }
  assert (take (Datatypes.S (Datatypes.S i)) p !! i = Some a) as Ha'.
  { rewrite lookup_take_lt by lia. done. }
  destruct (check_path_cut _ _ _ _ H2 Ha') as (t & s & Ht & Hs & ->).
  rewrite Htake, H1 in Ht. injection Ht as <-.
  rewrite skipn_firstn_comm in Hs.
  replace (Datatypes.S (Datatypes.S i) - Datatypes.S i)%nat with 1%nat in Hs by lia.
  erewrite drop_S in Hs by done. simpl in Hs.
  case_bool_decide; [|done].
  destruct (trip_time crossing_times _) as [w|]; [|done].
  injection Hs as <-. f_equal. lia.
Qed.

End cut.

(** ** Results under durations that are not negative, whatever the fuel *)
Section optimal_results.
Context {order : IterOrder} {hq : Heapq}.
Variable crossing_times : gmap string Z.
Variable time_limit : Z.
Hypothesis Hnonneg : durations_nonneg crossing_times.

Lemma bfs_returns_optimal (fuel : nat) (r : result) :
  solve_bridge_problem_bfs crossing_times time_limit fuel = Returns r →
  optimal_result crossing_times time_limit r ∧ visited_ok crossing_times r.2.
Proof.
  intros Hrun.
  destruct (bfs_total_correct crossing_times time_limit Hnonneg
              (fuel `max` search_fuel crossing_times time_limit))
    as (r' & Hrun' & Hopt); [lia|].
  apply (while_loop_mono _ _ (fuel `max` search_fuel crossing_times time_limit))
    in Hrun; [|lia].
  unfold solve_bridge_problem_bfs in Hrun'. rewrite Hrun in Hrun'. by simplify_eq.
Qed.

Lemma dfs_returns_optimal (fuel : nat) (r : result) :
  solve_bridge_problem_dfs crossing_times time_limit fuel = Returns r →
  optimal_result crossing_times time_limit r ∧ visited_ok crossing_times r.2.
Proof.
  intros Hrun.
  destruct (dfs_total_correct crossing_times time_limit Hnonneg
              (fuel `max` search_fuel crossing_times time_limit))
    as (r' & Hrun' & Hopt); [lia|].
  apply (while_loop_mono _ _ (fuel `max` search_fuel crossing_times time_limit))
    in Hrun; [|lia].
  unfold solve_bridge_problem_dfs in Hrun'. rewrite Hrun in Hrun'. by simplify_eq.
Qed.

(** On a fastest solution, a configuration cannot be reached sooner than
    the solution reaches it: so the map records exactly the cumulative
    times of the path. *)
Lemma optimal_path_times (p : path) (T : Z) (vis : gmap config Z) (i : nat) (c : config) :
  solution crossing_times time_limit p T →
  (∀ q T', solution crossing_times time_limit q T' → T ≤ T') →
  path_recorded crossing_times vis p →
  map_recorded crossing_times time_limit vis →
  p !! i = Some c →
  vis !! c = check_path crossing_times (take (Datatypes.S i) p).
Proof.
  intros (cf & Hj & Hcf & Hle) Hopt Hp Hmap Hi.
  destruct (Hp i c Hi) as (u & t & Hu & Ht & Hut). rewrite Hu, Ht. f_equal.
  destruct (Hmap c u Hu) as [[q Hq] _].
  destruct (check_path_cut _ _ _ _ _ (journey_check _ _ _ _ Hj) Hi)
    as (t' & s & Ht' & Hs & ->).
  rewrite Ht in Ht'. injection Ht' as <-.
  pose proof (route_time_journey _ _ _ _ _ _ Hq Hs) as Hq'.
  assert (default c (last (drop (Datatypes.S i) p)) = cf) as Hlast.
  { pose proof (journey_last _ _ _ _ Hj) as Hl.
    rewrite <- (take_drop (Datatypes.S i) p), last_app in Hl.
    destruct (last (drop (Datatypes.S i) p)) as [x|] eqn:Hd; [by simplify_eq|].
    simpl. rewrite last_lookup, length_take, Nat.min_l in Hl
      by (apply lookup_lt_Some in Hi; lia).
    simpl in Hl. rewrite lookup_take_lt in Hl by lia. congruence. }
  rewrite Hlast in Hq'.
  assert (t + s ≤ u + s); [|lia].
  apply (Hopt (q ++ drop (Datatypes.S i) p)). exists cf. split_and!; [done..|lia].
Qed.

End optimal_results.

Lemma four_people_bfs_run :
  ∃ T p vis, @solve_bridge_problem_bfs elements_order list_heapq four_people 60 2000
             = Returns (Some T, Some p, vis).
Proof.
  destruct four_people_returns_path as [p Hp].
  destruct (returned_path_Some _ _ Hp) as (t & vis & Hrun).
  destruct (@bfs_returns_sound elements_order list_heapq four_people 60 2000 _ Hrun)
    as [Hsound _].
  destruct t as [T|]; [|exfalso; exact Hsound].
  exists T, p, vis. exact Hrun.
Qed.

(** ** A search that ends without a solution has computed shortest times *)
Section exhausted.
Context {order : IterOrder} {hq : Heapq}.
Variable crossing_times : gmap string Z.
Variable time_limit : Z.
Hypothesis Hnonneg : durations_nonneg crossing_times.

Lemma bfs_reachable_inv (st : bfs_state) :
  reachable (bfs_iteration crossing_times time_limit) (bfs_init crossing_times) st →
  bfs_inv crossing_times time_limit st.
Proof.
  apply reachable_inv; [by apply bfs_init_inv|].
  intros s s' Hs Hbody.
  pose proof (bfs_iteration_spec crossing_times time_limit Hnonneg s Hs) as Hp.
  rewrite Hbody in Hp. by destruct Hp.
Qed.

Lemma dfs_reachable_inv (st : dfs_state) :
  reachable (dfs_iteration crossing_times time_limit) (dfs_init crossing_times) st →
  dfs_inv crossing_times time_limit st.
Proof.
  apply reachable_inv; [by apply dfs_init_inv|].
  intros s s' Hs Hbody.
  pose proof (dfs_iteration_spec crossing_times time_limit Hnonneg s Hs) as Hp.
  rewrite Hbody in Hp. by destruct Hp.
Qed.

Lemma bfs_returns_None_closed (fuel : nat) (p : option path) (vis : gmap config Z) :
  solve_bridge_problem_bfs crossing_times time_limit fuel = Returns (None, p, vis) →
  search_inv crossing_times time_limit vis [] None.
Proof.
  intros (st & Hst & Hbody)%while_loop_exit.
  pose proof (bfs_reachable_inv st Hst) as Hinv.
  pose proof (bfs_iteration_spec crossing_times time_limit Hnonneg st Hinv) as Hp.
  rewrite Hbody in Hp. destruct Hp as (_ & _ & Hvis & Hempty). simpl in *.
  unfold bfs_inv, bfs_items in Hinv. rewrite Hempty in Hinv by done. by subst vis.
Qed.

Lemma dfs_returns_None_closed (fuel : nat) (p : option path) (vis : gmap config Z) :
  solve_bridge_problem_dfs crossing_times time_limit fuel = Returns (None, p, vis) →
  search_inv crossing_times time_limit vis [] None.
Proof.
  intros (st & Hst & Hbody)%while_loop_exit.
  pose proof (dfs_reachable_inv st Hst) as Hinv.
  pose proof (dfs_iteration_spec crossing_times time_limit Hnonneg st Hinv) as Hp.
  rewrite Hbody in Hp. destruct Hp as (_ & _ & Hempty & Hr).
  destruct Hinv as [Hinv _]. rewrite Hempty in Hinv.
  injection Hr as Hm _ Hvis. by rewrite <- Hm, <- Hvis in Hinv.
Qed.

(** With nothing pending and nothing found, every configuration that can be
    reached within the limit is recorded, at that time or better. *)
Lemma exhausted_complete (v : gmap config Z) (q : path) (c : config) (T : Z) :
  search_inv crossing_times time_limit v [] None →
  journey crossing_times q c T → T ≤ time_limit →
  ∃ u, v !! c = Some u ∧ u ≤ T.
Proof.
  intros (_ & Hv & Hinit) Hj. induction Hj as [|q c t w c' Hj IH Hm]; intros Hle.
  - done.
  - pose proof (move_nonneg _ _ _ _ Hnonneg Hm) as Hw.
    destruct IH as (u & Hu & Hut); [lia|].
    destruct (Hv c u Hu) as (_ & _ & _ & [[p Hin]|[[_ Hclosed]|[Hb|Hover]]]).
    + by apply elem_of_nil in Hin.
    + destruct (Hclosed w c' Hm) as (u' & Hu' & Hle'); [lia|].
      exists u'. split; [done|lia].
    + by destruct Hb as (? & ? & _).
    + lia.
Qed.

Lemma exhausted_shortest (v : gmap config Z) (c : config) (u : Z) :
  search_inv crossing_times time_limit v [] None →
  map_recorded crossing_times time_limit v →
  v !! c = Some u ↔
  shortest_time crossing_times c u ∧ (u ≤ time_limit ∨ c = initial_state crossing_times).
Proof.
  intros Hinv Hmap. split.
  - intros Hu. destruct (Hmap c u Hu) as [[p Hp] Hle]. split.
    + split; [by exists p|]. intros q T Hq.
      destruct (decide (T ≤ time_limit)) as [HT|HT].
      * destruct (exhausted_complete v q c T Hinv Hq HT) as (u' & Hu' & Hle').
        rewrite Hu in Hu'. injection Hu' as <-. done.
      * destruct Hle as [Hle|[_ ->]]; [lia|]. by eapply journey_nonneg.
    + destruct Hle as [?|[? _]]; auto.
  - intros [[[p Hp] Hmin] Hle].
    assert (∃ u', v !! c = Some u' ∧ u' ≤ u) as (u' & Hu' & Hle').
    { destruct Hle as [Hle| ->]; [by eapply exhausted_complete|].
      destruct Hinv as (_ & _ & u0 & Hu0 & Hle0). exists u0. split; [done|].
      specialize (Hmin _ _ (journey_start crossing_times)).
      pose proof (journey_nonneg _ _ _ _ Hnonneg Hp). lia. }
    destruct (Hmap c u' Hu') as [[q Hq] _]. specialize (Hmin _ _ Hq).
    rewrite Hu'. f_equal. lia.
Qed.

End exhausted.

Lemma shortest_time_fun (crossing_times : gmap string Z) (c : config) (u u' : Z) :
  shortest_time crossing_times c u → shortest_time crossing_times c u' → u = u'.
Proof.
  intros [[p Hp] Hmin] [[p' Hp'] Hmin'].
  specialize (Hmin _ _ Hp'). specialize (Hmin' _ _ Hp). lia.
Qed.

(** What both solvers return when there is no solution. *)
Lemma exhausted_results {order : IterOrder} {hq : Heapq}
    (crossing_times : gmap string Z) (time_limit : Z) (fuel : nat) (r : result) :
  durations_nonneg crossing_times →
  (∀ p t, ¬ solution crossing_times time_limit p t) →
  solve_bridge_problem_bfs crossing_times time_limit fuel = Returns r
  ∨ solve_bridge_problem_dfs crossing_times time_limit fuel = Returns r →
  r.1 = (None, None)
  ∧ ∀ c u, r.2 !! c = Some u ↔
      shortest_time crossing_times c u
      ∧ (u ≤ time_limit ∨ c = initial_state crossing_times).
Proof.
  intros Hnn Hno Hrun.
  assert (optimal_result crossing_times time_limit r
          ∧ result_recorded crossing_times time_limit r) as [Hopt (Hmap & _)].
  { destruct Hrun as [Hrun|Hrun].
    - split; [by eapply (bfs_returns_optimal crossing_times time_limit Hnn)|].
      by eapply bfs_returns_recorded.
    - split; [by eapply (dfs_returns_optimal crossing_times time_limit Hnn)|].
      by eapply dfs_returns_recorded. }
  destruct r as [[[T|] [p|]] vis]; unfold optimal_result in Hopt; simpl in *;
    try done.
  { destruct Hopt as [Hsol _]. by apply Hno in Hsol. }
  split; [done|]. intros c u. apply exhausted_shortest; [done| |done].
  destruct Hrun as [Hrun|Hrun].
  - by eapply bfs_returns_None_closed.
  - by eapply dfs_returns_None_closed.
Qed.

Lemma exhausted_results_agree {order1 order2 : IterOrder} {hq1 hq2 : Heapq}
    (crossing_times : gmap string Z) (time_limit : Z) (fuel1 fuel2 : nat)
    (r1 r2 : result) :
  durations_nonneg crossing_times →
  (∀ p t, ¬ solution crossing_times time_limit p t) →
  @solve_bridge_problem_bfs order1 hq1 crossing_times time_limit fuel1 = Returns r1
  ∨ @solve_bridge_problem_dfs order1 crossing_times time_limit fuel1 = Returns r1 →
  @solve_bridge_problem_bfs order2 hq2 crossing_times time_limit fuel2 = Returns r2
  ∨ @solve_bridge_problem_dfs order2 crossing_times time_limit fuel2 = Returns r2 →
  r1 = r2.
Proof.
  intros Hnn Hno Hrun1 Hrun2.
  destruct (exhausted_results _ _ _ _ Hnn Hno Hrun1) as [H1 Hv1].
  destruct (exhausted_results _ _ _ _ Hnn Hno Hrun2) as [H2 Hv2].
  destruct r1 as [tp1 v1], r2 as [tp2 v2]. simpl in *. subst tp1 tp2. f_equal.
  apply map_eq. intros c. apply option_eq. intros u. by rewrite Hv1, Hv2.
Qed.

(** ** Bounds on the time of a solution *)
Section bounds.
Variable crossing_times : gmap string Z.
Hypothesis Hnonneg : durations_nonneg crossing_times.

(** Whoever is on the far side has had the time to cross. *)
Lemma journey_lower_bound (p : path) (c : config) (t : Z) (x : string) (d : Z) :
  journey crossing_times p c t → x ∈ c.1.2 → crossing_times !! x = Some d → d ≤ t.
Proof.
  intros Hj. revert x d. induction Hj as [|p c t w c' Hj IH Hm]; intros x d Hx Hd.
  - simpl in Hx. set_solver.
  - pose proof (journey_nonneg _ _ _ _ Hnonneg Hj) as Ht.
    pose proof (move_nonneg _ _ _ _ Hnonneg Hm) as Hw.
    destruct Hm as [s e g w Hsub Hsz [_ Hslow]|s e g w Hsub Hsz Hslow]; simpl in *.
    + apply elem_of_union in Hx as [Hx|Hx].
      * specialize (IH x d Hx Hd). lia.
      * destruct (Hslow x Hx) as (d' & Hd' & Hle). simplify_eq. lia.
    + assert (x ∈ e) as Hx' by set_solver. specialize (IH x d Hx' Hd). lia.
Qed.

Lemma solution_lower_bound (time_limit : Z) (p : path) (T : Z) (x : string) (d : Z) :
  solution crossing_times time_limit p T → crossing_times !! x = Some d → d ≤ T.
Proof.
  intros (c & Hj & Hc & _) Hd.
  apply (journey_lower_bound p c T x d Hj); [|done].
  destruct (journey_partitioned _ _ _ _ Hj) as [_ Hdom].
  unfold complete in Hc. rewrite Hc in Hdom.
  assert (x ∈ dom crossing_times) by by apply elem_of_dom.
  set_solver.
Qed.

(** One or two people cross together, at once. *)
Lemma together_solution (time_limit w : Z) :
  (size (dom crossing_times) = 1 ∨ size (dom crossing_times) = 2)%nat →
  slowest crossing_times (dom crossing_times) w → w ≤ time_limit →
  solution crossing_times time_limit
    [initial_state crossing_times; (∅, dom crossing_times, AtEnd)] w.
Proof.
  intros Hsz Hslow Hle. exists (∅, dom crossing_times, AtEnd). split_and!; [|done..].
  pose proof (journey_step crossing_times _ _ _ w (∅, dom crossing_times, AtEnd)
    (journey_start crossing_times)) as Hj.
  apply Hj, move_iff. exists (dom crossing_times).
  split_and!; [done|done|by apply slowest_trip_time|].
  unfold initial_state, new_config, move_to_pos. simpl.
  by rewrite difference_diag_L, (left_id_L ∅ (∪)).
Qed.

End bounds.

(** The fastest time within a limit is the fastest time within any other
    limit that allows it. *)
Lemma optimal_time_limit (crossing_times : gmap string Z) (limit limit' : Z)
    (r r' : result) (T : Z) :
  optimal_result crossing_times limit r → r.1.1 = Some T → T ≤ limit' →
  optimal_result crossing_times limit' r' → r'.1.1 = Some T.
Proof.
  intros Hopt Ht HT Hopt'.
  destruct (optimal_result_Some _ _ _ _ Hopt Ht) as (p & vis & -> & c & Hj & Hc & Hle).
  destruct Hopt as [_ Hmin].
  assert (solution crossing_times limit' p T) as Hsol' by by exists c.
  destruct r' as [[[T'|] [p'|]] vis']; unfold optimal_result in Hopt'; simpl in *;
    [|done|done|by destruct (Hopt' p T)].
  destruct Hopt' as [(c' & Hj' & Hc' & Hle') Hmin'].
  pose proof (Hmin' p T Hsol'). f_equal. apply Z.le_antisymm; [done|].
  apply (Hmin p'). exists c'. split_and!; [done..|lia].
Qed.

Lemma four_people_fuel_15 : (search_fuel four_people 15 ≤ 2000)%nat.
Proof. apply Nat.leb_le. vm_compute. reflexivity. Qed.

Lemma four_people_fuel_70 : (search_fuel four_people 70 ≤ 3000)%nat.
Proof. apply Nat.leb_le. vm_compute. reflexivity. Qed.

Lemma four_people_fuel_negative : (search_fuel four_people (-1) ≤ 2000)%nat.
Proof. apply Nat.leb_le. vm_compute. reflexivity. Qed.

Lemma two_people_fuel : (search_fuel two_people 2 ≤ 2000)%nat.
Proof. apply Nat.leb_le. vm_compute. reflexivity. Qed.

Lemma two_people_size :
  (size (dom two_people) = 1 ∨ size (dom two_people) = 2)%nat.
Proof. right. rewrite two_people_dom, size_union, !size_singleton; set_solver. Qed.

Lemma two_people_slowest : slowest two_people (dom two_people) 2.
Proof. apply trip_time_Ok. vm_compute. reflexivity. Qed.

Lemma main_reference : reference_time CROSSING_TIMES TIME_LIMIT = Some (Some 60).
Proof. vm_compute. reflexivity. Qed.

Lemma main_nonneg : durations_nonneg CROSSING_TIMES.
Proof. apply durations_nonneg_decide. vm_compute. reflexivity. Qed.

Lemma main_fuel : (search_fuel CROSSING_TIMES TIME_LIMIT ≤ 2000)%nat.
Proof. apply Nat.leb_le. vm_compute. reflexivity. Qed.

Lemma journey_nonempty (crossing_times : gmap string Z) (p : path) (c : config) (t : Z) :
  journey crossing_times p c t → p ≠ [].
Proof. intros Hj%journey_last ->. done. Qed.

(** ** The reporter on a path that the map does not record *)

Lemma print_each_stops (body : nat → exc (list line))
    (f : nat → config * config → list line)
    (pairs : list (config * config)) (k n : nat) (e : exn) :
  (∀ j ab, pairs !! j = Some ab → body (k + j)%nat = Ok (f (k + j)%nat ab)) →
  body (k + length pairs)%nat = Raise e → (length pairs < n)%nat →
  print_each body (seq k n) = (concat (imap (λ j, f (k + j)%nat) pairs), Some e).
Proof.
  revert k n. induction pairs as [|ab pairs IH]; intros k n Hbody Hfail Hlt.
  - destruct n as [|n]; [simpl in Hlt; lia|]. simpl in *.
    rewrite Nat.add_0_r in Hfail. by rewrite Hfail.
  - destruct n as [|n]; [simpl in Hlt; lia|].
    pose proof (Hbody 0%nat ab eq_refl) as H0. rewrite Nat.add_0_r in H0.
    rewrite imap_cons, Nat.add_0_r. cbn [length seq print_each concat].
    rewrite H0, (IH (Datatypes.S k) n).
    + do 3 f_equal. apply imap_ext. intros j ? _. simpl. f_equal. lia.
    + intros j ab' Hj.
      replace (Datatypes.S k + j)%nat with (k + Datatypes.S j)%nat by lia.
      by apply Hbody.
    + simpl in Hfail.
      by replace (Datatypes.S k + length pairs)%nat
        with (k + Datatypes.S (length pairs))%nat by lia.
    + simpl in Hlt. lia.
Qed.

Lemma report_step_Ok (p : path) (vis : gmap config Z) (i : nat) (a b : config) :
  p !! i = Some a → p !! Datatypes.S i = Some b →
  is_Some (vis !! a) → is_Some (vis !! b) →
  report_step p vis i = Ok (rendered_step vis i a b).
Proof.
  intros Ha Hb [ta Hta] [tb Htb].
  unfold report_step, index, getitem, rendered_step, moved_people.
  rewrite Ha. simpl. rewrite Nat.add_1_r, Hb. simpl. rewrite Htb. simpl.
  rewrite Hta. simpl. done.
Qed.

Lemma report_step_KeyError (p : path) (vis : gmap config Z) (i : nat) (a b : config) :
  p !! i = Some a → p !! Datatypes.S i = Some b →
  vis !! a = None ∨ vis !! b = None →
  report_step p vis i = Raise KeyError.
Proof.
  intros Ha Hb Hnone. unfold report_step, index, getitem.
  rewrite Ha. simpl. rewrite Nat.add_1_r, Hb. simpl.
  destruct (vis !! b) as [tb|]; [|done]. simpl.
  destruct Hnone as [->|?]; done.
Qed.

(** ** [sorted(..., reverse=True)] *)

Lemma insert_desc_sorted {A} (key : A → Z) (x : A) (l : list A) :
  StronglySorted (λ a b, key b ≤ key a) l →
  StronglySorted (λ a b, key b ≤ key a) (insert_desc key x l).
Proof.
  induction 1 as [|y l Hl IH Hy]; simpl.
  - by repeat constructor.
  - case_bool_decide as Hxy.
    + constructor; [done|]. rewrite insert_desc_perm. constructor; [lia|done].
    + constructor; [by constructor|]. constructor; [lia|].
      eapply Forall_impl; [exact Hy|]. simpl. intros; lia.
Qed.

Lemma sorted_desc_sorted {A} (key : A → Z) (l : list A) :
  StronglySorted (λ a b, key b ≤ key a) (sorted_desc key l).
Proof.
  induction l as [|x l IH]; simpl; [constructor|]. by apply insert_desc_sorted.
Qed.

(** The last element of a list in decreasing order is a least one. *)
Lemma sorted_desc_last {A} (key : A → Z) (l : list A) (x y : A) :
  StronglySorted (λ a b, key b ≤ key a) l → last l = Some x → y ∈ l →
  key x ≤ key y.
Proof.
  induction 1 as [|z l Hl IH Hz]; [done|]. intros Hlast Hy.
  destruct l as [|z' l'].
  - simpl in Hlast. injection Hlast as <-. apply list_elem_of_singleton in Hy as ->. lia.
  - rewrite last_cons_cons in Hlast.
    apply elem_of_cons in Hy as [->|Hy]; [|by apply IH].
    rewrite Forall_forall in Hz. apply Hz. eapply last_Some_elem_of. done.
Qed.

(** ** The priority-queue solver pops times in order *)

Lemma bfs_round_times {order : IterOrder} {hq : Heapq}
    (crossing_times : gmap string Z) (time_limit : Z) (st st' : bfs_state)
    (t : Z) (p : path) (q : heap) :
  durations_nonneg crossing_times →
  bfs_paths_inv crossing_times time_limit st →
  heappop (pq st) = Some ((t, p), q) →
  bfs_iteration crossing_times time_limit st = Ok (inr st') →
  Forall (λ e, t ≤ e.1) (heap_items (pq st')).
Proof.
  intros Hnn Hinv Hpop. unfold bfs_iteration. rewrite Hpop.
  apply heappop_Some in Hpop as [Hperm Hmin].
  rewrite Hperm in Hmin. apply Forall_cons in Hmin as [_ Hrest]. simpl in Hrest.
  unfold bfs_paths_inv, bfs_items in Hinv. rewrite Hperm, fmap_cons in Hinv.
  apply Forall_cons in Hinv as [[Hj _] _]. unfold entry_item in Hj. simpl in Hj.
  pose proof (journey_last _ _ _ _ Hj) as Hlast.
  destruct (last p) as [c|] eqn:Hlp; [|done]. simpl in Hj.
  destruct (decide (c.1.1 = ∅)).
  { case_bool_decide; [done|]. by intros [= <-]. }
  destruct (stale (visited_times st) c t); [by intros [= <-]|].
  pose proof (journey_partitioned _ _ _ _ Hj) as Hpart.
  destruct (explore_spec crossing_times time_limit t p c (visited_times st) 0 Hpart)
    as (v' & kids & Hrun & HK & _).
  rewrite explore_emit, Hrun. simpl. intros [= <-]. simpl.
  rewrite heap_items_emit_all. apply Forall_app. split; [|done].
  apply Forall_fmap. eapply Forall_impl; [exact HK|].
  intros [[t' p'] c'] (w & [= -> ->] & Hm & _). simpl.
  pose proof (move_nonneg _ _ _ _ Hnn Hm). lia.
Qed.

Lemma two_people_dfs_round :
  ∃ st', @dfs_iteration elements_order two_people 2 (dfs_init two_people)
         = Ok (inr st').
Proof.
  assert (match @dfs_iteration elements_order two_people 2 (dfs_init two_people) with
          | Ok (inr _) => true
          | _ => false
          end = true) as Hb by (vm_compute; reflexivity).
  destruct (@dfs_iteration elements_order two_people 2 (dfs_init two_people))
    as [[r|st']|e]; [discriminate Hb| |discriminate Hb].
  by exists st'.
Qed.

Lemma two_people_bfs_round :
  ∃ st', @bfs_iteration elements_order list_heapq two_people 2 (bfs_init two_people)
         = Ok (inr st').
Proof.
  assert (match @bfs_iteration elements_order list_heapq two_people 2
                  (bfs_init two_people) with
          | Ok (inr _) => true
          | _ => false
          end = true) as Hb by (vm_compute; reflexivity).
  destruct (@bfs_iteration elements_order list_heapq two_people 2 (bfs_init two_people))
    as [[r|st']|e]; [discriminate Hb| |discriminate Hb].
  by exists st'.
Qed.

(** ** Prefixes and segments of a path *)
Section segments.
Variable crossing_times : gmap string Z.

Lemma journey_prefix (p : path) (c : config) (t : Z) (i : nat) (ci : config) :
  journey crossing_times p c t → p !! i = Some ci →
  ∃ ti, journey crossing_times (take (Datatypes.S i) p) ci ti.
Proof.
  intros Hj Hi.
  destruct (check_path_cut _ _ _ _ _ (journey_check _ _ _ _ Hj) Hi)
    as (ti & _ & Hti & _).
  exists ti. apply check_path_journey_last; [done|].
  rewrite last_lookup, length_take, Nat.min_l by (apply lookup_lt_Some in Hi; lia).
  simpl. by rewrite lookup_take_lt by lia.
Qed.

(** The umbrella changes side at every step. *)
Lemma journey_alternates (p : path) (c : config) (t : Z) (i : nat) (ci : config) :
  journey crossing_times p c t → p !! i = Some ci →
  ci.2 = if Nat.even i then AtStart else AtEnd.
Proof.
  intros Hj Hi. destruct (journey_prefix _ _ _ _ _ Hj Hi) as [ti Hji].
  rewrite (journey_side _ _ _ _ Hji).
  rewrite length_take, Nat.min_l by (apply lookup_lt_Some in Hi; lia).
  rewrite Nat.even_succ, <- Nat.negb_even. by destruct (Nat.even i).
Qed.

Lemma route_time_pos (c : config) (rest : path) (s : Z) :
  (∀ x d, crossing_times !! x = Some d → 0 < d) →
  route_time crossing_times c rest = Some s → rest ≠ [] → 0 < s.
Proof.
  intros Hpos. revert c s. induction rest as [|x rest IH]; intros c s; [done|].
  simpl. case_bool_decide; [|done].
  destruct (trip_time crossing_times _) as [w|] eqn:Hw; [|done]. simpl.
  destruct (route_time crossing_times x rest) as [s'|] eqn:Hs'; [|done]. simpl.
  intros [= <-] _.
  apply trip_time_Ok in Hw as [(y & _ & Hy) _]. apply Hpos in Hy.
  destruct rest as [|x' rest'].
  - simpl in Hs'. injection Hs' as <-. lia.
  - specialize (IH x s' Hs' ltac:(done)). lia.
Qed.

(** With positive durations, the cumulative time grows along a path. *)
Lemma check_path_grows (p : path) (i j : nat) (ti tj : Z) :
  (∀ x d, crossing_times !! x = Some d → 0 < d) →
  (i < j < length p)%nat →
  check_path crossing_times (take (Datatypes.S i) p) = Some ti →
  check_path crossing_times (take (Datatypes.S j) p) = Some tj →
  ti < tj.
Proof.
  intros Hpos Hij Hi Hj.
  destruct (lookup_lt_is_Some_2 p i) as [c Hc]; [lia|].
  assert (take (Datatypes.S j) p !! i = Some c) as Hc'.
  { by rewrite lookup_take_lt by lia. }
  destruct (check_path_cut _ _ _ _ _ Hj Hc') as (t & s & Ht & Hs & ->).
  rewrite take_take in Ht.
  replace (Datatypes.S i `min` Datatypes.S j)%nat with (Datatypes.S i) in Ht by lia.
  rewrite Hi in Ht. injection Ht as <-.
  apply route_time_pos in Hs; [lia|done|].
  intros Hnil%(f_equal length). rewrite length_drop, length_take in Hnil.
  cbn [length] in Hnil. lia.
Qed.

End segments.

Lemma four_people_positive x d : four_people !! x = Some d → 0 < d.
Proof.
  revert x d. apply (bool_decide_unpack (map_Forall (λ _ d, 0 < d) four_people)).
  vm_compute. exact I.
Qed.

(** ** The groups that one exploration considers *)

(** A subsequence of a list without duplicates is determined by its
    elements. *)
Lemma sublist_elements_inj (l t1 t2 : list string) :
  NoDup l → t1 `sublist_of` l → t2 `sublist_of` l →
  (∀ x, x ∈ t1 ↔ x ∈ t2) → t1 = t2.
Proof.
  intros Hl. revert t1 t2. induction Hl as [|x l Hx Hl IH]; intros t1 t2 H1 H2 Heq.
  - apply sublist_nil_r in H1, H2. by subst.
  - apply sublist_cons_r in H1 as [H1|(t1' & -> & H1)];
      apply sublist_cons_r in H2 as [H2|(t2' & -> & H2)].
    + by apply IH.
    + destruct Hx. eapply elem_of_sublist; [|exact H1]. apply Heq. by left.
    + destruct Hx. eapply elem_of_sublist; [|exact H2]. apply Heq. by left.
    + f_equal. apply IH; [done..|]. intros y.
      assert (y ∈ t1' → y ≠ x) by (intros ? ->; eauto using elem_of_sublist).
      assert (y ∈ t2' → y ≠ x) by (intros ? ->; eauto using elem_of_sublist).
      specialize (Heq y). rewrite !elem_of_cons in Heq. naive_solver.
Qed.

Lemma sublist_set_inj (l t1 t2 : list string) :
  NoDup l → t1 `sublist_of` l → t2 `sublist_of` l →
  (list_to_set t1 : gset string) = list_to_set t2 → t1 = t2.
Proof.
  intros Hl H1 H2 Heq. apply (sublist_elements_inj l); [done..|].
  intros x. rewrite <- !(elem_of_list_to_set (C := gset string)). by rewrite Heq.
Qed.

Lemma combinations_NoDup {A} (r : nat) (l : list A) :
  NoDup l → NoDup (combinations r l).
Proof.
  revert r. induction l as [|x l IH]; intros r Hl.
  - destruct r; simpl; [apply NoDup_singleton|constructor].
  - apply NoDup_cons in Hl as [Hx Hl].
    destruct r as [|r]; simpl; [apply NoDup_singleton|].
    apply NoDup_app. split_and!.
    + apply (NoDup_fmap_2 _). by apply IH.
    + intros t (t' & -> & _)%list_elem_of_fmap Ht.
      apply combinations_sublist in Ht as [Hsub _].
      apply Hx. eapply elem_of_sublist; [|done]. by left.
    + by apply IH.
Qed.

Lemma groups_NoDup {order : IterOrder} (p : path) (c : config) : NoDup (groups p c).
Proof.
  assert (NoDup (iter p (move_from c))) as Hl.
  { rewrite iter_perm. apply NoDup_elements. }
  unfold groups. simpl. rewrite app_nil_r.
  apply NoDup_app. split_and!.
  - case_bool_decide; [constructor|by apply combinations_NoDup].
  - intros t H1 H2.
    destruct (bool_decide (size (move_from c) < 1)%nat);
      [by apply elem_of_nil in H1|].
    destruct (bool_decide (size (move_from c) < 2)%nat);
      [by apply elem_of_nil in H2|].
    apply combinations_sublist in H1 as [_ H1].
    apply combinations_sublist in H2 as [_ H2]. lia.
  - case_bool_decide; [constructor|by apply combinations_NoDup].
Qed.

(** ** The steps of a checked path *)

(** Every step of a path that passes the check is the crossing of the
    people whom the reporter reads off the two start sides. *)
Lemma check_path_movers (crossing_times : gmap string Z) (p : path) (T : Z)
    (i : nat) (a b : config) :
  check_path crossing_times p = Some T →
  p !! i = Some a → p !! Datatypes.S i = Some b →
  (size (moved_people a b) = 1 ∨ size (moved_people a b) = 2)%nat
  ∧ moved_people a b ⊆ move_from a
  ∧ b = new_config a (moved_people a b).
Proof.
  intros HT Ha Hb.
  destruct (check_path_cut _ _ _ _ _ HT Ha) as (t & s & _ & Hs & _).
  erewrite drop_S in Hs by done. simpl in Hs.
  case_bool_decide as Hstep; [done|done].
Qed.

Lemma sorted_names_perm (s : gset string) : sorted_names s ≡ₚ elements s.
Proof. unfold sorted_names. apply merge_sort_Permutation. Qed.

Lemma two_people_bfs_path :
  returned_path
    (@solve_bridge_problem_bfs elements_order list_heapq two_people 2 2000)
  = Some [initial_state two_people; (∅, dom two_people, AtEnd)].
Proof. apply (bool_decide_unpack _). vm_compute. exact I. Qed.

(** * The properties of the design document *)
(** C1. Whenever some complete path fits in the time limit, the
    priority-queue solver returns a time and a path; the path is a complete
    path within the limit of exactly that time, and no complete path within
    the limit is faster: the time returned is the minimum.  (Durations are
    not negative; the loop is given the fuel [search_fuel].) *)
Theorem bfs_best_time_is_minimum {order : IterOrder} {hq : Heapq}
    (crossing_times : gmap string Z) (time_limit : Z) (fuel : nat) :
  durations_nonneg crossing_times →
  (∃ p t, solution crossing_times time_limit p t) →
  (search_fuel crossing_times time_limit ≤ fuel)%nat →
  ∃ best_time best_path vis,
    solve_bridge_problem_bfs crossing_times time_limit fuel
    = Returns (Some best_time, Some best_path, vis)
    ∧ solution crossing_times time_limit best_path best_time
    ∧ ∀ p t, solution crossing_times time_limit p t → best_time ≤ t.
Proof.
  intros Hnn (p0 & t0 & Hsol) Hfuel.
  destruct (bfs_total_correct crossing_times time_limit Hnn fuel Hfuel)
    as ([[[bt|] [bp|]] vis] & Hrun & Hopt & _); unfold optimal_result in Hopt;
    simpl in Hopt; try done.
  - exists bt, bp, vis. by destruct Hopt.
  - by destruct (Hopt _ _ Hsol).
Qed.

Lemma bfs_best_time_is_minimum_witness :
  durations_nonneg four_people
  ∧ (∃ p t, solution four_people 60 p t)
  ∧ (search_fuel four_people 60 ≤ 2000)%nat
  ∧ ∃ best_time best_path vis,
      @solve_bridge_problem_bfs elements_order list_heapq four_people 60 2000
      = Returns (Some best_time, Some best_path, vis)
      ∧ solution four_people 60 best_path best_time
      ∧ ∀ p t, solution four_people 60 p t → best_time ≤ t.
Proof.
  assert (∃ p t, solution four_people 60 p t) as Hsol.
  { exists canonical_strategy, 60. apply check_solution_sound. vm_compute. reflexivity. }
  assert (search_fuel four_people 60 ≤ 2000)%nat as Hfuel.
  { apply Nat.leb_le. vm_compute. reflexivity. }
  split; [exact four_people_nonneg|]. split; [exact Hsol|]. split; [exact Hfuel|].
  exact (@bfs_best_time_is_minimum elements_order list_heapq four_people 60 2000
           four_people_nonneg Hsol Hfuel).
Defined.

(** C2. Whenever a solution exists within the limit, both solvers return
    the same time.  Their paths may differ, but each starts from the initial
    configuration, each of its steps is a move of one or two people from the
    side of the umbrella, and the costs of its steps sum to the time
    returned ([check_path]). *)
Theorem solvers_agree {order : IterOrder} {hq : Heapq}
    (crossing_times : gmap string Z) (time_limit : Z) (fuel : nat) :
  durations_nonneg crossing_times →
  (∃ p t, solution crossing_times time_limit p t) →
  (search_fuel crossing_times time_limit ≤ fuel)%nat →
  ∃ best_time path_bfs path_dfs vis_bfs vis_dfs,
    solve_bridge_problem_bfs crossing_times time_limit fuel
    = Returns (Some best_time, Some path_bfs, vis_bfs)
    ∧ solve_bridge_problem_dfs crossing_times time_limit fuel
      = Returns (Some best_time, Some path_dfs, vis_dfs)
    ∧ check_path crossing_times path_bfs = Some best_time
    ∧ check_path crossing_times path_dfs = Some best_time
    ∧ (∀ i a b, path_bfs !! i = Some a → path_bfs !! Datatypes.S i = Some b →
         valid_step a b)
    ∧ (∀ i a b, path_dfs !! i = Some a → path_dfs !! Datatypes.S i = Some b →
         valid_step a b)
    ∧ best_time ≤ time_limit.
Proof.
  intros Hnn (p0 & t0 & Hsol) Hfuel.
  destruct (bfs_total_correct crossing_times time_limit Hnn fuel Hfuel)
    as (r1 & Hrun1 & Hopt1 & _).
  destruct (dfs_total_correct crossing_times time_limit Hnn fuel Hfuel)
    as (r2 & Hrun2 & Hopt2 & _).
  pose proof (optimal_result_time _ _ _ _ Hopt1 Hopt2) as Heq.
  destruct r1 as [[[t1|] [p1|]] vis1], r2 as [[[t2|] [p2|]] vis2];
    unfold optimal_result in *; simpl in *; try done.
  - injection Heq as <-.
    destruct Hopt1 as [(c1 & Hj1 & _ & Hle) _], Hopt2 as [(c2 & Hj2 & _) _].
    exists t1, p1, p2, vis1, vis2.
    split_and!; try done; try (by eapply journey_check).
    + by eapply journey_shape.
    + by eapply journey_shape.
  - by destruct (Hopt1 _ _ Hsol).
Qed.

Lemma solvers_agree_witness :
  durations_nonneg four_people
  ∧ (∃ p t, solution four_people 60 p t)
  ∧ (search_fuel four_people 60 ≤ 2000)%nat
  ∧ ∃ best_time path_bfs path_dfs vis_bfs vis_dfs,
      @solve_bridge_problem_bfs elements_order list_heapq four_people 60 2000
      = Returns (Some best_time, Some path_bfs, vis_bfs)
      ∧ @solve_bridge_problem_dfs elements_order four_people 60 2000
        = Returns (Some best_time, Some path_dfs, vis_dfs)
      ∧ check_path four_people path_bfs = Some best_time
      ∧ check_path four_people path_dfs = Some best_time
      ∧ (∀ i a b, path_bfs !! i = Some a → path_bfs !! Datatypes.S i = Some b →
           valid_step a b)
      ∧ (∀ i a b, path_dfs !! i = Some a → path_dfs !! Datatypes.S i = Some b →
           valid_step a b)
      ∧ best_time ≤ 60.
Proof.
  assert (∃ p t, solution four_people 60 p t) as Hsol.
  { exists canonical_strategy, 60. apply check_solution_sound. vm_compute. reflexivity. }
  assert (search_fuel four_people 60 ≤ 2000)%nat as Hfuel.
  { apply Nat.leb_le. vm_compute. reflexivity. }
  split; [exact four_people_nonneg|]. split; [exact Hsol|]. split; [exact Hfuel|].
  exact (@solvers_agree elements_order list_heapq four_people 60 2000
           four_people_nonneg Hsol Hfuel).
Defined.

(** C3. In a path returned by either solver, whatever the durations, the
    limit and the fuel: the path starts at the initial configuration; in every
    configuration the two sides are disjoint and together hold everybody; and
    two consecutive configurations differ by one move: one or two people, all
    on the side of the umbrella, change side together with the umbrella. *)
Theorem returned_paths_valid {order : IterOrder} {hq : Heapq}
    (crossing_times : gmap string Z) (time_limit : Z) (fuel : nat)
    (t : option Z) (p : path) (vis : gmap config Z) :
  solve_bridge_problem_bfs crossing_times time_limit fuel = Returns (t, Some p, vis)
  ∨ solve_bridge_problem_dfs crossing_times time_limit fuel = Returns (t, Some p, vis) →
  p !! 0%nat = Some (initial_state crossing_times)
  ∧ Forall (λ c, c.1.1 ## c.1.2 ∧ c.1.1 ∪ c.1.2 = dom crossing_times) p
  ∧ ∀ i a b, p !! i = Some a → p !! Datatypes.S i = Some b → valid_step a b.
Proof.
  intros Hrun.
  assert (sound_result crossing_times time_limit (t, Some p, vis)) as Hsound.
  { destruct Hrun as [Hrun|Hrun].
    - by destruct (bfs_returns_sound _ _ _ _ Hrun).
    - by destruct (dfs_returns_sound _ _ _ _ Hrun). }
  unfold sound_result in Hsound. simpl in Hsound.
  destruct t as [bt|]; [|done]. destruct Hsound as (c & Hj & _).
  by apply (journey_shape _ _ _ _ Hj).
Qed.

Lemma returned_paths_valid_witness :
  ∃ t p vis,
    @solve_bridge_problem_bfs elements_order list_heapq four_people 60 2000
    = Returns (t, Some p, vis)
    ∧ p !! 0%nat = Some (initial_state four_people)
    ∧ Forall (λ c, c.1.1 ## c.1.2 ∧ c.1.1 ∪ c.1.2 = dom four_people) p
    ∧ ∀ i a b, p !! i = Some a → p !! Datatypes.S i = Some b → valid_step a b.
Proof.
  destruct four_people_returns_path as [p Hp].
  destruct (returned_path_Some _ _ Hp) as (t & vis & Hrun).
  exists t, p, vis. split; [exact Hrun|].
  exact (@returned_paths_valid elements_order list_heapq four_people 60 2000 t p vis
           (or_introl Hrun)).
Defined.

(** C4. For [{A: 5, B: 10, G: 20, H: 25}]: with limit 60 both solvers
    return the time 60 (and a path); with limit 15 both return
    [(None, None, visited)]. *)
Theorem four_people_scenario {order : IterOrder} {hq : Heapq} (fuel : nat) :
  (search_fuel four_people 60 ≤ fuel)%nat →
  (∃ p vis, solve_bridge_problem_bfs four_people 60 fuel = Returns (Some 60, Some p, vis))
  ∧ (∃ p vis, solve_bridge_problem_dfs four_people 60 fuel = Returns (Some 60, Some p, vis))
  ∧ (∃ vis, solve_bridge_problem_bfs four_people 15 fuel = Returns (None, None, vis))
  ∧ (∃ vis, solve_bridge_problem_dfs four_people 15 fuel = Returns (None, None, vis)).
Proof.
  intros Hfuel.
  destruct (reference_time_spec four_people 60 fuel _ four_people_nonneg Hfuel
    four_people_reference_60) as [(r1 & Hr1 & Ht1 & Ho1) (r2 & Hr2 & Ht2 & Ho2)].
  destruct (reference_time_spec four_people 15 fuel _ four_people_nonneg
    (Nat.le_trans _ _ _ four_people_fuel Hfuel) four_people_reference_15)
    as [(r3 & Hr3 & Ht3 & Ho3) (r4 & Hr4 & Ht4 & Ho4)].
  destruct (optimal_result_Some _ _ _ _ Ho1 Ht1) as (p1 & v1 & -> & _).
  destruct (optimal_result_Some _ _ _ _ Ho2 Ht2) as (p2 & v2 & -> & _).
  destruct (optimal_result_None _ _ _ Ho3 Ht3) as (v3 & ->).
  destruct (optimal_result_None _ _ _ Ho4 Ht4) as (v4 & ->).
  eauto 10.
Qed.

Lemma four_people_scenario_witness :
  (search_fuel four_people 60 ≤ 2000)%nat
  ∧ (∃ p vis, @solve_bridge_problem_bfs elements_order list_heapq four_people 60 2000
              = Returns (Some 60, Some p, vis))
  ∧ (∃ p vis, @solve_bridge_problem_dfs elements_order four_people 60 2000
              = Returns (Some 60, Some p, vis))
  ∧ (∃ vis, @solve_bridge_problem_bfs elements_order list_heapq four_people 15 2000
            = Returns (None, None, vis))
  ∧ (∃ vis, @solve_bridge_problem_dfs elements_order four_people 15 2000
            = Returns (None, None, vis)).
Proof.
  assert (search_fuel four_people 60 ≤ 2000)%nat as Hfuel.
  { apply Nat.leb_le. vm_compute. reflexivity. }
  split; [exact Hfuel|].
  exact (@four_people_scenario elements_order list_heapq 2000 Hfuel).
Defined.

(** C5. Neither solver ever raises an exception.  When no complete path
    fits in the time limit, each loop runs until its heap or stack is empty and
    the solver returns [(None, None, visited)], where [visited] is the map as
    the search left it: the map of the state in which the loop ends. *)
Theorem no_solution_is_returned {order : IterOrder} {hq : Heapq}
    (crossing_times : gmap string Z) (time_limit : Z) :
  (∀ fuel e,
     solve_bridge_problem_bfs crossing_times time_limit fuel ≠ Raises e
     ∧ solve_bridge_problem_dfs crossing_times time_limit fuel ≠ Raises e)
  ∧ (durations_nonneg crossing_times →
     (∀ p t, ¬ solution crossing_times time_limit p t) →
     ∀ fuel, (search_fuel crossing_times time_limit ≤ fuel)%nat →
       (∃ st, reachable (bfs_iteration crossing_times time_limit)
                (bfs_init crossing_times) st
              ∧ heap_items (pq st) = []
              ∧ solve_bridge_problem_bfs crossing_times time_limit fuel
                = Returns (None, None, visited_times st))
       ∧ (∃ st, reachable (dfs_iteration crossing_times time_limit)
                  (dfs_init crossing_times) st
                ∧ stack st = []
                ∧ solve_bridge_problem_dfs crossing_times time_limit fuel
                  = Returns (None, None, visited_states st))).
Proof.
  split.
  { intros fuel e. split; [apply bfs_never_raises|apply dfs_never_raises]. }
  intros Hnn Hno fuel Hfuel. split.
  - destruct (bfs_total_correct crossing_times time_limit Hnn fuel Hfuel)
      as ([[[bt|] [bp|]] vis] & Hrun & Hopt & _); unfold optimal_result in Hopt;
      simpl in Hopt; try done.
    { destruct Hopt as [Hsol _]. by destruct (Hno _ _ Hsol). }
    destruct (bfs_returns_sound _ _ _ _ Hrun) as (_ & st & Hst & Hvis & Hempty).
    simpl in *. subst vis. exists st. split_and!; [done|by apply Hempty|done].
  - destruct (dfs_total_correct crossing_times time_limit Hnn fuel Hfuel)
      as ([[[bt|] [bp|]] vis] & Hrun & Hopt & _); unfold optimal_result in Hopt;
      simpl in Hopt; try done.
    { destruct Hopt as [Hsol _]. by destruct (Hno _ _ Hsol). }
    destruct (dfs_returns_sound _ _ _ _ Hrun) as (_ & st & Hst & Hempty & Hr).
    injection Hr as _ _ ->. by exists st.
Qed.

Lemma no_solution_is_returned_witness :
  durations_nonneg four_people
  ∧ (∀ p t, ¬ solution four_people 15 p t)
  ∧ (search_fuel four_people 15 ≤ 2000)%nat
  ∧ (∃ st, reachable (bfs_iteration (order := elements_order) (hq := list_heapq)
                        four_people 15) (bfs_init four_people) st
           ∧ heap_items (pq st) = []
           ∧ @solve_bridge_problem_bfs elements_order list_heapq four_people 15 2000
             = Returns (None, None, visited_times st))
  ∧ (∃ st, reachable (dfs_iteration (order := elements_order) four_people 15)
             (dfs_init four_people) st
           ∧ stack st = []
           ∧ @solve_bridge_problem_dfs elements_order four_people 15 2000
             = Returns (None, None, visited_states st)).
Proof.
  assert (search_fuel four_people 15 ≤ 2000)%nat as Hfuel.
  { apply Nat.leb_le. vm_compute. reflexivity. }
  split; [exact four_people_nonneg|]. split; [exact four_people_15_unsolvable|].
  split; [exact Hfuel|].
  exact (proj2 (@no_solution_is_returned elements_order list_heapq four_people 15)
           four_people_nonneg four_people_15_unsolvable 2000%nat Hfuel).
Defined.

(** C6, as the code has it.  For an empty [crossing_times] and a limit that
    is not negative, both solvers return at once the time 0 and the path
    made of the initial configuration alone: a solution, not the absence of
    one. *)
Theorem nobody_is_solved_at_once {order : IterOrder} {hq : Heapq}
    (time_limit : Z) (fuel : nat) :
  0 ≤ time_limit → (2 ≤ fuel)%nat →
  solve_bridge_problem_bfs ∅ time_limit fuel
  = Returns (Some 0, Some [(∅, ∅, AtStart)], {[ (∅, ∅, AtStart) := 0 ]})
  ∧ solve_bridge_problem_dfs ∅ time_limit fuel
    = Returns (Some 0, Some [(∅, ∅, AtStart)], {[ (∅, ∅, AtStart) := 0 ]}).
Proof.
  intros Hlim Hfuel. split; [apply bfs_nobody|apply dfs_nobody]; (done || lia).
Qed.

Lemma nobody_is_solved_at_once_witness :
  0 ≤ 0 ∧ (2 ≤ 2)%nat
  ∧ @solve_bridge_problem_bfs elements_order list_heapq ∅ 0 2
    = Returns (Some 0, Some [(∅, ∅, AtStart)], {[ (∅, ∅, AtStart) := 0 ]})
  ∧ @solve_bridge_problem_dfs elements_order ∅ 0 2
    = Returns (Some 0, Some [(∅, ∅, AtStart)], {[ (∅, ∅, AtStart) := 0 ]}).
Proof.
  assert (0 ≤ 0) as H0 by lia.
  assert (2 ≤ 2)%nat as H2 by lia.
  split; [exact H0|]. split; [exact H2|].
  exact (@nobody_is_solved_at_once elements_order list_heapq 0 2 H0 H2).
Defined.

(** The claim that an empty set of people yields no solution fails at
    [crossing_times = {}], [time_limit = 0]: neither solver returns
    [(None, None, _)]. *)
Lemma nobody_counterexample :
  ¬ ((∃ vis, @solve_bridge_problem_bfs elements_order list_heapq ∅ 0 2
             = Returns (None, None, vis))
     ∨ (∃ vis, @solve_bridge_problem_dfs elements_order ∅ 0 2
               = Returns (None, None, vis))).
Proof.
  rewrite (@bfs_nobody elements_order list_heapq 0 2),
    (@dfs_nobody elements_order 0 2) by lia.
  intros [[vis [=]]|[vis [=]]].
Qed.

(** C7. The limit is inclusive.  In general: if some complete path takes
    exactly [time_limit], both solvers return a time (at most the limit)
    rather than no solution.  In particular, for [{A: 1, B: 2}] and limit 2
    both return the time 2 and the path in which A and B cross together. *)
Theorem limit_is_inclusive {order : IterOrder} {hq : Heapq} :
  (∀ (crossing_times : gmap string Z) (time_limit : Z) (fuel : nat) p c,
     durations_nonneg crossing_times →
     journey crossing_times p c time_limit → complete c →
     (search_fuel crossing_times time_limit ≤ fuel)%nat →
     ∃ best_time path_bfs path_dfs vis_bfs vis_dfs,
       solve_bridge_problem_bfs crossing_times time_limit fuel
       = Returns (Some best_time, Some path_bfs, vis_bfs)
       ∧ solve_bridge_problem_dfs crossing_times time_limit fuel
         = Returns (Some best_time, Some path_dfs, vis_dfs)
       ∧ best_time ≤ time_limit)
  ∧ (∀ fuel, (search_fuel two_people 2 ≤ fuel)%nat →
     ∃ vis_bfs vis_dfs,
       solve_bridge_problem_bfs two_people 2 fuel
       = Returns (Some 2, Some [({[ "A"%string; "B"%string ]}, ∅, AtStart);
                                (∅, {[ "A"%string; "B"%string ]}, AtEnd)], vis_bfs)
       ∧ solve_bridge_problem_dfs two_people 2 fuel
         = Returns (Some 2, Some [({[ "A"%string; "B"%string ]}, ∅, AtStart);
                                  (∅, {[ "A"%string; "B"%string ]}, AtEnd)], vis_dfs)).
Proof.
  split.
  - intros crossing_times time_limit fuel p c Hnn Hj Hgoal Hfuel.
    assert (solution crossing_times time_limit p time_limit) as Hsol.
    { exists c. split_and!; [done..|lia]. }
    destruct (bfs_total_correct crossing_times time_limit Hnn fuel Hfuel)
      as (r1 & Hrun1 & Hopt1 & _).
    destruct (dfs_total_correct crossing_times time_limit Hnn fuel Hfuel)
      as (r2 & Hrun2 & Hopt2 & _).
    pose proof (optimal_result_time _ _ _ _ Hopt1 Hopt2) as Heq.
    destruct r1 as [[[t1|] [p1|]] vis1], r2 as [[[t2|] [p2|]] vis2];
      unfold optimal_result in *; simpl in *; try done.
    + injection Heq as <-. destruct Hopt1 as [_ Hmin].
      exists t1, p1, p2, vis1, vis2. split_and!; [done..|]. by eapply Hmin.
    + by destruct (Hopt1 _ _ Hsol).
  - intros fuel Hfuel.
    destruct (reference_time_spec two_people 2 fuel _ two_people_nonneg Hfuel
      two_people_reference_2) as [(r1 & Hr1 & Ht1 & Ho1) (r2 & Hr2 & Ht2 & Ho2)].
    destruct (optimal_result_Some _ _ _ _ Ho1 Ht1) as (p1 & v1 & -> & c1 & Hj1 & Hg1 & _).
    destruct (optimal_result_Some _ _ _ _ Ho2 Ht2) as (p2 & v2 & -> & c2 & Hj2 & Hg2 & _).
    assert (dom two_people ≠ ∅) as Hne by (rewrite two_people_dom; set_solver).
    destruct (direct_crossing two_people 1 _ _ _ Hne ltac:(lia) two_people_min Hj1 Hg1)
      as [-> _]; [lia|].
    destruct (direct_crossing two_people 1 _ _ _ Hne ltac:(lia) two_people_min Hj2 Hg2)
      as [-> _]; [lia|].
    unfold initial_state in *. rewrite two_people_dom in *. eauto.
Qed.

Lemma limit_is_inclusive_witness :
  durations_nonneg two_people
  ∧ journey two_people
      [({[ "A"%string; "B"%string ]}, ∅, AtStart);
       (∅, {[ "A"%string; "B"%string ]}, AtEnd)]
      (∅, {[ "A"%string; "B"%string ]}, AtEnd) 2
  ∧ (search_fuel two_people 2 ≤ 2000)%nat
  ∧ (∃ best_time path_bfs path_dfs vis_bfs vis_dfs,
       @solve_bridge_problem_bfs elements_order list_heapq two_people 2 2000
       = Returns (Some best_time, Some path_bfs, vis_bfs)
       ∧ @solve_bridge_problem_dfs elements_order two_people 2 2000
         = Returns (Some best_time, Some path_dfs, vis_dfs)
       ∧ best_time ≤ 2)
  ∧ (∃ vis_bfs vis_dfs,
       @solve_bridge_problem_bfs elements_order list_heapq two_people 2 2000
       = Returns (Some 2, Some [({[ "A"%string; "B"%string ]}, ∅, AtStart);
                                (∅, {[ "A"%string; "B"%string ]}, AtEnd)], vis_bfs)
       ∧ @solve_bridge_problem_dfs elements_order two_people 2 2000
         = Returns (Some 2, Some [({[ "A"%string; "B"%string ]}, ∅, AtStart);
                                  (∅, {[ "A"%string; "B"%string ]}, AtEnd)], vis_dfs)).
Proof.
  assert (journey two_people
      [({[ "A"%string; "B"%string ]}, ∅, AtStart);
       (∅, {[ "A"%string; "B"%string ]}, AtEnd)]
      (∅, {[ "A"%string; "B"%string ]}, AtEnd) 2) as Hj.
  { apply check_path_journey_last; [vm_compute; reflexivity|reflexivity]. }
  assert (search_fuel two_people 2 ≤ 2000)%nat as Hfuel.
  { apply Nat.leb_le. vm_compute. reflexivity. }
  split; [exact two_people_nonneg|]. split; [exact Hj|]. split; [exact Hfuel|].
  split.
  - exact (proj1 (@limit_is_inclusive elements_order list_heapq) two_people 2 2000%nat
             _ _ two_people_nonneg Hj eq_refl Hfuel).
  - exact (proj2 (@limit_is_inclusive elements_order list_heapq) 2000%nat Hfuel).
Defined.

(** C8. For a single person of duration [d > 0]: if [d] is within the limit,
    each solver returns the time [d] and the path made of the one direct
    crossing; otherwise each returns [(None, None, visited)]. *)
Theorem single_person_crossing {order : IterOrder} {hq : Heapq}
    (x : string) (d time_limit : Z) (fuel : nat) :
  0 < d →
  (search_fuel {[ x := d ]} time_limit ≤ fuel)%nat →
  (d ≤ time_limit →
   ∃ vis_bfs vis_dfs,
     solve_bridge_problem_bfs {[ x := d ]} time_limit fuel
     = Returns (Some d, Some [({[ x ]}, ∅, AtStart); (∅, {[ x ]}, AtEnd)], vis_bfs)
     ∧ solve_bridge_problem_dfs {[ x := d ]} time_limit fuel
       = Returns (Some d, Some [({[ x ]}, ∅, AtStart); (∅, {[ x ]}, AtEnd)], vis_dfs))
  ∧ (time_limit < d →
     ∃ vis_bfs vis_dfs,
       solve_bridge_problem_bfs {[ x := d ]} time_limit fuel
       = Returns (None, None, vis_bfs)
       ∧ solve_bridge_problem_dfs {[ x := d ]} time_limit fuel
         = Returns (None, None, vis_dfs)).
Proof.
  intros Hd Hfuel.
  destruct (bfs_total_correct {[ x := d ]} time_limit (alone_nonneg x d Hd) fuel Hfuel)
    as (r1 & Hrun1 & Hopt1 & _).
  destruct (dfs_total_correct {[ x := d ]} time_limit (alone_nonneg x d Hd) fuel Hfuel)
    as (r2 & Hrun2 & Hopt2 & _).
  assert (initial_state {[ x := d ]} = ({[ x ]}, ∅, AtStart)) as Hinit.
  { unfold initial_state. by rewrite dom_singleton_L. }
  split.
  - intros Hle.
    assert (solution {[ x := d ]} time_limit
      [initial_state {[ x := d ]}; (∅, {[ x ]}, AtEnd)] d) as Hsol.
    { exists (∅, {[ x ]}, AtEnd). split_and!; [by apply alone_direct|done|done]. }
    destruct r1 as [[[t1|] [p1|]] vis1], r2 as [[[t2|] [p2|]] vis2];
      unfold optimal_result in *; simpl in *; try done;
      try (by destruct (Hopt1 _ _ Hsol)); try (by destruct (Hopt2 _ _ Hsol)).
    destruct Hopt1 as [Hs1 Hmin1], Hopt2 as [Hs2 Hmin2].
    destruct (alone_solution x d Hd _ _ _ Hs1) as [_ H1].
    destruct (alone_solution x d Hd _ _ _ Hs2) as [_ H2].
    destruct (H1 (Hmin1 _ _ Hsol)) as [-> ->].
    destruct (H2 (Hmin2 _ _ Hsol)) as [-> ->].
    rewrite Hinit in *. eauto.
  - intros Hlt.
    destruct r1 as [[[t1|] [p1|]] vis1], r2 as [[[t2|] [p2|]] vis2];
      unfold optimal_result in *; simpl in *; try done; eauto;
      repeat match goal with
      | H : solution _ _ _ _ ∧ _ |- _ => destruct H as [H _]
      | H : solution _ _ _ _ |- _ => apply (alone_solution x d Hd) in H as [? _]; lia
      end.
Qed.

Lemma single_person_crossing_witness :
  0 < 5 ∧ (search_fuel {[ "A"%string := 5%Z ]} 10 ≤ 2000)%nat ∧ 5 ≤ 10
  ∧ ∃ vis_bfs vis_dfs,
      @solve_bridge_problem_bfs elements_order list_heapq {[ "A"%string := 5 ]} 10 2000
      = Returns (Some 5, Some [({[ "A"%string ]}, ∅, AtStart);
                               (∅, {[ "A"%string ]}, AtEnd)], vis_bfs)
      ∧ @solve_bridge_problem_dfs elements_order {[ "A"%string := 5 ]} 10 2000
        = Returns (Some 5, Some [({[ "A"%string ]}, ∅, AtStart);
                                 (∅, {[ "A"%string ]}, AtEnd)], vis_dfs).
Proof.
  assert (0 < 5) as Hd by lia.
  assert (search_fuel {[ "A"%string := 5%Z ]} 10 ≤ 2000)%nat as Hfuel.
  { apply Nat.leb_le. vm_compute. reflexivity. }
  assert (5 ≤ 10) as Hle by lia.
  split; [exact Hd|]. split; [exact Hfuel|]. split; [exact Hle|].
  exact (proj1 (@single_person_crossing elements_order list_heapq "A" 5 10 2000
                  Hd Hfuel) Hle).
Defined.

(** C9. Given no path ([None]) or an empty path, the reporter prints its
    banner and the no-solution message and nothing else, whatever the arrival
    map and the time: it looks nothing up, and raises nothing.  Given a
    non-empty path whose configurations are all in the arrival map, it prints
    one block per consecutive pair [(prev, next)], in which the trip lasts
    [arrival_time_map[next] - arrival_time_map[prev]] and the people moved
    and the direction come from the difference of the start sides and the
    umbrella of [prev] ([rendered_step]). *)
Theorem reporter_renders (total_time : option Z) (times : gmap string Z)
    (arrival_time_map : gmap config Z) (algorithm_name : string) (p : path) :
  Forall (λ c, is_Some (arrival_time_map !! c)) p →
  print_bridge_solution total_time None times arrival_time_map algorithm_name
  = ([Banner algorithm_name; NoSolution], None)
  ∧ print_bridge_solution total_time (Some []) times arrival_time_map algorithm_name
    = ([Banner algorithm_name; NoSolution], None)
  ∧ print_bridge_solution total_time None times ∅ algorithm_name
    = ([Banner algorithm_name; NoSolution], None)
  ∧ print_bridge_solution total_time (Some []) times ∅ algorithm_name
    = ([Banner algorithm_name; NoSolution], None)
  ∧ (p ≠ [] →
     print_bridge_solution total_time (Some p) times arrival_time_map algorithm_name
     = (Banner algorithm_name :: Found total_time :: Rule
          :: concat (imap (λ i pair, rendered_step arrival_time_map i pair.1 pair.2)
                       (zip p (tail p))),
        None)).
Proof.
  intros Hall. split_and!; [done..|]. intros Hne.
  destruct p as [|c rest]; [done|]. unfold print_bridge_solution.
  assert (length (c :: rest) - 1 = length (zip (c :: rest) (tail (c :: rest))))%nat
    as ->.
  { rewrite length_zip_with. cbn [tail length]. lia. }
  rewrite (print_each_all _ (λ i pair, rendered_step arrival_time_map i pair.1 pair.2)).
  - done.
  - intros j [prev next] Hj. simpl. by apply report_step_rendered.
Qed.

Lemma reporter_renders_witness :
  let prev : config := ({[ "A"%string; "B"%string ]}, ∅, AtStart) in
  let next : config := (∅, {[ "A"%string; "B"%string ]}, AtEnd) in
  let arrival : gmap config Z := {[ prev := 0; next := 2 ]} in
  Forall (λ c, is_Some (arrival !! c)) [prev; next]
  ∧ print_bridge_solution (Some 2) (Some [prev; next]) two_people arrival "DFS"
    = ([Banner "DFS"; Found (Some 2); Rule]
         ++ rendered_step arrival 0 prev next, None)
  ∧ print_bridge_solution None None two_people ∅ "DFS"
    = ([Banner "DFS"; NoSolution], None).
Proof.
  intros prev next arrival.
  assert (Forall (λ c, is_Some (arrival !! c)) [prev; next]) as Hall.
  { apply (bool_decide_unpack _). vm_compute. exact I. }
  split; [exact Hall|].
  pose proof (reporter_renders (Some 2) two_people arrival "DFS" [prev; next] Hall)
    as (_ & _ & _ & _ & Hsome).
  pose proof (reporter_renders None two_people arrival "DFS" [prev; next] Hall)
    as (_ & _ & Hnone & _).
  split; [|exact Hnone].
  rewrite Hsome by done. reflexivity.
Defined.

(** C10. With a time limit that is not negative, every entry that the
    priority-queue solver pops has a time within the limit; so a popped entry
    whose configuration is complete is always returned, never discarded; and
    the time returned is never above the limit. *)
Theorem bfs_entries_within_limit {order : IterOrder} {hq : Heapq}
    (crossing_times : gmap string Z) (time_limit : Z) :
  0 ≤ time_limit →
  (∀ st t p q',
     reachable (bfs_iteration crossing_times time_limit) (bfs_init crossing_times) st →
     heappop (pq st) = Some ((t, p), q') → t ≤ time_limit)
  ∧ (∀ st t p q' c,
       reachable (bfs_iteration crossing_times time_limit) (bfs_init crossing_times) st →
       heappop (pq st) = Some ((t, p), q') → last p = Some c → c.1.1 = ∅ →
       bfs_iteration crossing_times time_limit st
       = Ok (inl (Some t, Some p, visited_times st)))
  ∧ (∀ fuel t p vis,
       solve_bridge_problem_bfs crossing_times time_limit fuel = Returns (Some t, p, vis) →
       t ≤ time_limit).
Proof.
  intros Hlim.
  assert (∀ st t p q',
    reachable (bfs_iteration crossing_times time_limit) (bfs_init crossing_times) st →
    heappop (pq st) = Some ((t, p), q') → t ≤ time_limit) as Hpop.
  { intros st t p q' Hst [Hperm _]%heappop_Some.
    pose proof (bfs_reachable_paths_inv _ _ _ Hst) as Hinv.
    unfold bfs_paths_inv, bfs_items in Hinv. rewrite Hperm, fmap_cons in Hinv.
    apply Forall_cons in Hinv as [[_ Hle] _]. by apply Hle. }
  split_and!; [done| |].
  - intros st t p q' c Hst Hq Hlast Hgoal.
    pose proof (Hpop _ _ _ _ Hst Hq).
    unfold bfs_iteration. rewrite Hq, Hlast.
    rewrite decide_True by done. by rewrite bool_decide_true.
  - intros fuel t p vis Hrun.
    destruct (bfs_returns_sound _ _ _ _ Hrun) as [Hsound _].
    unfold sound_result in Hsound. simpl in Hsound.
    destruct p as [p|]; [|done]. by destruct Hsound as (c & _ & _ & ?).
Qed.

Lemma bfs_entries_within_limit_witness :
  0 ≤ 60
  ∧ ∀ fuel t p vis,
      @solve_bridge_problem_bfs elements_order list_heapq four_people 60 fuel
      = Returns (Some t, p, vis) → t ≤ 60.
Proof.
  assert (0 ≤ 60) as H0 by lia.
  split; [exact H0|].
  exact (proj2 (proj2
    (@bfs_entries_within_limit elements_order list_heapq four_people 60 H0))).
Defined.

(** * Further properties of the code *)

(** X1. Whatever either solver returns can be handed to the reporter as the
    main block does: every configuration of a returned path is a key of the
    returned map, so the reporter's lookups never raise [KeyError] (nor its
    indexing [IndexError]), whatever the durations, the limit and the fuel. *)
Theorem solver_results_are_reportable {order : IterOrder} {hq : Heapq}
    (crossing_times : gmap string Z) (time_limit : Z) (fuel : nat) (r : result)
    (times : gmap string Z) (algorithm_name : string) :
  solve_bridge_problem_bfs crossing_times time_limit fuel = Returns r
  ∨ solve_bridge_problem_dfs crossing_times time_limit fuel = Returns r →
  (print_bridge_solution r.1.1 r.1.2 times r.2 algorithm_name).2 = None
  ∧ ∀ p c, r.1.2 = Some p → c ∈ p → is_Some (r.2 !! c).
Proof.
  intros Hrun.
  assert (result_recorded crossing_times time_limit r) as (_ & _ & Hp).
  { destruct Hrun as [Hrun|Hrun].
    - by eapply bfs_returns_recorded.
    - by eapply dfs_returns_recorded. }
  split; [by eapply print_bridge_solution_recorded|].
  intros p c Hr Hc.
  pose proof (path_recorded_is_Some _ _ _ (Hp p Hr)) as Hall.
  rewrite Forall_forall in Hall. by apply Hall.
Qed.

Lemma solver_results_are_reportable_witness :
  ∃ r, @solve_bridge_problem_bfs elements_order list_heapq four_people 60 2000
       = Returns r
       ∧ (print_bridge_solution r.1.1 r.1.2 four_people r.2 "BFS").2 = None
       ∧ ∀ p c, r.1.2 = Some p → c ∈ p → is_Some (r.2 !! c).
Proof.
  destruct four_people_bfs_run as (T & p & vis & Hrun).
  exists (Some T, Some p, vis). split; [exact Hrun|].
  exact (@solver_results_are_reportable elements_order list_heapq four_people 60 2000
           (Some T, Some p, vis) four_people "BFS" (or_introl Hrun)).
Defined.

(** X2. With durations that are not negative, the map returned with a
    solution records, for every configuration of the returned path, exactly
    the cumulative time of the path up to it.  So the reporter, which prints
    the difference of two recorded times as the time of a trip, prints for
    every step the trip time of the people who crossed, and the last time
    elapsed is the total time. *)
Theorem reported_times_are_true {order : IterOrder} {hq : Heapq}
    (crossing_times : gmap string Z) (time_limit : Z) (fuel : nat)
    (T : Z) (p : path) (vis : gmap config Z) :
  durations_nonneg crossing_times →
  solve_bridge_problem_bfs crossing_times time_limit fuel = Returns (Some T, Some p, vis)
  ∨ solve_bridge_problem_dfs crossing_times time_limit fuel
    = Returns (Some T, Some p, vis) →
  (∀ i c, p !! i = Some c →
     vis !! c = check_path crossing_times (take (Datatypes.S i) p))
  ∧ (∀ i prev next, p !! i = Some prev → p !! Datatypes.S i = Some next →
       ∃ w t, trip_time crossing_times (moved_people prev next) = Ok w
              ∧ check_path crossing_times (take (Datatypes.S (Datatypes.S i)) p) = Some t
              ∧ report_step p vis i
                = Ok [Step (i + 1) (sorted_names (moved_people prev next))
                        (match prev.2 with AtStart => Forward | AtEnd => Backward end) w;
                      Elapsed t;
                      StartSide (sorted_names next.1.1);
                      EndSide (sorted_names next.1.2);
                      Rule])
  ∧ (∃ c, last p = Some c ∧ vis !! c = Some T).
Proof.
  intros Hnn Hrun.
  assert (result_recorded crossing_times time_limit (Some T, Some p, vis)
          ∧ optimal_result crossing_times time_limit (Some T, Some p, vis))
    as [(Hmap & _ & Hp) [Hsol Hopt]].
  { destruct Hrun as [Hrun|Hrun].
    - split; [by eapply bfs_returns_recorded|].
      by eapply (bfs_returns_optimal crossing_times time_limit Hnn).
    - split; [by eapply dfs_returns_recorded|].
      by eapply (dfs_returns_optimal crossing_times time_limit Hnn). }
  simpl in *. specialize (Hp p eq_refl).
  assert (∀ i c, p !! i = Some c →
            vis !! c = check_path crossing_times (take (Datatypes.S i) p)) as Htimes.
  { intros i c Hi. by eapply optimal_path_times. }
  split; [exact Htimes|]. split.
  - intros i prev next Hprev Hnext.
    pose proof (Htimes _ _ Hprev) as Hvp. pose proof (Htimes _ _ Hnext) as Hvn.
    destruct (Hp _ _ Hprev) as (u1 & t1 & Hu1 & Ht1 & _).
    destruct (Hp _ _ Hnext) as (u2 & t2 & Hu2 & Ht2 & _).
    rewrite Ht1 in Hvp. rewrite Ht2 in Hvn.
    exists (t2 - t1), t2. split_and!; [by eapply check_path_step|done|].
    unfold report_step, index, getitem.
    rewrite Hprev. simpl. rewrite Nat.add_1_r, Hnext. simpl.
    rewrite Hvn. simpl. rewrite Hvp. simpl. done.
  - destruct Hsol as (c & Hj & _ & _). exists c.
    pose proof (journey_last _ _ _ _ Hj) as Hlast. split; [done|].
    rewrite last_lookup in Hlast. rewrite (Htimes _ _ Hlast).
    rewrite take_ge by lia. by eapply journey_check.
Qed.

Lemma reported_times_are_true_witness :
  durations_nonneg four_people
  ∧ ∃ T p vis,
      @solve_bridge_problem_bfs elements_order list_heapq four_people 60 2000
      = Returns (Some T, Some p, vis)
      ∧ (∀ i c, p !! i = Some c →
           vis !! c = check_path four_people (take (Datatypes.S i) p))
      ∧ (∃ c, last p = Some c ∧ vis !! c = Some T).
Proof.
  split; [exact four_people_nonneg|].
  destruct four_people_bfs_run as (T & p & vis & Hrun).
  exists T, p, vis. split; [exact Hrun|].
  destruct (@reported_times_are_true elements_order list_heapq four_people 60 2000
              T p vis four_people_nonneg (or_introl Hrun)) as (Htimes & _ & Hlast).
  split; [exact Htimes|exact Hlast].
Defined.

(** X3. Whatever the durations, the limit and the fuel, the map returned
    by either solver has grown from [{initial_state: 0}] by improvements
    only: the initial configuration is still a key, at a time that is at most
    0.  Every key is a configuration in which the two sides partition the
    people; its time is the cumulative time of a real path from the initial
    configuration to it, and is within the limit (the 0 of the initial
    configuration apart, when the limit is negative). *)
Theorem returned_map_is_sound {order : IterOrder} {hq : Heapq}
    (crossing_times : gmap string Z) (time_limit : Z) (fuel : nat) (r : result) :
  solve_bridge_problem_bfs crossing_times time_limit fuel = Returns r
  ∨ solve_bridge_problem_dfs crossing_times time_limit fuel = Returns r →
  (∃ u, r.2 !! initial_state crossing_times = Some u ∧ u ≤ 0)
  ∧ ∀ c u, r.2 !! c = Some u →
      (c.1.1 ## c.1.2 ∧ c.1.1 ∪ c.1.2 = dom crossing_times)
      ∧ (∃ p, check_path crossing_times p = Some u ∧ last p = Some c)
      ∧ (u ≤ time_limit ∨ (c = initial_state crossing_times ∧ u = 0)).
Proof.
  intros Hrun.
  assert (result_recorded crossing_times time_limit r) as (Hmap & Himp & _).
  { destruct Hrun as [Hrun|Hrun].
    - by eapply bfs_returns_recorded.
    - by eapply dfs_returns_recorded. }
  split.
  - apply Himp. by rewrite lookup_singleton_eq.
  - intros c u Hc. destruct (Hmap c u Hc) as [[p Hj] Hle].
    split; [exact (journey_partitioned _ _ _ _ Hj)|]. split; [|done].
    exists p. split; [by eapply journey_check|by eapply journey_last].
Qed.

Lemma returned_map_is_sound_witness :
  ∃ r, @solve_bridge_problem_bfs elements_order list_heapq four_people 60 2000
       = Returns r
       ∧ (∃ u, r.2 !! initial_state four_people = Some u ∧ u ≤ 0)
       ∧ ∀ c u, r.2 !! c = Some u →
           (c.1.1 ## c.1.2 ∧ c.1.1 ∪ c.1.2 = dom four_people)
           ∧ (∃ p, check_path four_people p = Some u ∧ last p = Some c)
           ∧ (u ≤ 60 ∨ (c = initial_state four_people ∧ u = 0)).
Proof.
  destruct four_people_bfs_run as (T & p & vis & Hrun).
  exists (Some T, Some p, vis). split; [exact Hrun|].
  exact (@returned_map_is_sound elements_order list_heapq four_people 60 2000
           (Some T, Some p, vis) (or_introl Hrun)).
Defined.

(** X4. With durations that are not negative, when no complete path fits in
    the limit both searches run to exhaustion and return the same map,
    whatever the order in which sets are read and the heap breaks ties: the
    map that gives, to every configuration that can be reached within the
    limit (and to the initial one), the least time in which it can be
    reached. *)
Theorem unsolvable_map_holds_shortest_times {order : IterOrder} {hq : Heapq}
    (crossing_times : gmap string Z) (time_limit : Z) (fuel : nat) :
  durations_nonneg crossing_times →
  (∀ p t, ¬ solution crossing_times time_limit p t) →
  (search_fuel crossing_times time_limit ≤ fuel)%nat →
  ∃ vis,
    solve_bridge_problem_bfs crossing_times time_limit fuel = Returns (None, None, vis)
    ∧ solve_bridge_problem_dfs crossing_times time_limit fuel = Returns (None, None, vis)
    ∧ ∀ c u, vis !! c = Some u ↔
        shortest_time crossing_times c u
        ∧ (u ≤ time_limit ∨ c = initial_state crossing_times).
Proof.
  intros Hnn Hno Hfuel.
  destruct (bfs_total_correct crossing_times time_limit Hnn fuel Hfuel)
    as (r1 & Hrun1 & _).
  destruct (dfs_total_correct crossing_times time_limit Hnn fuel Hfuel)
    as (r2 & Hrun2 & _).
  pose proof (exhausted_results_agree (hq1 := hq) (hq2 := hq) _ _ _ _ _ _ Hnn Hno
                (or_introl Hrun1) (or_intror Hrun2)) as <-.
  destruct (exhausted_results _ _ _ _ Hnn Hno (or_introl Hrun1)) as [Hr Hvis].
  destruct r1 as [tp vis]. simpl in *. subst tp. by exists vis.
Qed.

Lemma unsolvable_map_holds_shortest_times_witness :
  durations_nonneg four_people
  ∧ (∀ p t, ¬ solution four_people 15 p t)
  ∧ (search_fuel four_people 15 ≤ 2000)%nat
  ∧ ∃ vis,
      @solve_bridge_problem_bfs elements_order list_heapq four_people 15 2000
      = Returns (None, None, vis)
      ∧ @solve_bridge_problem_dfs elements_order four_people 15 2000
        = Returns (None, None, vis)
      ∧ ∀ c u, vis !! c = Some u ↔
          shortest_time four_people c u ∧ (u ≤ 15 ∨ c = initial_state four_people).
Proof.
  split; [exact four_people_nonneg|]. split; [exact four_people_15_unsolvable|].
  split; [exact four_people_fuel_15|].
  exact (@unsolvable_map_holds_shortest_times elements_order list_heapq four_people 15
           2000 four_people_nonneg four_people_15_unsolvable four_people_fuel_15).
Defined.

(** X5. With a negative limit and durations that are not negative, nothing
    is ever accepted: both solvers return [(None, None, {initial_state: 0})],
    also when there is nobody to move. *)
Theorem negative_limit_explores_nothing {order : IterOrder} {hq : Heapq}
    (crossing_times : gmap string Z) (time_limit : Z) (fuel : nat) :
  durations_nonneg crossing_times → time_limit < 0 →
  (search_fuel crossing_times time_limit ≤ fuel)%nat →
  solve_bridge_problem_bfs crossing_times time_limit fuel
  = Returns (None, None, {[ initial_state crossing_times := 0 ]})
  ∧ solve_bridge_problem_dfs crossing_times time_limit fuel
    = Returns (None, None, {[ initial_state crossing_times := 0 ]}).
Proof.
  intros Hnn Hneg Hfuel.
  assert (∀ p t, ¬ solution crossing_times time_limit p t) as Hno.
  { intros p t (c & Hj & _ & Hle).
    pose proof (journey_nonneg _ _ _ _ Hnn Hj). lia. }
  destruct (bfs_total_correct crossing_times time_limit Hnn fuel Hfuel)
    as (r1 & Hrun1 & _).
  destruct (dfs_total_correct crossing_times time_limit Hnn fuel Hfuel)
    as (r2 & Hrun2 & _).
  pose proof (exhausted_results_agree (hq1 := hq) (hq2 := hq) _ _ _ _ _ _ Hnn Hno
                (or_introl Hrun1) (or_intror Hrun2)) as <-.
  destruct (exhausted_results _ _ _ _ Hnn Hno (or_introl Hrun1)) as [Hr Hvis].
  destruct r1 as [tp vis]. simpl in *. subst tp.
  assert (vis = {[ initial_state crossing_times := 0 ]}) as ->; [|done].
  apply map_eq. intros c. apply option_eq. intros u.
  rewrite Hvis, lookup_singleton_Some. split.
  - intros [[[p Hp] Hmin] Hle].
    pose proof (journey_nonneg _ _ _ _ Hnn Hp).
    destruct Hle as [?| ->]; [lia|]. split; [done|].
    specialize (Hmin _ _ (journey_start crossing_times)). lia.
  - intros [<- <-]. split; [|by right]. split; [eexists; constructor|].
    intros p T Hp. by eapply journey_nonneg.
Qed.

Lemma negative_limit_explores_nothing_witness :
  durations_nonneg four_people ∧ -1 < 0
  ∧ (search_fuel four_people (-1) ≤ 2000)%nat
  ∧ @solve_bridge_problem_bfs elements_order list_heapq four_people (-1) 2000
    = Returns (None, None, {[ initial_state four_people := 0 ]})
  ∧ @solve_bridge_problem_dfs elements_order four_people (-1) 2000
    = Returns (None, None, {[ initial_state four_people := 0 ]}).
Proof.
  split; [exact four_people_nonneg|]. split; [lia|].
  split; [exact four_people_fuel_negative|].
  exact (@negative_limit_explores_nothing elements_order list_heapq four_people (-1)
           2000 four_people_nonneg eq_refl four_people_fuel_negative).
Defined.

(** X6. The limit decides whether a time is returned, not which: with
    durations that are not negative, if either solver returns the time [T]
    under some limit, then under any limit of at least [T] both solvers
    return [T]. *)
Theorem best_time_ignores_limit {order : IterOrder} {hq : Heapq}
    (crossing_times : gmap string Z) (time_limit time_limit' : Z) (fuel fuel' : nat)
    (T : Z) (p : option path) (vis : gmap config Z) :
  durations_nonneg crossing_times →
  solve_bridge_problem_bfs crossing_times time_limit fuel = Returns (Some T, p, vis)
  ∨ solve_bridge_problem_dfs crossing_times time_limit fuel = Returns (Some T, p, vis) →
  T ≤ time_limit' →
  (search_fuel crossing_times time_limit' ≤ fuel')%nat →
  ∃ path_bfs path_dfs vis_bfs vis_dfs,
    solve_bridge_problem_bfs crossing_times time_limit' fuel'
    = Returns (Some T, Some path_bfs, vis_bfs)
    ∧ solve_bridge_problem_dfs crossing_times time_limit' fuel'
      = Returns (Some T, Some path_dfs, vis_dfs).
Proof.
  intros Hnn Hrun HT Hfuel.
  assert (optimal_result crossing_times time_limit (Some T, p, vis)) as Hopt.
  { destruct Hrun as [Hrun|Hrun].
    - by eapply (bfs_returns_optimal crossing_times time_limit Hnn).
    - by eapply (dfs_returns_optimal crossing_times time_limit Hnn). }
  destruct (bfs_total_correct crossing_times time_limit' Hnn fuel' Hfuel)
    as (r1 & Hrun1 & Hopt1 & _).
  destruct (dfs_total_correct crossing_times time_limit' Hnn fuel' Hfuel)
    as (r2 & Hrun2 & Hopt2 & _).
  pose proof (optimal_time_limit _ _ _ _ _ _ Hopt eq_refl HT Hopt1) as H1.
  pose proof (optimal_time_limit _ _ _ _ _ _ Hopt eq_refl HT Hopt2) as H2.
  destruct (optimal_result_Some _ _ _ _ Hopt1 H1) as (p1 & v1 & -> & _).
  destruct (optimal_result_Some _ _ _ _ Hopt2 H2) as (p2 & v2 & -> & _).
  by exists p1, p2, v1, v2.
Qed.

Lemma best_time_ignores_limit_witness :
  durations_nonneg four_people
  ∧ (search_fuel four_people 70 ≤ 3000)%nat
  ∧ ∃ T p vis,
      @solve_bridge_problem_bfs elements_order list_heapq four_people 60 2000
      = Returns (Some T, Some p, vis)
      ∧ (T ≤ 70 →
         ∃ path_bfs path_dfs vis_bfs vis_dfs,
           @solve_bridge_problem_bfs elements_order list_heapq four_people 70 3000
           = Returns (Some T, Some path_bfs, vis_bfs)
           ∧ @solve_bridge_problem_dfs elements_order four_people 70 3000
             = Returns (Some T, Some path_dfs, vis_dfs)).
Proof.
  split; [exact four_people_nonneg|]. split; [exact four_people_fuel_70|].
  destruct four_people_bfs_run as (T & p & vis & Hrun).
  exists T, p, vis. split; [exact Hrun|]. intros HT.
  exact (@best_time_ignores_limit elements_order list_heapq four_people 60 70 2000 3000
           T (Some p) vis four_people_nonneg (or_introl Hrun) HT four_people_fuel_70).
Defined.

(** X7. With durations that are not negative, a time returned by either
    solver is at least the duration of every person: nobody crosses faster
    than their own pace, whatever the company. *)
Theorem best_time_at_least_slowest {order : IterOrder} {hq : Heapq}
    (crossing_times : gmap string Z) (time_limit : Z) (fuel : nat)
    (T : Z) (p : option path) (vis : gmap config Z) (x : string) (d : Z) :
  durations_nonneg crossing_times →
  solve_bridge_problem_bfs crossing_times time_limit fuel = Returns (Some T, p, vis)
  ∨ solve_bridge_problem_dfs crossing_times time_limit fuel = Returns (Some T, p, vis) →
  crossing_times !! x = Some d → d ≤ T.
Proof.
  intros Hnn Hrun Hd.
  assert (sound_result crossing_times time_limit (Some T, p, vis)) as Hsound.
  { destruct Hrun as [Hrun|Hrun].
    - by destruct (bfs_returns_sound _ _ _ _ Hrun).
    - by destruct (dfs_returns_sound _ _ _ _ Hrun). }
  unfold sound_result in Hsound. simpl in Hsound. destruct p as [p|]; [|done].
  by eapply solution_lower_bound.
Qed.

Lemma best_time_at_least_slowest_witness :
  durations_nonneg four_people
  ∧ four_people !! "H"%string = Some 25
  ∧ ∃ T p vis,
      @solve_bridge_problem_bfs elements_order list_heapq four_people 60 2000
      = Returns (Some T, Some p, vis)
      ∧ 25 ≤ T.
Proof.
  split; [exact four_people_nonneg|].
  assert (four_people !! "H"%string = Some 25) as HH by (vm_compute; reflexivity).
  split; [exact HH|].
  destruct four_people_bfs_run as (T & p & vis & Hrun).
  exists T, p, vis. split; [exact Hrun|].
  exact (@best_time_at_least_slowest elements_order list_heapq four_people 60 2000
           T (Some p) vis "H"%string 25 four_people_nonneg (or_introl Hrun) HH).
Defined.

(** X8. One or two people, with durations that are not negative: the time
    returned by both solvers is the duration [w] of the slower, as if they
    crossed together at once, when [w] is within the limit; otherwise both
    return [(None, None, visited)]. *)
Theorem small_party_crosses_together {order : IterOrder} {hq : Heapq}
    (crossing_times : gmap string Z) (time_limit : Z) (fuel : nat) (w : Z) :
  durations_nonneg crossing_times →
  (size (dom crossing_times) = 1 ∨ size (dom crossing_times) = 2)%nat →
  slowest crossing_times (dom crossing_times) w →
  (search_fuel crossing_times time_limit ≤ fuel)%nat →
  (w ≤ time_limit →
   ∃ path_bfs path_dfs vis_bfs vis_dfs,
     solve_bridge_problem_bfs crossing_times time_limit fuel
     = Returns (Some w, Some path_bfs, vis_bfs)
     ∧ solve_bridge_problem_dfs crossing_times time_limit fuel
       = Returns (Some w, Some path_dfs, vis_dfs))
  ∧ (time_limit < w →
     ∃ vis_bfs vis_dfs,
       solve_bridge_problem_bfs crossing_times time_limit fuel
       = Returns (None, None, vis_bfs)
       ∧ solve_bridge_problem_dfs crossing_times time_limit fuel
         = Returns (None, None, vis_dfs)).
Proof.
  intros Hnn Hsz Hslow Hfuel.
  destruct (bfs_total_correct crossing_times time_limit Hnn fuel Hfuel)
    as (r1 & Hrun1 & Hopt1 & _).
  destruct (dfs_total_correct crossing_times time_limit Hnn fuel Hfuel)
    as (r2 & Hrun2 & Hopt2 & _).
  destruct Hslow as [(x & Hx & Hxw) Hall].
  assert (∀ p T, solution crossing_times time_limit p T → w ≤ T) as Hlow.
  { intros p T Hsol. by eapply solution_lower_bound. }
  assert (∀ r, optimal_result crossing_times time_limit r →
            (w ≤ time_limit → r.1.1 = Some w) ∧ (time_limit < w → r.1.1 = None))
    as Hboth.
  { intros [[[T|] [p|]] vis]; unfold optimal_result; simpl; try done.
    - intros [Hsol Hmin]. split.
      + intros Hle. f_equal. apply Z.le_antisymm; [|by eapply Hlow].
        apply (Hmin [initial_state crossing_times; (∅, dom crossing_times, AtEnd)]).
        apply together_solution; [done| |done]. split; [by exists x|done].
      + intros Hlt. destruct Hsol as (c & Hj & Hc & Hle).
        assert (w ≤ T); [|lia]. apply (Hlow p). by exists c.
    - intros Hno. split; [|done]. intros Hle.
      destruct (Hno [initial_state crossing_times; (∅, dom crossing_times, AtEnd)] w).
      apply together_solution; [done| |done]. split; [by exists x|done]. }
  destruct (Hboth r1 Hopt1) as [Hs1 Hn1]. destruct (Hboth r2 Hopt2) as [Hs2 Hn2].
  split.
  - intros Hle.
    destruct (optimal_result_Some _ _ _ _ Hopt1 (Hs1 Hle)) as (p1 & v1 & -> & _).
    destruct (optimal_result_Some _ _ _ _ Hopt2 (Hs2 Hle)) as (p2 & v2 & -> & _).
    by exists p1, p2, v1, v2.
  - intros Hlt.
    destruct (optimal_result_None _ _ _ Hopt1 (Hn1 Hlt)) as (v1 & ->).
    destruct (optimal_result_None _ _ _ Hopt2 (Hn2 Hlt)) as (v2 & ->).
    by exists v1, v2.
Qed.

Lemma small_party_crosses_together_witness :
  durations_nonneg two_people
  ∧ (size (dom two_people) = 1 ∨ size (dom two_people) = 2)%nat
  ∧ slowest two_people (dom two_people) 2
  ∧ (search_fuel two_people 2 ≤ 2000)%nat
  ∧ 2 ≤ 2
  ∧ ∃ path_bfs path_dfs vis_bfs vis_dfs,
      @solve_bridge_problem_bfs elements_order list_heapq two_people 2 2000
      = Returns (Some 2, Some path_bfs, vis_bfs)
      ∧ @solve_bridge_problem_dfs elements_order two_people 2 2000
        = Returns (Some 2, Some path_dfs, vis_dfs).
Proof.
  split; [exact two_people_nonneg|]. split; [exact two_people_size|].
  split; [exact two_people_slowest|]. split; [exact two_people_fuel|].
  split; [lia|].
  exact (proj1 (@small_party_crosses_together elements_order list_heapq two_people 2
                  2000 2 two_people_nonneg two_people_size two_people_slowest
                  two_people_fuel) (Z.le_refl 2)).
Defined.

(** X9. The time returned does not depend on what Python leaves open: with
    durations that are not negative, any two runs (of either solver, with any
    order of reading the sets, any tie-breaking of the heap and any fuel that
    lets them return) give the same time; and when that is no time at all
    they give the same result, map included. *)
Theorem best_time_is_deterministic (order1 order2 : IterOrder) (hq1 hq2 : Heapq)
    (crossing_times : gmap string Z) (time_limit : Z) (fuel1 fuel2 : nat)
    (r1 r2 : result) :
  durations_nonneg crossing_times →
  @solve_bridge_problem_bfs order1 hq1 crossing_times time_limit fuel1 = Returns r1
  ∨ @solve_bridge_problem_dfs order1 crossing_times time_limit fuel1 = Returns r1 →
  @solve_bridge_problem_bfs order2 hq2 crossing_times time_limit fuel2 = Returns r2
  ∨ @solve_bridge_problem_dfs order2 crossing_times time_limit fuel2 = Returns r2 →
  r1.1.1 = r2.1.1 ∧ (r1.1.1 = None → r1 = r2).
Proof.
  intros Hnn Hrun1 Hrun2.
  assert (optimal_result crossing_times time_limit r1) as Hopt1.
  { destruct Hrun1 as [Hrun|Hrun].
    - by eapply (bfs_returns_optimal (order := order1) (hq := hq1) _ _ Hnn).
    - by eapply (dfs_returns_optimal (order := order1) _ _ Hnn). }
  assert (optimal_result crossing_times time_limit r2) as Hopt2.
  { destruct Hrun2 as [Hrun|Hrun].
    - by eapply (bfs_returns_optimal (order := order2) (hq := hq2) _ _ Hnn).
    - by eapply (dfs_returns_optimal (order := order2) _ _ Hnn). }
  split; [by eapply optimal_result_time|].
  intros Hnone. eapply (exhausted_results_agree (order1 := order1) (order2 := order2)
    (hq1 := hq1) (hq2 := hq2)); [done| |done..].
  intros p t Hsol. destruct r1 as [[[T|] [q|]] vis]; unfold optimal_result in Hopt1;
    simpl in *; try done. by apply (Hopt1 p t).
Qed.

Lemma best_time_is_deterministic_witness :
  durations_nonneg four_people
  ∧ ∃ r1 r2,
      @solve_bridge_problem_bfs elements_order list_heapq four_people 60 2000
      = Returns r1
      ∧ @solve_bridge_problem_dfs reversed_order four_people 60 2000 = Returns r2
      ∧ r1.1.1 = r2.1.1 ∧ (r1.1.1 = None → r1 = r2).
Proof.
  split; [exact four_people_nonneg|].
  destruct four_people_bfs_run as (T & p & vis & Hrun).
  destruct (@dfs_total_correct reversed_order four_people 60 four_people_nonneg 2000)
    as (r2 & Hrun2 & _).
  { apply Nat.leb_le. vm_compute. reflexivity. }
  exists (Some T, Some p, vis), r2.
  split; [exact Hrun|]. split; [exact Hrun2|].
  exact (best_time_is_deterministic elements_order reversed_order list_heapq list_heapq
           four_people 60 2000 2000 _ _ four_people_nonneg
           (or_introl Hrun) (or_intror Hrun2)).
Defined.


(** X10. The script: whatever the order in which sets are read and the heap
    breaks ties, the main block prints a report for each solver, each
    announcing a solution of 60 minutes followed by the steps of the path
    that solver returned, and ends without an exception. *)
Theorem main_reports_two_solutions {order : IterOrder} {hq : Heapq} (fuel : nat) :
  (search_fuel CROSSING_TIMES TIME_LIMIT ≤ fuel)%nat →
  ∃ path_bfs vis_bfs path_dfs vis_dfs,
    solve_bridge_problem_bfs CROSSING_TIMES TIME_LIMIT fuel
    = Returns (Some 60, Some path_bfs, vis_bfs)
    ∧ solve_bridge_problem_dfs CROSSING_TIMES TIME_LIMIT fuel
      = Returns (Some 60, Some path_dfs, vis_dfs)
    ∧ main fuel
      = ([Banner "BFS (Dijkstra's)"; Found (Some 60); Rule]
           ++ concat (imap (λ i pair, rendered_step vis_bfs i pair.1 pair.2)
                        (zip path_bfs (tail path_bfs)))
           ++ [Banner "DFS (with Optimization)"; Found (Some 60); Rule]
           ++ concat (imap (λ i pair, rendered_step vis_dfs i pair.1 pair.2)
                        (zip path_dfs (tail path_dfs))),
         Returns tt).
Proof.
  intros Hfuel.
  destruct (reference_time_spec CROSSING_TIMES TIME_LIMIT fuel _ main_nonneg Hfuel
              main_reference) as [(r1 & Hrun1 & Ht1 & Hopt1) (r2 & Hrun2 & Ht2 & Hopt2)].
  destruct (optimal_result_Some _ _ _ _ Hopt1 Ht1) as (p1 & v1 & -> & c1 & Hj1 & _).
  destruct (optimal_result_Some _ _ _ _ Hopt2 Ht2) as (p2 & v2 & -> & c2 & Hj2 & _).
  exists p1, v1, p2, v2. split; [done|]. split; [done|].
  destruct (bfs_returns_recorded _ _ _ _ Hrun1) as (_ & _ & Hp1).
  destruct (dfs_returns_recorded _ _ _ _ Hrun2) as (_ & _ & Hp2).
  unfold main. rewrite Hrun1, Hrun2.
  rewrite !print_bridge_solution_rendered;
    eauto using path_recorded_is_Some, journey_nonempty.
Qed.

Lemma main_reports_two_solutions_witness :
  (search_fuel CROSSING_TIMES TIME_LIMIT ≤ 2000)%nat
  ∧ ∃ path_bfs vis_bfs path_dfs vis_dfs,
      @solve_bridge_problem_bfs elements_order list_heapq CROSSING_TIMES TIME_LIMIT 2000
      = Returns (Some 60, Some path_bfs, vis_bfs)
      ∧ @solve_bridge_problem_dfs elements_order CROSSING_TIMES TIME_LIMIT 2000
        = Returns (Some 60, Some path_dfs, vis_dfs)
      ∧ @main elements_order list_heapq 2000
        = ([Banner "BFS (Dijkstra's)"; Found (Some 60); Rule]
             ++ concat (imap (λ i pair, rendered_step vis_bfs i pair.1 pair.2)
                          (zip path_bfs (tail path_bfs)))
             ++ [Banner "DFS (with Optimization)"; Found (Some 60); Rule]
             ++ concat (imap (λ i pair, rendered_step vis_dfs i pair.1 pair.2)
                          (zip path_dfs (tail path_dfs))),
           Returns tt).
Proof.
  split; [exact main_fuel|].
  exact (@main_reports_two_solutions elements_order list_heapq 2000 main_fuel).
Defined.

(** X11. The reporter on a path that the map does not cover.  If the
    configuration at position [j] of a path of at least two configurations is
    not a key of the map, while all those before it are, the reporter prints
    its heading and the blocks of the steps before the one that needs the
    missing key, and then raises [KeyError]. *)
Theorem reporter_stops_at_missing_key (total_time : option Z) (times : gmap string Z)
    (arrival_time_map : gmap config Z) (algorithm_name : string) (p : path)
    (j : nat) (c : config) :
  (2 ≤ length p)%nat → p !! j = Some c → arrival_time_map !! c = None →
  Forall (λ c, is_Some (arrival_time_map !! c)) (take j p) →
  print_bridge_solution total_time (Some p) times arrival_time_map algorithm_name
  = (Banner algorithm_name :: Found total_time :: Rule
       :: concat (imap (λ i pair, rendered_step arrival_time_map i pair.1 pair.2)
                    (take (pred j) (zip p (tail p)))),
     Some KeyError).
Proof.
  intros Hlen Hj Hc Hall.
  destruct p as [|c0 rest]; [done|]. unfold print_bridge_solution.
  pose proof (lookup_lt_Some _ _ _ Hj) as Hjlt.
  assert (length (take (pred j) (zip (c0 :: rest) (tail (c0 :: rest)))) = pred j)
    as Hlen'.
  { rewrite length_take, length_zip_with. cbn [tail length] in *. lia. }
  rewrite (print_each_stops _ (λ i pair, rendered_step arrival_time_map i pair.1 pair.2)
             (take (pred j) (zip (c0 :: rest) (tail (c0 :: rest)))) 0 _ KeyError).
  - done.
  - intros i [a b] Hi. simpl.
    apply lookup_take_Some in Hi as [Hi Hlt].
    apply lookup_zip_with_Some in Hi as (a' & b' & [= <- <-] & Ha & Hb).
    rewrite lookup_tail in Hb. rewrite Forall_lookup in Hall.
    apply report_step_Ok; [done..| |].
    + apply (Hall i). rewrite lookup_take_lt by lia. done.
    + apply (Hall (Datatypes.S i)). rewrite lookup_take_lt by lia. done.
  - rewrite Hlen'. simpl. destruct j as [|j]; simpl.
    + destruct rest as [|c1 rest]; [simpl in Hlen; lia|].
      apply (report_step_KeyError _ _ _ c0 c1); [done..|]. left.
      by injection Hj as ->.
    + destruct (lookup_lt_is_Some_2 (c0 :: rest) j) as [a Ha]; [lia|].
      apply (report_step_KeyError _ _ _ a c); [done..|]. by right.
  - rewrite Hlen'. cbn [length] in *. lia.
Qed.

Lemma reporter_stops_at_missing_key_witness :
  let prev : config := ({[ "A"%string; "B"%string ]}, ∅, AtStart) in
  let next : config := (∅, {[ "A"%string; "B"%string ]}, AtEnd) in
  (2 ≤ length [prev; next])%nat
  ∧ [prev; next] !! 1%nat = Some next
  ∧ ({[ prev := 0 ]} : gmap config Z) !! next = None
  ∧ Forall (λ c, is_Some (({[ prev := 0 ]} : gmap config Z) !! c)) (take 1 [prev; next])
  ∧ print_bridge_solution (Some 2) (Some [prev; next]) two_people {[ prev := 0 ]} "BFS"
    = ([Banner "BFS"; Found (Some 2); Rule], Some KeyError).
Proof.
  intros prev next.
  assert (({[ prev := 0 ]} : gmap config Z) !! next = None) as Hnone.
  { apply lookup_singleton_ne. done. }
  assert (Forall (λ c, is_Some (({[ prev := 0 ]} : gmap config Z) !! c))
            (take 1 [prev; next])) as Hall.
  { apply Forall_singleton. rewrite lookup_singleton_eq. done. }
  split; [simpl; lia|]. split; [reflexivity|]. split; [exact Hnone|].
  split; [exact Hall|].
  exact (reporter_stops_at_missing_key (Some 2) two_people {[ prev := 0 ]} "BFS"
           [prev; next] 1 next (le_n 2) eq_refl Hnone Hall).
Defined.

(** X12. One round of the depth-first loop replaces the item it pops by the
    items it pushes, in order of decreasing time: so the next item popped, if
    the round pushed any, is a pushed item of least time. *)
Theorem dfs_pushes_cheapest_child_last {order : IterOrder}
    (crossing_times : gmap string Z) (time_limit : Z) (st st' : dfs_state) :
  dfs_iteration crossing_times time_limit st = Ok (inr st') →
  ∃ stack' item kids,
    pop_last (stack st) = Some (stack', item)
    ∧ stack st' = stack' ++ kids
    ∧ StronglySorted (λ a b, b.1.1 ≤ a.1.1) kids
    ∧ (kids ≠ [] →
       ∃ rest k, pop_last (stack st') = Some (rest, k)
                 ∧ k ∈ kids ∧ ∀ k', k' ∈ kids → k.1.1 ≤ k'.1.1).
Proof.
  unfold dfs_iteration.
  destruct (pop_last (stack st)) as [[stack' [[t p] c]]|] eqn:Hpop; [|done].
  intros Hbody. exists stack', (t, p, c).
  assert (∃ kids, stack st' = stack' ++ kids
                  ∧ StronglySorted (λ a b, b.1.1 ≤ a.1.1) kids) as (kids & Hst & Hs).
  { destruct (decide (c.1.1 = ∅)).
    { exists []. split; [|constructor]. rewrite app_nil_r.
      destruct (below t (min_total_time st) && bool_decide (t ≤ time_limit));
        by simplify_eq. }
    destruct (negb (below t (min_total_time st)) || bool_decide (t > time_limit)).
    { exists []. split; [|constructor]. rewrite app_nil_r. by simplify_eq. }
    destruct (stale (visited_states st) c t).
    { exists []. split; [|constructor]. rewrite app_nil_r. by simplify_eq. }
    destruct (explore crossing_times time_limit append_move t p c
                (visited_states st, [])) as [[v' moves]|]; [|done].
    simpl in Hbody. exists (sorted_desc (λ x, x.1.1) moves).
    split; [by simplify_eq|]. apply (sorted_desc_sorted (λ x, x.1.1)). }
  exists kids. split_and!; [done..|]. intros Hne.
  destruct (pop_last (stack st')) as [[rest k]|] eqn:Hpop'.
  - exists rest, k. split; [done|]. apply pop_last_Some in Hpop'.
    assert (last kids = Some k) as Hlast.
    { assert (last (stack st') = Some k) as Hl by by rewrite Hpop', last_snoc.
      rewrite Hst, last_app in Hl. destruct (last kids) eqn:Hk; [done|].
      by apply last_None in Hk. }
    split; [by eapply last_Some_elem_of|].
    intros k' Hk'. by apply (sorted_desc_last (λ x, x.1.1) kids).
  - apply pop_last_None in Hpop'. rewrite Hst in Hpop'.
    by apply app_eq_nil in Hpop' as [_ ?].
Qed.

Lemma dfs_pushes_cheapest_child_last_witness :
  ∃ st', @dfs_iteration elements_order two_people 2 (dfs_init two_people) = Ok (inr st')
    ∧ ∃ stack' item kids,
        pop_last (stack (dfs_init two_people)) = Some (stack', item)
        ∧ stack st' = stack' ++ kids
        ∧ StronglySorted (λ a b, b.1.1 ≤ a.1.1) kids
        ∧ (kids ≠ [] →
           ∃ rest k, pop_last (stack st') = Some (rest, k)
                     ∧ k ∈ kids ∧ ∀ k', k' ∈ kids → k.1.1 ≤ k'.1.1).
Proof.
  destruct two_people_dfs_round as [st' Hround].
  exists st'. split; [exact Hround|].
  exact (@dfs_pushes_cheapest_child_last elements_order two_people 2
           (dfs_init two_people) st' Hround).
Defined.

(** X13. With durations that are not negative, the priority-queue solver
    pops entries in order of time: after a round that popped an entry of
    time [t], every entry of the heap has a time of at least [t], and so has
    the entry popped next. *)
Theorem bfs_pops_in_time_order {order : IterOrder} {hq : Heapq}
    (crossing_times : gmap string Z) (time_limit : Z) (st st' : bfs_state)
    (t : Z) (p : path) (q : heap) :
  durations_nonneg crossing_times →
  reachable (bfs_iteration crossing_times time_limit) (bfs_init crossing_times) st →
  heappop (pq st) = Some ((t, p), q) →
  bfs_iteration crossing_times time_limit st = Ok (inr st') →
  Forall (λ e, t ≤ e.1) (heap_items (pq st'))
  ∧ ∀ t' p' q', heappop (pq st') = Some ((t', p'), q') → t ≤ t'.
Proof.
  intros Hnn Hst Hpop Hbody.
  pose proof (bfs_round_times _ _ _ _ _ _ _ Hnn
                (bfs_reachable_paths_inv _ _ _ Hst) Hpop Hbody) as Hall.
  split; [done|]. intros t' p' q' [Hperm _]%heappop_Some.
  rewrite Hperm in Hall. by apply Forall_cons in Hall as [? _].
Qed.

Lemma bfs_pops_in_time_order_witness :
  durations_nonneg two_people
  ∧ reachable (@bfs_iteration elements_order list_heapq two_people 2)
      (bfs_init two_people) (bfs_init two_people)
  ∧ @heappop list_heapq (pq (bfs_init two_people))
    = Some ((0, [initial_state two_people]), [])
  ∧ ∃ st', @bfs_iteration elements_order list_heapq two_people 2 (bfs_init two_people)
           = Ok (inr st')
      ∧ Forall (λ e, 0 ≤ e.1) (heap_items (pq st'))
      ∧ ∀ t' p' q', heappop (pq st') = Some ((t', p'), q') → 0 ≤ t'.
Proof.
  split; [exact two_people_nonneg|]. split; [constructor|]. split; [reflexivity|].
  destruct two_people_bfs_round as [st' Hround].
  exists st'. split; [exact Hround|].
  exact (@bfs_pops_in_time_order elements_order list_heapq two_people 2
           (bfs_init two_people) st' 0 [initial_state two_people] []
           two_people_nonneg (reachable_start _ _) eq_refl Hround).
Defined.

(** X14. Whatever the durations, the limit and the fuel, a result of either
    solver is of one of two shapes: no time and no path; or a time and a
    path, where the path passes the check with that time, ends with nobody
    left on the start side, and the time is within the limit. *)
Theorem results_are_consistent {order : IterOrder} {hq : Heapq}
    (crossing_times : gmap string Z) (time_limit : Z) (fuel : nat) (r : result) :
  solve_bridge_problem_bfs crossing_times time_limit fuel = Returns r
  ∨ solve_bridge_problem_dfs crossing_times time_limit fuel = Returns r →
  match r.1.1, r.1.2 with
  | Some T, Some p =>
      check_path crossing_times p = Some T ∧ T ≤ time_limit
      ∧ ∃ c, last p = Some c ∧ c.1.1 = ∅
  | None, None => True
  | _, _ => False
  end.
Proof.
  intros Hrun.
  assert (sound_result crossing_times time_limit r) as Hsound.
  { destruct Hrun as [Hrun|Hrun].
    - by destruct (bfs_returns_sound _ _ _ _ Hrun).
    - by destruct (dfs_returns_sound _ _ _ _ Hrun). }
  unfold sound_result in Hsound.
  destruct (r.1.1) as [T|], (r.1.2) as [p|]; try done.
  destruct Hsound as (c & Hj & Hc & Hle).
  split_and!; [by eapply journey_check|done|].
  exists c. split; [by eapply journey_last|done].
Qed.

Lemma results_are_consistent_witness :
  ∃ r, @solve_bridge_problem_bfs elements_order list_heapq four_people 60 2000
       = Returns r
       ∧ match r.1.1, r.1.2 with
         | Some T, Some p =>
             check_path four_people p = Some T ∧ T ≤ 60
             ∧ ∃ c, last p = Some c ∧ c.1.1 = ∅
         | None, None => True
         | _, _ => False
         end.
Proof.
  destruct four_people_bfs_run as (T & p & vis & Hrun).
  exists (Some T, Some p, vis). split; [exact Hrun|].
  exact (@results_are_consistent elements_order list_heapq four_people 60 2000
           (Some T, Some p, vis) (or_introl Hrun)).
Defined.

(** X15. Nobody to move, and a limit that is not negative: handed the
    result of either solver, the reporter announces a solution of 0 minutes
    and prints no step. *)
Theorem nobody_is_reported_solved {order : IterOrder} {hq : Heapq}
    (time_limit : Z) (fuel : nat) (r : result) (algorithm_name : string) :
  0 ≤ time_limit → (2 ≤ fuel)%nat →
  solve_bridge_problem_bfs ∅ time_limit fuel = Returns r
  ∨ solve_bridge_problem_dfs ∅ time_limit fuel = Returns r →
  print_bridge_solution r.1.1 r.1.2 ∅ r.2 algorithm_name
  = ([Banner algorithm_name; Found (Some 0); Rule], None).
Proof.
  intros Hlim Hfuel [Hrun|Hrun].
  - rewrite bfs_nobody in Hrun by (done || lia). by injection Hrun as <-.
  - rewrite dfs_nobody in Hrun by done. by injection Hrun as <-.
Qed.

Lemma nobody_is_reported_solved_witness :
  0 ≤ 0 ∧ (2 ≤ 2)%nat
  ∧ ∃ r, @solve_bridge_problem_bfs elements_order list_heapq ∅ 0 2 = Returns r
         ∧ print_bridge_solution r.1.1 r.1.2 ∅ r.2 "BFS"
           = ([Banner "BFS"; Found (Some 0); Rule], None).
Proof.
  split; [lia|]. split; [lia|].
  pose proof (@bfs_nobody elements_order list_heapq 0 2 (Z.le_refl 0) (le_S 1 1 (le_n 1)))
    as Hrun.
  eexists. split; [exact Hrun|].
  exact (@nobody_is_reported_solved elements_order list_heapq 0 2 _ "BFS"
           (Z.le_refl 0) (le_n 2) (or_introl Hrun)).
Defined.

(** X16. With positive durations, a path returned by either solver never
    passes twice through the same configuration. *)
Theorem returned_path_has_no_detour {order : IterOrder} {hq : Heapq}
    (crossing_times : gmap string Z) (time_limit : Z) (fuel : nat)
    (T : Z) (p : path) (vis : gmap config Z) :
  (∀ x d, crossing_times !! x = Some d → 0 < d) →
  solve_bridge_problem_bfs crossing_times time_limit fuel = Returns (Some T, Some p, vis)
  ∨ solve_bridge_problem_dfs crossing_times time_limit fuel
    = Returns (Some T, Some p, vis) →
  NoDup p.
Proof.
  intros Hpos Hrun.
  assert (durations_nonneg crossing_times) as Hnn.
  { intros x d Hd. apply Hpos in Hd. lia. }
  assert (result_recorded crossing_times time_limit (Some T, Some p, vis)
          ∧ optimal_result crossing_times time_limit (Some T, Some p, vis))
    as [(Hmap & _ & Hp) [Hsol Hopt]].
  { destruct Hrun as [Hrun|Hrun].
    - split; [by eapply bfs_returns_recorded|].
      by eapply (bfs_returns_optimal crossing_times time_limit Hnn).
    - split; [by eapply dfs_returns_recorded|].
      by eapply (dfs_returns_optimal crossing_times time_limit Hnn). }
  simpl in *. specialize (Hp p eq_refl).
  assert (∀ i j c, (i < j)%nat → p !! i = Some c → p !! j = Some c → False) as Hne.
  { intros i j c Hij Hi Hj.
    pose proof (optimal_path_times _ _ _ _ _ _ _ Hsol Hopt Hp Hmap Hi) as Hti.
    pose proof (optimal_path_times _ _ _ _ _ _ _ Hsol Hopt Hp Hmap Hj) as Htj.
    destruct (Hp _ _ Hi) as (u & ti & Hu & Hci & _).
    destruct (Hp _ _ Hj) as (u' & tj & Hu' & Hcj & _).
    assert (ti < tj).
    { eapply check_path_grows; [done| |done..]. apply lookup_lt_Some in Hj. lia. }
    rewrite Hci in Hti. rewrite Hcj in Htj. rewrite Hti in Htj. simplify_eq. lia. }
  apply NoDup_alt. intros i j c Hi Hj.
  destruct (Nat.lt_trichotomy i j) as [Hlt|[->|Hlt]]; [|done|]; exfalso; eauto.
Qed.

Lemma returned_path_has_no_detour_witness :
  (∀ x d, four_people !! x = Some d → 0 < d)
  ∧ ∃ T p vis,
      @solve_bridge_problem_bfs elements_order list_heapq four_people 60 2000
      = Returns (Some T, Some p, vis)
      ∧ NoDup p.
Proof.
  split; [exact four_people_positive|].
  destruct four_people_bfs_run as (T & p & vis & Hrun).
  exists T, p, vis. split; [exact Hrun|].
  exact (@returned_path_has_no_detour elements_order list_heapq four_people 60 2000
           T p vis four_people_positive (or_introl Hrun)).
Defined.

(** X17. In a path returned by either solver the umbrella changes side at
    every step, starting from the start side; and unless there is nobody to
    move, the path has an odd number of steps, the last one forward. *)
Theorem returned_path_alternates {order : IterOrder} {hq : Heapq}
    (crossing_times : gmap string Z) (time_limit : Z) (fuel : nat)
    (t : option Z) (p : path) (vis : gmap config Z) :
  solve_bridge_problem_bfs crossing_times time_limit fuel = Returns (t, Some p, vis)
  ∨ solve_bridge_problem_dfs crossing_times time_limit fuel = Returns (t, Some p, vis) →
  (∀ i c, p !! i = Some c → c.2 = if Nat.even i then AtStart else AtEnd)
  ∧ (dom crossing_times ≠ ∅ → Nat.odd (length p - 1) = true).
Proof.
  intros Hrun.
  assert (sound_result crossing_times time_limit (t, Some p, vis)) as Hsound.
  { destruct Hrun as [Hrun|Hrun].
    - by destruct (bfs_returns_sound _ _ _ _ Hrun).
    - by destruct (dfs_returns_sound _ _ _ _ Hrun). }
  unfold sound_result in Hsound. simpl in Hsound.
  destruct t as [T|]; [|done]. destruct Hsound as (c & Hj & Hc & _).
  split; [intros i ci Hi; by eapply journey_alternates|].
  intros Hne. pose proof (journey_side _ _ _ _ Hj) as Hside.
  rewrite (journey_complete_side _ _ _ _ Hne Hj Hc) in Hside.
  destruct p as [|c0 rest]; [by apply journey_nonempty in Hj|]. cbn [length] in *.
  rewrite Nat.sub_succ, Nat.sub_0_r, <- Nat.even_succ.
  by destruct (Nat.even (Datatypes.S (length rest))).
Qed.

Lemma returned_path_alternates_witness :
  ∃ t p vis,
    @solve_bridge_problem_bfs elements_order list_heapq four_people 60 2000
    = Returns (t, Some p, vis)
    ∧ (∀ i c, p !! i = Some c → c.2 = if Nat.even i then AtStart else AtEnd)
    ∧ (dom four_people ≠ ∅ → Nat.odd (length p - 1) = true).
Proof.
  destruct four_people_bfs_run as (T & p & vis & Hrun).
  exists (Some T), p, vis. split; [exact Hrun|].
  exact (@returned_path_alternates elements_order list_heapq four_people 60 2000
           (Some T) p vis (or_introl Hrun)).
Defined.

(** X18. The groups that one exploration tries, whatever the order in which
    the set is read: exactly the sets of one or two people on the side of the
    umbrella, each of them once. *)
Theorem groups_are_tried_once {order : IterOrder} (p : path) (c : config) :
  NoDup ((list_to_set <$> groups p c) : list (gset string))
  ∧ ∀ g : gset string,
      g ∈ ((list_to_set <$> groups p c) : list (gset string))
      ↔ g ⊆ move_from c ∧ (size g = 1 ∨ size g = 2)%nat.
Proof.
  assert (NoDup (iter p (move_from c))) as Hl.
  { rewrite iter_perm. apply NoDup_elements. }
  split.
  - apply NoDup_fmap_2_strong; [|apply groups_NoDup].
    intros t1 t2 [H1 _]%elem_of_groups [H2 _]%elem_of_groups Heq.
    by apply (sublist_set_inj (iter p (move_from c))).
  - intros g. rewrite list_elem_of_fmap. split.
    + intros (t & -> & Ht). by apply groups_sound in Ht.
    + intros [Hsub Hsz]. destruct (groups_complete p c g Hsub Hsz) as (t & Ht & <-).
      by exists t.
Qed.

(** X19. Round after round, the map of either solver only improves: a
    configuration once recorded stays recorded, and its time never goes
    up. *)
Theorem visited_only_improves {order : IterOrder} {hq : Heapq}
    (crossing_times : gmap string Z) (time_limit : Z) :
  (∀ st st',
     reachable (bfs_iteration crossing_times time_limit) (bfs_init crossing_times) st →
     bfs_iteration crossing_times time_limit st = Ok (inr st') →
     improved (visited_times st) (visited_times st'))
  ∧ (∀ st st',
       reachable (dfs_iteration crossing_times time_limit) (dfs_init crossing_times) st →
       dfs_iteration crossing_times time_limit st = Ok (inr st') →
       improved (visited_states st) (visited_states st')).
Proof.
  split; intros st st' Hst Hbody.
  - destruct (bfs_reachable_recorded _ _ _ Hst) as [Hinv _].
    pose proof (bfs_iteration_recorded _ _ _ Hinv) as Hp.
    rewrite Hbody in Hp. by destruct Hp.
  - destruct (dfs_reachable_recorded _ _ _ Hst) as [Hinv _].
    pose proof (dfs_iteration_recorded _ _ _ Hinv) as Hp.
    rewrite Hbody in Hp. by destruct Hp.
Qed.

Lemma visited_only_improves_witness :
  ∃ st',
    @bfs_iteration elements_order list_heapq two_people 2 (bfs_init two_people)
    = Ok (inr st')
    ∧ improved (visited_times (@bfs_init list_heapq two_people)) (visited_times st').
Proof.
  destruct two_people_bfs_round as [st' Hround].
  exists st'. split; [exact Hround|].
  exact (proj1 (@visited_only_improves elements_order list_heapq two_people 2)
           (bfs_init two_people) st' (reachable_start _ _) Hround).
Defined.

(** X20. With durations that are not negative, the report on the result of
    either solver tells the truth about the problem: it is the heading
    followed by the no-solution message exactly when no complete path fits in
    the limit; and it never ends in an exception. *)
Theorem report_says_whether_solvable {order : IterOrder} {hq : Heapq}
    (crossing_times : gmap string Z) (time_limit : Z) (fuel : nat) (r : result)
    (times : gmap string Z) (algorithm_name : string) :
  durations_nonneg crossing_times →
  solve_bridge_problem_bfs crossing_times time_limit fuel = Returns r
  ∨ solve_bridge_problem_dfs crossing_times time_limit fuel = Returns r →
  (print_bridge_solution r.1.1 r.1.2 times r.2 algorithm_name
   = ([Banner algorithm_name; NoSolution], None)
   ↔ ∀ p t, ¬ solution crossing_times time_limit p t)
  ∧ ((∃ p t, solution crossing_times time_limit p t) →
     ∃ T steps,
       print_bridge_solution r.1.1 r.1.2 times r.2 algorithm_name
       = (Banner algorithm_name :: Found (Some T) :: Rule :: steps, None)
       ∧ (∃ p, solution crossing_times time_limit p T)
       ∧ ∀ p t, solution crossing_times time_limit p t → T ≤ t).
Proof.
  intros Hnn Hrun.
  assert (optimal_result crossing_times time_limit r
          ∧ result_recorded crossing_times time_limit r) as [Hopt (_ & _ & Hp)].
  { destruct Hrun as [Hrun|Hrun].
    - split; [by eapply (bfs_returns_optimal crossing_times time_limit Hnn)|].
      by eapply bfs_returns_recorded.
    - split; [by eapply (dfs_returns_optimal crossing_times time_limit Hnn)|].
      by eapply dfs_returns_recorded. }
  destruct r as [[[T|] [p|]] vis]; unfold optimal_result in Hopt;
    simpl in Hopt, Hp; cbn [fst snd]; try done.
  - destruct Hopt as [Hsol Hmin]. pose proof Hsol as (c & Hj & _).
    rewrite print_bridge_solution_rendered;
      eauto using path_recorded_is_Some, journey_nonempty.
    split.
    + split; [done|]. intros Hno. by destruct (Hno p T).
    + intros _. eexists T, _. split_and!; [done|by exists p|done].
  - split; [done|]. intros (p & t & Hsol). by destruct (Hopt p t).
Qed.

Lemma report_says_whether_solvable_witness :
  durations_nonneg four_people
  ∧ ∃ r,
      @solve_bridge_problem_bfs elements_order list_heapq four_people 60 2000
      = Returns r
      ∧ (print_bridge_solution r.1.1 r.1.2 four_people r.2 "BFS"
         = ([Banner "BFS"; NoSolution], None)
         ↔ ∀ p t, ¬ solution four_people 60 p t)
      ∧ ((∃ p t, solution four_people 60 p t) →
         ∃ T steps,
           print_bridge_solution r.1.1 r.1.2 four_people r.2 "BFS"
           = (Banner "BFS" :: Found (Some T) :: Rule :: steps, None)
           ∧ (∃ p, solution four_people 60 p T)
           ∧ ∀ p t, solution four_people 60 p t → T ≤ t).
Proof.
  split; [exact four_people_nonneg|].
  destruct four_people_bfs_run as (T & p & vis & Hrun).
  exists (Some T, Some p, vis). split; [exact Hrun|].
  exact (@report_says_whether_solvable elements_order list_heapq four_people 60 2000
           (Some T, Some p, vis) four_people "BFS" four_people_nonneg (or_introl Hrun)).
Defined.

(** X21. The reporter names the people who crossed.  In a path returned by
    either solver, whatever the durations, the set that the reporter reads
    off the start sides of two consecutive configurations is the group of
    that step: one or two people, all on the side of the umbrella, whose
    crossing turns the first configuration into the second; and the names
    printed are the members of that group. *)
Theorem reporter_names_the_movers {order : IterOrder} {hq : Heapq}
    (crossing_times : gmap string Z) (time_limit : Z) (fuel : nat)
    (t : option Z) (p : path) (vis : gmap config Z) (i : nat) (prev next : config) :
  solve_bridge_problem_bfs crossing_times time_limit fuel = Returns (t, Some p, vis)
  ∨ solve_bridge_problem_dfs crossing_times time_limit fuel = Returns (t, Some p, vis) →
  p !! i = Some prev → p !! Datatypes.S i = Some next →
  (size (moved_people prev next) = 1 ∨ size (moved_people prev next) = 2)%nat
  ∧ moved_people prev next ⊆ move_from prev
  ∧ next = new_config prev (moved_people prev next)
  ∧ sorted_names (moved_people prev next) ≡ₚ elements (moved_people prev next).
Proof.
  intros Hrun Hprev Hnext.
  assert (sound_result crossing_times time_limit (t, Some p, vis)) as Hsound.
  { destruct Hrun as [Hrun|Hrun].
    - by destruct (bfs_returns_sound _ _ _ _ Hrun).
    - by destruct (dfs_returns_sound _ _ _ _ Hrun). }
  unfold sound_result in Hsound. simpl in Hsound.
  destruct t as [T|]; [|done]. destruct Hsound as (c & Hj & _).
  destruct (check_path_movers _ _ _ _ _ _ (journey_check _ _ _ _ Hj) Hprev Hnext)
    as (Hsz & Hsub & Heq).
  split_and!; [done..|]. apply sorted_names_perm.
Qed.

Lemma reporter_names_the_movers_witness :
  let prev : config := initial_state two_people in
  let next : config := (∅, dom two_people, AtEnd) in
  ∃ t vis,
    @solve_bridge_problem_bfs elements_order list_heapq two_people 2 2000
    = Returns (t, Some [prev; next], vis)
    ∧ (size (moved_people prev next) = 1 ∨ size (moved_people prev next) = 2)%nat
    ∧ moved_people prev next ⊆ move_from prev
    ∧ next = new_config prev (moved_people prev next)
    ∧ sorted_names (moved_people prev next) ≡ₚ elements (moved_people prev next).
Proof.
  intros prev next.
  destruct (returned_path_Some _ _ two_people_bfs_path) as (t & vis & Hrun).
  exists t, vis. split; [exact Hrun|].
  exact (@reporter_names_the_movers elements_order list_heapq two_people 2 2000
           t [prev; next] vis 0 prev next (or_introl Hrun) eq_refl eq_refl).
Defined.

(** X22. The incumbent of the depth-first search, whatever the durations:
    after every round [min_total_time] and [best_path] are both unset, or are
    the time and the path of a complete path within the limit; and once set,
    [min_total_time] never goes up. *)
Theorem dfs_incumbent_only_improves {order : IterOrder}
    (crossing_times : gmap string Z) (time_limit : Z) (st st' : dfs_state) :
  reachable (dfs_iteration crossing_times time_limit) (dfs_init crossing_times) st →
  dfs_iteration crossing_times time_limit st = Ok (inr st') →
  match min_total_time st', best_path st' with
  | Some T, Some p =>
      check_path crossing_times p = Some T ∧ T ≤ time_limit
      ∧ ∃ c, last p = Some c ∧ c.1.1 = ∅
  | None, None => True
  | _, _ => False
  end
  ∧ ∀ T, min_total_time st = Some T →
      ∃ T', min_total_time st' = Some T' ∧ T' ≤ T.
Proof.
  intros Hst Hbody. split.
  - assert (reachable (dfs_iteration crossing_times time_limit)
              (dfs_init crossing_times) st') as Hst' by by econstructor.
    destruct (dfs_reachable_paths_inv _ _ _ Hst') as [_ Hsound].
    unfold sound_result in Hsound. simpl in Hsound.
    destruct (min_total_time st') as [T|], (best_path st') as [p|]; try done.
    destruct Hsound as (c & Hj & Hc & Hle).
    split_and!; [by eapply journey_check|done|].
    exists c. split; [by eapply journey_last|done].
  - intros T HT. unfold dfs_iteration in Hbody.
    destruct (pop_last (stack st)) as [[stack' [[t p] c]]|]; [|done].
    destruct (decide (c.1.1 = ∅)).
    { destruct (below t (min_total_time st) && bool_decide (t ≤ time_limit)) eqn:Hb;
        injection Hbody as <-; simpl; [|exists T; split; [done|lia]].
      apply andb_true_iff in Hb as [Hb _]. rewrite HT in Hb. simpl in Hb.
      apply bool_decide_eq_true in Hb. exists t. split; [done|lia]. }
    destruct (negb (below t (min_total_time st)) || bool_decide (t > time_limit)).
    { injection Hbody as <-. simpl. exists T. split; [done|lia]. }
    destruct (stale (visited_states st) c t).
    { injection Hbody as <-. simpl. exists T. split; [done|lia]. }
    destruct (explore crossing_times time_limit append_move t p c
                (visited_states st, [])) as [[v' moves]|]; [|done].
    simpl in Hbody. injection Hbody as <-. simpl. exists T. split; [done|lia].
Qed.

Lemma dfs_incumbent_only_improves_witness :
  ∃ st',
    @dfs_iteration elements_order two_people 2 (dfs_init two_people) = Ok (inr st')
    ∧ match min_total_time st', best_path st' with
      | Some T, Some p =>
          check_path two_people p = Some T ∧ T ≤ 2
          ∧ ∃ c, last p = Some c ∧ c.1.1 = ∅
      | None, None => True
      | _, _ => False
      end
    ∧ ∀ T, min_total_time (dfs_init two_people) = Some T →
        ∃ T', min_total_time st' = Some T' ∧ T' ≤ T.
Proof.
  destruct two_people_dfs_round as [st' Hround].
  exists st'. split; [exact Hround|].
  exact (@dfs_incumbent_only_improves elements_order two_people 2
           (dfs_init two_people) st' (reachable_start _ _) Hround).
Defined.
